(** * A shallow embedding of [public/script.js]

    The script is a chat widget: [formatMessageText] turns the text of a
    bot message into an HTML fragment through a chain of
    [String.prototype.replace] calls with regular expressions, and the
    submit handler of the form drives one request/response exchange with
    [/api/chat].

    JavaScript strings are sequences of UTF-16 code units, and regular
    expressions without the [u] flag work on code units, so a string is a
    list of code units here. *)

From Stdlib Require Import List NArith Arith Bool String Ascii Lia.
From Stdlib Require Import Floats.SpecFloat Numbers.DecimalString.
Import ListNotations.

Set Implicit Arguments.
Set Warnings "-register-all".

(** ** Strings *)

Module JSString.

Definition jsstring := list N.

(** The code units of an ASCII literal. *)
Definition js (s : string) : jsstring :=
  map N_of_ascii (list_ascii_of_string s).

Definition eqb (a b : jsstring) : bool :=
  if list_eq_dec N.eq_dec a b then true else false.

Definition inb (c : N) (l : list N) : bool := existsb (N.eqb c) l.

(** LineTerminator: LF, CR, LS, PS. *)
Definition is_line_terminator (c : N) : bool :=
  inb c [10; 13; 8232; 8233]%N.

(** WhiteSpace and LineTerminator code units, the set behind [\s] and
    [String.prototype.trim]: TAB, LF, VT, FF, CR, SP, NBSP, U+1680,
    U+2000..U+200A, LS, PS, U+202F, U+205F, U+3000 and the BOM. *)
Definition is_space (c : N) : bool :=
  inb c [9; 10; 11; 12; 13; 32; 160; 5760; 8232; 8233; 8239; 8287; 12288; 65279]%N
  || ((8192 <=? c) && (c <=? 8202))%N.

Definition is_digit (c : N) : bool := ((48 <=? c) && (c <=? 57))%N.

Section Trim.
Variable A : Type.
Variable code : A -> N.

Fixpoint trim_start (s : list A) : list A :=
  match s with
  | c :: rest => if is_space (code c) then trim_start rest else s
  | [] => []
  end.

Definition trim_end (s : list A) : list A := rev (trim_start (rev s)).

(** [String.prototype.trim]. *)
Definition trim_gen (s : list A) : list A := trim_end (trim_start s).
End Trim.

Definition trim : jsstring -> jsstring := trim_gen (fun c => c).

(** [s.includes(t)] *)
Fixpoint starts_with (t s : jsstring) : bool :=
  match t, s with
  | [], _ => true
  | x :: t', y :: s' => N.eqb x y && starts_with t' s'
  | _ :: _, [] => false
  end.

Fixpoint includes (s t : jsstring) : bool :=
  starts_with t s ||
  match s with
  | [] => false
  | _ :: s' => includes s' t
  end.

End JSString.
Import JSString.

(** ** Regular expressions

    The fragment of ECMAScript patterns the script uses: characters and
    character classes, [^] and [$], sequence, alternation, greedy and lazy
    repetition of a one-character atom, capture groups and negative
    lookahead.  A match is searched by backtracking; [matches] lists the
    end states of all the ways a pattern matches at one position, in the
    order backtracking tries them, so the head of the list is the match
    the JavaScript engine returns. *)

Module RegExp.

Inductive cclass : Type :=
| CChar (c : N)            (* a literal character *)
| CDot                     (* .   *)
| CSpace                   (* \s  *)
| CNotSpace                (* \S  *)
| CDigit                   (* \d  *)
| CUnion (a b : cclass)    (* [ab] *)
| CNot (a : cclass).       (* [^a] *)

Inductive regex : Type :=
| REmpty
| RClass (k : cclass)
| RBol                               (* ^ *)
| REol                               (* $ *)
| RSeq (a b : regex)
| RAlt (a b : regex)
| RStar (greedy : bool) (k : cclass) (* k* and k*? *)
| RGroup (n : nat) (a : regex)       (* the n-th capture group *)
| RNegLook (a : regex).              (* (?!a) *)

Record flags : Type := { multiline : bool; dotAll : bool }.

Definition flags_g : flags := {| multiline := false; dotAll := false |}.
Definition flags_gm : flags := {| multiline := true; dotAll := false |}.
Definition flags_gms : flags := {| multiline := true; dotAll := true |}.

(** Derived forms. *)
Definition RChar (c : N) : regex := RClass (CChar c).
Definition RPlus (greedy : bool) (k : cclass) : regex :=
  RSeq (RClass k) (RStar greedy k).
Definition ROpt (k : cclass) : regex := RAlt (RClass k) REmpty.

Fixpoint RLit (s : jsstring) : regex :=
  match s with
  | [] => REmpty
  | [c] => RChar c
  | c :: rest => RSeq (RChar c) (RLit rest)
  end.

Fixpoint RSeqs (l : list regex) : regex :=
  match l with
  | [] => REmpty
  | [r] => r
  | r :: rest => RSeq r (RSeqs rest)
  end.

Fixpoint RAlts (l : list regex) : regex :=
  match l with
  | [] => REmpty
  | [r] => r
  | r :: rest => RAlt r (RAlts rest)
  end.

(** The state of a match attempt: [pos] code units consumed since the
    start of the attempt, the code unit [before] the current position (none
    at the start of the string), the rest of the [input], and the captures
    as (start, length) relative to the start of the attempt. *)
Record mstate : Type := {
  pos : nat;
  before : option N;
  input : list N;
  caps : list (nat * (nat * nat))
}.

Section Matcher.
Variable fl : flags.

Fixpoint class_mem (k : cclass) (c : N) : bool :=
  match k with
  | CChar x => N.eqb c x
  | CDot => dotAll fl || negb (is_line_terminator c)
  | CSpace => is_space c
  | CNotSpace => negb (is_space c)
  | CDigit => is_digit c
  | CUnion a b => class_mem a c || class_mem b c
  | CNot a => negb (class_mem a c)
  end.

Definition at_bol (st : mstate) : bool :=
  match before st with
  | None => true
  | Some c => multiline fl && is_line_terminator c
  end.

Definition at_eol (st : mstate) : bool :=
  match input st with
  | [] => true
  | c :: _ => multiline fl && is_line_terminator c
  end.

Definition advance (st : mstate) (c : N) (rest : list N) : mstate :=
  {| pos := S (pos st); before := Some c; input := rest; caps := caps st |}.

(** The states after 0, 1, 2, ... characters of the class. *)
Fixpoint star_states (k : cclass) (p : nat) (b : option N) (inp : list N)
         (cs : list (nat * (nat * nat))) : list mstate :=
  {| pos := p; before := b; input := inp; caps := cs |} ::
  match inp with
  | c :: rest =>
      if class_mem k c then star_states k (S p) (Some c) rest cs else []
  | [] => []
  end.

Definition set_cap (n : nat) (start : nat) (st : mstate) : mstate :=
  {| pos := pos st; before := before st; input := input st;
     caps := (n, (start, pos st - start)) :: caps st |}.

Fixpoint matches (r : regex) (st : mstate) : list mstate :=
  match r with
  | REmpty => [st]
  | RClass k =>
      match input st with
      | c :: rest => if class_mem k c then [advance st c rest] else []
      | [] => []
      end
  | RBol => if at_bol st then [st] else []
  | REol => if at_eol st then [st] else []
  | RSeq a b => flat_map (matches b) (matches a st)
  | RAlt a b => matches a st ++ matches b st
  | RStar greedy k =>
      let l := star_states k (pos st) (before st) (input st) (caps st) in
      if greedy then rev l else l
  | RGroup n a => map (set_cap n (pos st)) (matches a st)
  | RNegLook a =>
      match matches a st with
      | [] => [st]
      | _ :: _ => []
      end
  end.

(** One match attempt at the current position: the length of the match
    and its captures. *)
Definition exec (r : regex) (prev : option N) (inp : list N)
  : option (nat * list (nat * (nat * nat))) :=
  match matches r {| pos := 0; before := prev; input := inp; caps := [] |} with
  | st :: _ => Some (pos st, caps st)
  | [] => None
  end.
End Matcher.

(** Replacement patterns: literal text and [$n]. *)
Inductive titem : Type :=
| TLit (s : jsstring)
| TCap (n : nat).

Definition template := list titem.

Fixpoint cap_lookup (n : nat) (cs : list (nat * (nat * nat))) : option (nat * nat) :=
  match cs with
  | [] => None
  | (m, se) :: rest => if Nat.eqb n m then Some se else cap_lookup n rest
  end.

(** [String.prototype.replace] with a global pattern, over strings whose
    characters are of any type [A] that carries a code unit; the script
    runs it at [A := N]. *)
Section Replace.
Variable A : Type.
Variable code : A -> N.   (* the code unit of a character *)
Variable lit : N -> A.    (* a character of the replacement text *)

Definition slice (start len : nat) (s : list A) : list A :=
  firstn len (skipn start s).

Fixpoint expand (t : template) (s : list A) (cs : list (nat * (nat * nat)))
  : list A :=
  match t with
  | [] => []
  | TLit l :: t' => map lit l ++ expand t' s cs
  | TCap n :: t' =>
      match cap_lookup n cs with
      | Some (start, len) => slice start len s ++ expand t' s cs
      | None => expand t' s cs
      end
  end.

Variable fl : flags.
Variable r : regex.
Variable t : template.

(** The scan of [replace]: [skip] characters of [rest] still belong to
    the last match; otherwise a match is tried here, and after an empty
    match the scan moves on by one character. *)
Fixpoint replace_from (skip : nat) (prev : option N) (rest : list A) : list A :=
  match skip with
  | S k =>
      match rest with
      | [] => []
      | c :: rest' => replace_from k (Some (code c)) rest'
      end
  | O =>
      match exec fl r prev (map code rest) with
      | Some (len, cs) =>
          expand t rest cs ++
          match rest with
          | [] => []
          | c :: rest' =>
              match len with
              | O => c :: replace_from 0 (Some (code c)) rest'
              | S k => replace_from k (Some (code c)) rest'
              end
          end
      | None =>
          match rest with
          | [] => []
          | c :: rest' => c :: replace_from 0 (Some (code c)) rest'
          end
      end
  end.

Definition replace_gen (s : list A) : list A := replace_from 0 None s.
End Replace.

Definition replace (fl : flags) (r : regex) (t : template) (s : jsstring)
  : jsstring :=
  replace_gen (fun c => c) (fun c => c) fl r t s.

End RegExp.
Import RegExp.

(** ** The formatter: [formatMessageText] *)

Module Formatter.

Local Open Scope string_scope.

Definition chr (s : string) : N :=
  match js s with
  | c :: _ => c
  | [] => 0%N
  end.

(** The double quote, which a string literal of this file cannot hold. *)
Definition dq : jsstring := [34%N].

(** The three escapes, flag g: [&], [<], [>]. *)
Definition re_amp : regex := RChar (chr "&").
Definition re_lt : regex := RChar (chr "<").
Definition re_gt : regex := RChar (chr ">").

(** Headings, flags gm: [^], the hashes and a space, group 1 = [.*], [$]. *)
Definition re_heading (hashes : string) : regex :=
  RSeqs [RBol; RLit (js hashes); RChar (chr " ");
         RGroup 1 (RStar true CDot); REol].

(** Bold, flag g: two stars, group 1 = [.*?], two stars. *)
Definition re_bold : regex :=
  RSeqs [RLit (js "**"); RGroup 1 (RStar false CDot); RLit (js "**")].

(** Italics, flag g: a star, group 1 = [.*?], a star. *)
Definition re_italic : regex :=
  RSeqs [RChar (chr "*"); RGroup 1 (RStar false CDot); RChar (chr "*")].

(** Inline code, flag g: a backtick, group 1 = [.*?], a backtick. *)
Definition re_code : regex :=
  RSeqs [RChar (chr "`"); RGroup 1 (RStar false CDot); RChar (chr "`")].

(** Code blocks, flag g: three backticks, group 1 = [[\s\S]*?], three
    backticks. *)
Definition re_fence : regex :=
  RSeqs [RLit (js "```");
         RGroup 1 (RStar false (CUnion CSpace CNotSpace));
         RLit (js "```")].

(** Line breaks, flag g: [\n]. *)
Definition re_newline : regex := RChar 10%N.

(** Bulleted items, flags gm: [^], [\s*], one of [-] and [*], [\s+],
    group 1 = [.*], [$]. *)
Definition re_bullet : regex :=
  RSeqs [RBol; RStar true CSpace;
         RClass (CUnion (CChar (chr "-")) (CChar (chr "*")));
         RPlus true CSpace; RGroup 1 (RStar true CDot); REol].

(** A run of items, flags gms: group 1 = [<li>], [.*], [</li>]. *)
Definition re_items : regex :=
  RGroup 1 (RSeqs [RLit (js "<li>"); RStar true CDot; RLit (js "</li>")]).

(** Numbered items, flags gm: [^], [\s*], [\d+], a dot, [\s+],
    group 1 = [.*], [$]. *)
Definition re_numbered : regex :=
  RSeqs [RBol; RStar true CSpace; RPlus true CDigit; RChar (chr ".");
         RPlus true CSpace; RGroup 1 (RStar true CDot); REol].

(** Links, flag g: an opening bracket, group 1 = one or more characters
    other than the closing bracket, the closing bracket and an opening
    parenthesis, group 2 = [https?://] and one or more characters that are
    neither white space nor a closing parenthesis, a closing parenthesis. *)
Definition re_link : regex :=
  RSeqs [RChar (chr "[");
         RGroup 1 (RPlus true (CNot (CChar (chr "]"))));
         RLit (js "](");
         RGroup 2 (RSeqs [RLit (js "http"); ROpt (CChar (chr "s"));
                          RLit (js "://");
                          RPlus true (CNot (CUnion CSpace (CChar (chr ")"))))]);
         RChar (chr ")")].

(** Paragraphs, flags gm: [^], a negative lookahead for one of [<ul>],
    [<ol>], [<li>], [<pre>], [<code>], [<strong>], [<em>], [<a>],
    group 1 = [.+], [$]. *)
Definition block_starts : regex :=
  RAlts [RLit (js "<ul>"); RLit (js "<ol>"); RLit (js "<li>");
         RLit (js "<pre>"); RLit (js "<code>");
         RLit (js "<strong>"); RLit (js "<em>"); RLit (js "<a>")].

Definition re_paragraph : regex :=
  RSeqs [RBol; RNegLook block_starts; RGroup 1 (RPlus true CDot); REol].

(** White space, flag g: [\s+]. *)
Definition re_spaces : regex := RPlus true CSpace.

(** The replacement patterns. *)
Definition wrap (tag : string) : template :=
  [TLit (js ("<" ++ tag ++ ">")); TCap 1; TLit (js ("</" ++ tag ++ ">"))].

Definition tpl_fence : template :=
  [TLit (js "<pre><code>"); TCap 1; TLit (js "</code></pre>")].

(** The anchor: an [a] element whose [href] is the second capture, with
    [target=_blank] and [rel=noopener noreferrer], around the first capture. *)
Definition tpl_link : template :=
  [TLit (js "<a href=" ++ dq)%list; TCap 2;
   TLit (dq ++ js " target=" ++ dq ++ js "_blank" ++ dq ++ js " rel=" ++ dq
         ++ js "noopener noreferrer" ++ dq ++ js ">")%list;
   TCap 1; TLit (js "</a>")].

(** The stages of [formatMessageText], in the order of the source: a
    pattern with its flags and its replacement. *)
Definition stages : list (flags * regex * template) :=
  [ (flags_g, re_amp, [TLit (js "&amp;")]);
    (flags_g, re_lt, [TLit (js "&lt;")]);
    (flags_g, re_gt, [TLit (js "&gt;")]);
    (flags_gm, re_heading "###", wrap "h3");
    (flags_gm, re_heading "##", wrap "h2");
    (flags_gm, re_heading "#", wrap "h1");
    (flags_g, re_bold, wrap "strong");
    (flags_g, re_italic, wrap "em");
    (flags_g, re_code, wrap "code");
    (flags_g, re_fence, tpl_fence);
    (flags_g, re_newline, [TLit (js "<br>")]);
    (flags_gm, re_bullet, wrap "li");
    (flags_gms, re_items, wrap "ul");
    (flags_gm, re_numbered, wrap "li");
    (flags_gms, re_items, wrap "ol");
    (flags_g, re_link, tpl_link);
    (flags_gm, re_paragraph, wrap "p");
    (flags_g, re_spaces, [TLit (js " ")]) ].

Section Format.
Variable A : Type.
Variable code : A -> N.
Variable lit : N -> A.

Definition run_stage (text : list A) (st : flags * regex * template) : list A :=
  let '(fl, r, t) := st in replace_gen code lit fl r t text.

(** The body of [formatMessageText] on a string: the empty string is
    falsy and returned at once; otherwise every [replace] in turn, then
    [trim]. *)
Definition format_gen (text : list A) : list A :=
  match text with
  | [] => []
  | _ :: _ => trim_gen code (fold_left run_stage stages text)
  end.
End Format.

Definition format (text : jsstring) : jsstring :=
  format_gen (fun c => c) (fun c => c) text.

End Formatter.
Import Formatter.

Local Open Scope string_scope.
Local Open Scope list_scope.

(** ** JavaScript values *)

Module Value.

(** The values the script handles: the result of [response.json()] and of
    the property reads on it.  A number is an IEEE 754 double. *)
Inductive value : Type :=
| VUndefined
| VNull
| VBool (b : bool)
| VNum (x : spec_float)
| VStr (s : jsstring)
| VArr (items : list value)
| VObj (props : list (jsstring * value)).

(** What the script throws or sees thrown.  [ErrorOf v] stands for the
    object [new Error(v)], named by the argument of the constructor: its
    message is the string conversion of [v], which is [v] itself when [v]
    is a string.  The text of a [TypeError] is the wording of the engine
    and no statement depends on it. *)
Inductive exn : Type :=
| NetworkError (detail : jsstring)     (* [fetch] rejected *)
| JsonSyntaxError (detail : jsstring)  (* [response.json()] rejected *)
| TypeError (detail : jsstring)
| ErrorOf (argument : value).          (* [new Error(argument)] *)

Inductive result (A : Type) : Type :=
| Ok (a : A)
| Throw (e : exn).
Arguments Ok {A} a.
Arguments Throw {A} e.

(** ToBoolean *)
Definition truthy (v : value) : bool :=
  match v with
  | VUndefined | VNull => false
  | VBool b => b
  | VNum (S754_zero _) | VNum S754_nan => false
  | VNum _ => true
  | VStr [] => false
  | VStr (_ :: _) => true
  | VArr _ | VObj _ => true
  end.

Fixpoint own_property (props : list (jsstring * value)) (name : jsstring)
  : value :=
  match props with
  | [] => VUndefined
  | (k, v) :: rest => if JSString.eqb k name then v else own_property rest name
  end.

(** [v.name], for the names the script reads ([result], [error],
    [message]): none of them is defined on a built-in prototype, so only an
    object's own property can answer, and reading a property of [null] or
    [undefined] throws. *)
Definition get (v : value) (name : jsstring) : result value :=
  match v with
  | VUndefined | VNull =>
      Throw (TypeError (js "Cannot read properties of null or undefined"))
  | VObj props => Ok (own_property props name)
  | _ => Ok VUndefined
  end.

(** [v?.name] *)
Definition get_opt (v : value) (name : jsstring) : result value :=
  match v with
  | VUndefined | VNull => Ok VUndefined
  | _ => get v name
  end.

(** [a || b] *)
Definition or_else (a b : value) : value := if truthy a then a else b.

(** The decimal digits of a number. *)
Definition decimal (n : N) : jsstring :=
  js (NilZero.string_of_uint (N.to_uint n)).

End Value.
Import Value.

(** ** [JSON.stringify] *)

Module JSON.

(** What the script serialises: object and array literals whose leaves are
    strings. *)
Inductive data : Type :=
| DStr (s : jsstring)
| DArr (items : list data)
| DObj (props : list (jsstring * data)).

Definition hex_digit (n : N) : N :=
  if (n <? 10)%N then (48 + n)%N else (87 + n)%N.

(** [\uXXXX], with lower-case digits. *)
Definition unicode_escape (c : N) : jsstring :=
  js "\u" ++ [hex_digit (N.land (N.shiftr c 12) 15);
              hex_digit (N.land (N.shiftr c 8) 15);
              hex_digit (N.land (N.shiftr c 4) 15);
              hex_digit (N.land c 15)].

Definition is_lead (c : N) : bool := ((55296 <=? c) && (c <=? 56319))%N.
Definition is_trail (c : N) : bool := ((56320 <=? c) && (c <=? 57343))%N.

Definition quote_unit (c : N) : jsstring :=
  if (c =? 8)%N then js "\b"
  else if (c =? 9)%N then js "\t"
  else if (c =? 10)%N then js "\n"
  else if (c =? 12)%N then js "\f"
  else if (c =? 13)%N then js "\r"
  else if (c =? 34)%N then js "\" ++ dq
  else if (c =? 92)%N then js "\\"
  else if (c <? 32)%N then unicode_escape c
  else [c].

(** The characters of QuoteJSONString between the quotes: a surrogate
    pair is copied, a lone surrogate is escaped. *)
Fixpoint quote_units (s : jsstring) : jsstring :=
  match s with
  | [] => []
  | c :: rest =>
      if is_lead c then
        match rest with
        | d :: rest' =>
            if is_trail d then c :: d :: quote_units rest'
            else unicode_escape c ++ quote_units rest
        | [] => unicode_escape c
        end
      else if is_trail c then unicode_escape c ++ quote_units rest
      else quote_unit c ++ quote_units rest
  end.

Definition quote (s : jsstring) : jsstring := dq ++ quote_units s ++ dq.

Fixpoint join (sep : jsstring) (parts : list jsstring) : jsstring :=
  match parts with
  | [] => []
  | [p] => p
  | p :: rest => p ++ sep ++ join sep rest
  end.

(** [JSON.stringify(v)] without indentation. *)
Fixpoint stringify (v : data) : jsstring :=
  match v with
  | DStr s => quote s
  | DArr items => js "[" ++ join (js ",") (map stringify items) ++ js "]"
  | DObj props =>
      js "{" ++
      join (js ",")
        (map (fun kv => quote (fst kv) ++ js ":" ++ stringify (snd kv)) props)
      ++ js "}"
  end.

End JSON.

(** ** The page and the submit handler *)

Module Chat.

(** A child of the chat box: its class list, what was assigned to it
    ([innerHTML] for a bot message, [textContent] for a user message) and
    [dataset.temporary]. *)
Inductive content : Type :=
| InnerHTML (html : jsstring)
| TextContent (text : jsstring).

Record element : Type := {
  classList : list jsstring;
  shown : content;
  temporary : option jsstring
}.

(** The argument of a [fetch] call. *)
Record request : Type := {
  url : jsstring;
  method : jsstring;
  headers : list (jsstring * jsstring);
  body : jsstring
}.

(** A response: its status, and its body as [response.json()] reads it
    ([None] when the body is not JSON and the promise rejects). *)
Record response : Type := {
  status : N;
  json : option value
}.

(** [response.ok] *)
Definition ok (r : response) : bool :=
  ((200 <=? status r) && (status r <=? 299))%N.

(** How a [fetch] call settles. *)
Inductive settled : Type :=
| Rejected (detail : jsstring)
| Responded (r : response).

(** The page: the children of [#chat-box], whether it is scrolled to its
    end, the input field and the send button, the developer console and
    the [fetch] calls made. *)
Record page : Type := {
  chatBox : list element;
  scrolledToEnd : bool;
  inputValue : jsstring;
  inputDisabled : bool;
  inputFocused : bool;
  buttonDisabled : bool;
  console : list (jsstring * exn);
  fetched : list request
}.

Definition initial : page :=
  {| chatBox := []; scrolledToEnd := true; inputValue := [];
     inputDisabled := false; inputFocused := false; buttonDisabled := false;
     console := []; fetched := [] |}.

(** *** Statements: state passing with exceptions *)

Definition M (A : Type) : Type := page -> result A * page.

Definition ret {A} (a : A) : M A := fun p => (Ok a, p).

Definition bind {A B} (m : M A) (f : A -> M B) : M B :=
  fun p =>
    match m p with
    | (Ok a, p') => f a p'
    | (Throw e, p') => (Throw e, p')
    end.

Definition throw {A} (e : exn) : M A := fun p => (Throw e, p).

Definition lift {A} (r : result A) : M A := fun p => (r, p).

Definition try_catch {A} (m : M A) (handler : exn -> M A) : M A :=
  fun p =>
    match m p with
    | (Ok a, p') => (Ok a, p')
    | (Throw e, p') => handler e p'
    end.

Definition try_finally {A} (m : M A) (cleanup : M unit) : M A :=
  fun p =>
    match m p with
    | (r, p') =>
        match cleanup p' with
        | (Ok _, p'') => (r, p'')
        | (Throw e, p'') => (Throw e, p'')
        end
    end.

Definition update (f : page -> page) : M unit := fun p => (Ok tt, f p).

Definition read {A} (f : page -> A) : M A := fun p => (Ok (f p), p).

Declare Scope chat_scope.
Delimit Scope chat_scope with chat.
Notation "x <- m ;; k" := (bind m (fun x => k))
  (at level 61, m at next level, right associativity) : chat_scope.
Notation "m ;; k" := (bind m (fun _ => k))
  (at level 61, right associativity) : chat_scope.
Local Open Scope chat_scope.

(** *** Page updates *)

Definition set_chatBox (l : list element) (p : page) : page :=
  {| chatBox := l; scrolledToEnd := scrolledToEnd p;
     inputValue := inputValue p; inputDisabled := inputDisabled p;
     inputFocused := inputFocused p; buttonDisabled := buttonDisabled p;
     console := console p; fetched := fetched p |}.

Definition set_scrolledToEnd (b : bool) (p : page) : page :=
  {| chatBox := chatBox p; scrolledToEnd := b;
     inputValue := inputValue p; inputDisabled := inputDisabled p;
     inputFocused := inputFocused p; buttonDisabled := buttonDisabled p;
     console := console p; fetched := fetched p |}.

Definition set_inputValue (s : jsstring) (p : page) : page :=
  {| chatBox := chatBox p; scrolledToEnd := scrolledToEnd p;
     inputValue := s; inputDisabled := inputDisabled p;
     inputFocused := inputFocused p; buttonDisabled := buttonDisabled p;
     console := console p; fetched := fetched p |}.

(** [userInput.disabled = b]; a disabled field cannot keep the focus. *)
Definition set_inputDisabled (b : bool) (p : page) : page :=
  {| chatBox := chatBox p; scrolledToEnd := scrolledToEnd p;
     inputValue := inputValue p; inputDisabled := b;
     inputFocused := if b then false else inputFocused p;
     buttonDisabled := buttonDisabled p;
     console := console p; fetched := fetched p |}.

Definition set_buttonDisabled (b : bool) (p : page) : page :=
  {| chatBox := chatBox p; scrolledToEnd := scrolledToEnd p;
     inputValue := inputValue p; inputDisabled := inputDisabled p;
     inputFocused := inputFocused p; buttonDisabled := b;
     console := console p; fetched := fetched p |}.

(** [userInput.focus()]: a disabled field does not take the focus. *)
Definition focus_input (p : page) : page :=
  {| chatBox := chatBox p; scrolledToEnd := scrolledToEnd p;
     inputValue := inputValue p; inputDisabled := inputDisabled p;
     inputFocused := negb (inputDisabled p);
     buttonDisabled := buttonDisabled p;
     console := console p; fetched := fetched p |}.

(** [console.error(label, e)] *)
Definition console_error (label : jsstring) (e : exn) : M unit :=
  update (fun p =>
    {| chatBox := chatBox p; scrolledToEnd := scrolledToEnd p;
       inputValue := inputValue p; inputDisabled := inputDisabled p;
       inputFocused := inputFocused p; buttonDisabled := buttonDisabled p;
       console := console p ++ [(label, e)]; fetched := fetched p |}).

(** The call of [fetch]: the request leaves the page. *)
Definition fetch (r : request) : M unit :=
  update (fun p =>
    {| chatBox := chatBox p; scrolledToEnd := scrolledToEnd p;
       inputValue := inputValue p; inputDisabled := inputDisabled p;
       inputFocused := inputFocused p; buttonDisabled := buttonDisabled p;
       console := console p; fetched := fetched p ++ [r] |}).

(** [classList.add] and [classList.remove] *)
Definition class_contains (cl : list jsstring) (c : jsstring) : bool :=
  existsb (JSString.eqb c) cl.

Definition class_add (cl : list jsstring) (c : jsstring) : list jsstring :=
  if class_contains cl c then cl else cl ++ [c].

Definition class_remove (cl : list jsstring) (c : jsstring) : list jsstring :=
  filter (fun x => negb (JSString.eqb c x)) cl.

(** The element at an index of the chat box replaced. *)
Fixpoint set_nth (i : nat) (e : element) (l : list element) : list element :=
  match l, i with
  | [], _ => []
  | _ :: rest, O => e :: rest
  | x :: rest, S j => x :: set_nth j e rest
  end.

(** *** [formatMessageText] as the script calls it

    A falsy argument gives the empty string; on any other value that is
    not a string, [text.replace] is not a function and the call throws. *)
Definition formatMessageText (text : value) : result jsstring :=
  if negb (truthy text) then Ok []
  else
    match text with
    | VStr s => Ok (format s)
    | _ => Throw (TypeError (js "text.replace is not a function"))
    end.

(** *** [addMessage]

    The new element is appended to the chat box; the element returned is
    named by its index there. *)
Definition addMessage (sender message : jsstring) (isTemporary : bool)
  : M nat :=
  let classes := class_add (class_add [] (js "chat-message")) sender in
  shown0 <-
    (if JSString.eqb sender (js "bot")
     then html <- lift (formatMessageText (VStr message)) ;; ret (InnerHTML html)
     else ret (TextContent message)) ;;
  let messageElement :=
    if isTemporary
    then {| classList := class_add classes (js "thinking");
            shown := shown0; temporary := Some (js "true") |}
    else {| classList := classes; shown := shown0; temporary := None |} in
  index <- read (fun p => List.length (chatBox p)) ;;
  update (fun p => set_chatBox (chatBox p ++ [messageElement]) p) ;;
  update (set_scrolledToEnd true) ;;
  ret index.

(** *** [replaceTemporaryMessage]

    [replaced el html] is the element after the assignments of the
    function: the new [innerHTML], the temporary flag deleted, the class
    [thinking] removed and the class [bot] added when it is missing. *)
Definition replaced (el : element) (html : jsstring) : element :=
  let classes := class_remove (classList el) (js "thinking") in
  {| classList := if negb (class_contains classes (js "bot"))
                  then class_add classes (js "bot") else classes;
     shown := InnerHTML html;
     temporary := None |}.

Definition replaceTemporaryMessage (tempElement : nat) (newMessage : value)
  : M unit :=
  found <- read (fun p => nth_error (chatBox p) tempElement) ;;
  match found with
  | Some el =>
      match temporary el with
      | Some flag =>
          if JSString.eqb flag (js "true") then
            html <- lift (formatMessageText newMessage) ;;
            update (fun p =>
              set_chatBox (set_nth tempElement (replaced el html) (chatBox p)) p) ;;
            update (set_scrolledToEnd true)
          else ret tt
      | None => ret tt
      end
  | None => ret tt
  end.

(** *** The submit handler

    The handler is an [async] function.  It runs up to the call of [fetch]
    when the form is submitted ([submit]); the rest runs when the call has
    settled ([resume]), with the element of the placeholder the first part
    created. *)

Definition the_request (userMessage : jsstring) : request :=
  {| url := js "/api/chat";
     method := js "POST";
     headers := [(js "Content-Type", js "application/json")];
     body :=
       JSON.stringify
         (JSON.DObj
            [(js "messages",
              JSON.DArr
                [JSON.DObj [(js "role", JSON.DStr (js "user"));
                            (js "content", JSON.DStr userMessage)]])]) |}.

Definition submit : M (option nat) :=
  value0 <- read inputValue ;;
  let userMessage := trim value0 in
  match userMessage with
  | [] => ret None
  | _ :: _ =>
      addMessage (js "user") userMessage false ;;
      update (set_inputValue []) ;;
      update (set_inputDisabled true) ;;
      update (set_buttonDisabled true) ;;
      thinkingMessageElement <- addMessage (js "bot") (js "Thinking...") true ;;
      fetch (the_request userMessage) ;;
      ret (Some thinkingMessageElement)
  end.

(** [response.json()] *)
Definition read_json (r : response) : M value :=
  match json r with
  | Some v => ret v
  | None => throw (JsonSyntaxError (js "Unexpected token"))
  end.

(** The message of the error thrown for a response that is not ok. *)
Definition error_message (r : response) : M value :=
  let errorMessage := VStr (js "HTTP error! status: " ++ decimal (status r)) in
  try_catch
    (errorData <- read_json r ;;
     error <- lift (get errorData (js "error")) ;;
     m1 <- lift (get_opt error (js "message")) ;;
     if truthy m1 then ret m1
     else
       m2 <- lift (get errorData (js "message")) ;;
       ret (or_else m2 errorMessage))
    (fun jsonError =>
       console_error (js "Failed to parse error response JSON:") jsonError ;;
       ret errorMessage).

Definition sorry_text : jsstring := js "Sorry, no response received.".
Definition failed_text : jsstring := js "Failed to get response from server.".

(** The [try] block, from the point where [fetch] has settled. *)
Definition try_block (thinkingMessageElement : nat) (outcome : settled)
  : M unit :=
  r <- match outcome with
       | Rejected detail => throw (NetworkError detail)
       | Responded r => ret r
       end ;;
  (if negb (ok r)
   then errorMessage <- error_message r ;; throw (ErrorOf errorMessage)
   else ret tt) ;;
  data <- read_json r ;;
  result0 <- (if truthy data then lift (get data (js "result"))
              else ret data) ;;
  if truthy result0
  then replaceTemporaryMessage thinkingMessageElement result0
  else replaceTemporaryMessage thinkingMessageElement (VStr sorry_text).

(** The [catch] block. *)
Definition catch_block (thinkingMessageElement : nat) (error : exn) : M unit :=
  console_error (js "Error sending message to API:") error ;;
  replaceTemporaryMessage thinkingMessageElement (VStr failed_text).

(** The [finally] block. *)
Definition finally_block : M unit :=
  update (set_inputDisabled false) ;;
  update (set_buttonDisabled false) ;;
  update focus_input.

Definition resume (thinkingMessageElement : nat) (outcome : settled) : M unit :=
  try_finally
    (try_catch (try_block thinkingMessageElement outcome)
               (catch_block thinkingMessageElement))
    finally_block.

(** *** The page over time

    Between handler runs the page belongs to the user and the network.
    The user can type in the field while it is enabled; the form can be
    submitted while the field or the button is enabled (a disabled control
    fires no event); a [fetch] call that is waiting can settle.  [waiting]
    lists the suspended handlers by the element each holds. *)
Record world : Type := {
  the_page : page;
  waiting : list nat
}.

Definition start : world := {| the_page := initial; waiting := [] |}.

Fixpoint remove_first (el : nat) (l : list nat) : list nat :=
  match l with
  | [] => []
  | x :: rest => if Nat.eqb x el then rest else x :: remove_first el rest
  end.

Inductive step : world -> world -> Prop :=
| step_type : forall w text,
    inputDisabled (the_page w) = false ->
    step w {| the_page := set_inputValue text (the_page w);
              waiting := waiting w |}
| step_submit : forall w r p',
    inputDisabled (the_page w) = false \/ buttonDisabled (the_page w) = false ->
    submit (the_page w) = (r, p') ->
    step w {| the_page := p';
              waiting := match r with
                         | Ok (Some el) => waiting w ++ [el]
                         | _ => waiting w
                         end |}
| step_settle : forall w el outcome r p',
    In el (waiting w) ->
    resume el outcome (the_page w) = (r, p') ->
    step w {| the_page := p'; waiting := remove_first el (waiting w) |}.

Inductive reachable : world -> Prop :=
| reachable_start : reachable start
| reachable_step : forall w w', reachable w -> step w w' -> reachable w'.

(** A message is pending while its element carries the temporary flag. *)
Definition pending (e : element) : bool :=
  match temporary e with
  | Some flag => JSString.eqb flag (js "true")
  | None => false
  end.

Definition pending_count (p : page) : nat :=
  List.length (filter pending (chatBox p)).

Inductive phase : Type := Idle | AwaitingResponse.

Definition phase_of (w : world) : phase :=
  match waiting w with
  | [] => Idle
  | _ :: _ => AwaitingResponse
  end.

End Chat.

(** ** Notions the statements use *)

Module Props.

(** *** Where the characters of the output come from

    A character with its origin: copied from the argument of
    [formatMessageText], or written by a replacement pattern.  The formatter
    over such characters is the same chain of [replace] calls; a pattern
    sees the code units only. *)
Inductive origin : Type := FromInput | FromPattern.

Record tchar : Type := { tcode : N; torigin : origin }.

Definition from_input (c : N) : tchar := {| tcode := c; torigin := FromInput |}.
Definition from_pattern (c : N) : tchar := {| tcode := c; torigin := FromPattern |}.

Definition format_traced (text : jsstring) : list tchar :=
  format_gen tcode from_pattern (map from_input text).

(** The three HTML metacharacters. *)
Definition is_meta (c : N) : bool := inb c [chr "&"; chr "<"; chr ">"].

(** A character of the output is raw when it is a metacharacter copied
    from the input. *)
Definition raw (x : tchar) : Prop :=
  torigin x = FromInput /\ is_meta (tcode x) = true.

(** A character copied from the input is none of the characters [m]. *)
Definition copied_without (m : list N) (x : tchar) : Prop :=
  torigin x = FromInput -> ~ In (tcode x) m.

(** *** Occurrences of a word *)

Definition occurs (w s : jsstring) : Prop := exists a b, s = a ++ w ++ b.

(** A word in front of which, or after which, no occurrence of [w] can
    start or end half way. *)
Definition starts_clear (w y : jsstring) : Prop :=
  forall c y', y = c :: y' -> ~ In c (tl w).

Definition ends_clear (w x : jsstring) : Prop :=
  forall x' c, x = x' ++ [c] -> ~ In c (removelast w).

(** The literal pieces of a replacement pattern keep [w] out when each is
    not empty, has no occurrence of [w], begins with a character that is not
    inside [w] and ends with one, and when every capture stands between two
    literal pieces. *)
Definition guardb (w l : jsstring) : bool :=
  match l with
  | [] => false
  | c :: _ =>
      negb (inb c (tl w)) && negb (inb (last l 0%N) (removelast w))
      && negb (includes l w)
  end.

Fixpoint tmpl_ok (w : jsstring) (after_literal : bool) (t : template) : bool :=
  match t with
  | [] => after_literal
  | TLit l :: t' => guardb w l && tmpl_ok w true t'
  | TCap _ :: t' => after_literal && tmpl_ok w false t'
  end.

Definition lt_word : jsstring := js "<script".

(** The number of places where [w] starts in [s]. *)
Fixpoint count_word (w s : jsstring) : nat :=
  (if starts_with w s then 1 else 0) +
  match s with
  | [] => 0
  | _ :: s' => count_word w s'
  end.

Definition stage_template (st : flags * regex * template) : template := snd st.

(** *** Where a match can start

    For a position with the character [prev] before it and the character
    [next] after it (none at either end of the string): whether the pattern
    can match the empty string there, and whether it can match a string
    that begins with [next].  Both err on the side of yes. *)
Section Start.
Variable fl : flags.

Fixpoint nullable (r : regex) (prev next : option N) : bool :=
  match r with
  | REmpty => true
  | RClass _ => false
  | RBol =>
      match prev with
      | None => true
      | Some c => multiline fl && is_line_terminator c
      end
  | REol =>
      match next with
      | None => true
      | Some c => multiline fl && is_line_terminator c
      end
  | RSeq a b => nullable a prev next && nullable b prev next
  | RAlt a b => nullable a prev next || nullable b prev next
  | RStar _ _ => true
  | RGroup _ a => nullable a prev next
  | RNegLook _ => true
  end.

Fixpoint first (r : regex) (prev next : option N) : bool :=
  match r with
  | REmpty | RBol | REol | RNegLook _ => false
  | RClass k | RStar _ k =>
      match next with
      | Some c => class_mem fl k c
      | None => false
      end
  | RSeq a b => first a prev next || (nullable a prev next && first b prev next)
  | RAlt a b => first a prev next || first b prev next
  | RGroup _ a => first a prev next
  end.

Definition can_start (r : regex) (prev next : option N) : bool :=
  nullable r prev next || first r prev next.
End Start.

(** The strings a pattern can consume, whatever stands around them. *)
Fixpoint lang (fl : flags) (r : regex) (w : jsstring) : Prop :=
  match r with
  | REmpty | RBol | REol | RNegLook _ => w = []
  | RClass k => exists c, w = [c] /\ class_mem fl k c = true
  | RSeq a b => exists w1 w2, w = w1 ++ w2 /\ lang fl a w1 /\ lang fl b w2
  | RAlt a b => lang fl a w \/ lang fl b w
  | RStar _ k => Forall (fun c => class_mem fl k c = true) w
  | RGroup _ a => lang fl a w
  end.

(** The scan of [replace] on a string of code units. *)
Definition scan (fl : flags) (r : regex) (t : template)
  : nat -> option N -> jsstring -> jsstring :=
  replace_from (fun c : N => c) (fun c : N => c) fl r t.

(** The character before the position after [w]. *)
Fixpoint prev_after (prev : option N) (w : jsstring) : option N :=
  match w with
  | [] => prev
  | c :: w' => prev_after (Some c) w'
  end.

(** The state of a match attempt after the characters [w], with [rest]
    left. *)
Definition adv (st : mstate) (w rest : jsstring) : mstate :=
  {| pos := List.length w + pos st;
     before := prev_after (before st) w;
     input := rest;
     caps := caps st |}.

(** No match can start at any character of [w]. *)
Fixpoint quiet (fl : flags) (r : regex) (prev : option N) (w : jsstring) : bool :=
  match w with
  | [] => true
  | c :: w' => negb (can_start fl r prev (Some c)) && quiet fl r (Some c) w'
  end.

(** *** Spans and anchors *)

Definition span (label url : jsstring) : jsstring :=
  js "[" ++ label ++ js "](" ++ url ++ js ")".

Definition anchor (label url : jsstring) : jsstring :=
  js "<a href=" ++ dq ++ url ++ dq ++ js " target=" ++ dq ++ js "_blank" ++ dq
  ++ js " rel=" ++ dq ++ js "noopener noreferrer" ++ dq ++ js ">"
  ++ label ++ js "</a>".

(** The start of a web address. *)
Definition scheme (secure : bool) : jsstring :=
  js "http" ++ (if secure then js "s" else []) ++ js "://".

Definition stage_flags (st : flags * regex * template) : flags := fst (fst st).
Definition stage_regex (st : flags * regex * template) : regex := snd (fst st).

(** [http://] or [https://] and at least one more character. *)
Definition web_url (url : jsstring) : Prop :=
  exists rest,
    rest <> [] /\ (url = js "http://" ++ rest \/ url = js "https://" ++ rest).

(** Every white space character is one space, and a character that is not
    white space follows it. *)
Fixpoint single_spaced (s : jsstring) : bool :=
  match s with
  | [] => true
  | c :: rest =>
      (if is_space c
       then N.eqb c 32
            && match rest with
               | d :: _ => negb (is_space d)
               | [] => false
               end
       else true)
      && single_spaced rest
  end.

(** *** The exchange *)

Import Chat.

(** The element [el] of the page is a pending message: [e0], with the
    temporary flag. *)
Definition pending_at (p : page) (el : nat) (e0 : element) : Prop :=
  nth_error (chatBox p) el = Some e0 /\ temporary e0 = Some (js "true").

(** The page once a handler has finished: the placeholder [el] shows
    [html], [log] went to the console, the field and the button are enabled
    and the field has the focus. *)
Definition settled_page (el : nat) (e0 : element) (html : jsstring)
           (log : list (jsstring * exn)) (p : page) : page :=
  {| chatBox := set_nth el (replaced e0 html) (chatBox p);
     scrolledToEnd := true;
     inputValue := inputValue p;
     inputDisabled := false;
     inputFocused := true;
     buttonDisabled := false;
     console := console p ++ log;
     fetched := fetched p |}.

(** The page with [log] added to the console. *)
Definition logged (log : list (jsstring * exn)) (p : page) : page :=
  {| chatBox := chatBox p; scrolledToEnd := scrolledToEnd p;
     inputValue := inputValue p; inputDisabled := inputDisabled p;
     inputFocused := inputFocused p; buttonDisabled := buttonDisabled p;
     console := console p ++ log; fetched := fetched p |}.

(** The page with the placeholder [el] replaced by [html]. *)
Definition replaced_page (el : nat) (e0 : element) (html : jsstring) (p : page)
  : page :=
  set_scrolledToEnd true
    (set_chatBox (set_nth el (replaced e0 html) (chatBox p)) p).

(** A transport failure: the call was rejected, the status is not 2xx, or
    the body is not JSON. *)
Definition transport_failure (o : settled) : Prop :=
  match o with
  | Rejected _ => True
  | Responded r => ok r = false \/ json r = None
  end.

(** The body has a field of that name. *)
Definition has_field (v : value) (name : jsstring) : bool :=
  match v with
  | VObj props => existsb (fun kv => JSString.eqb (fst kv) name) props
  | _ => false
  end.

(** The page after a submission of [userMessage]: the user's message and
    the placeholder appended, the field emptied, field and button disabled,
    the request sent. *)
Definition user_element (userMessage : jsstring) : element :=
  {| classList := [js "chat-message"; js "user"];
     shown := TextContent userMessage;
     temporary := None |}.

Definition thinking_element : element :=
  {| classList := [js "chat-message"; js "bot"; js "thinking"];
     shown := InnerHTML (format (js "Thinking..."));
     temporary := Some (js "true") |}.

Definition submitted_page (userMessage : jsstring) (p : page) : page :=
  {| chatBox := (chatBox p ++ [user_element userMessage]) ++ [thinking_element];
     scrolledToEnd := true;
     inputValue := [];
     inputDisabled := true;
     inputFocused := false;
     buttonDisabled := true;
     console := console p;
     fetched := fetched p ++ [the_request userMessage] |}.

(** The invariant of the page over time: nothing is pending and no handler
    waits, or one handler waits, its element is the only pending message
    and the field and the button are disabled. *)
Definition single_flight (w : world) : Prop :=
  (waiting w = [] /\ pending_count (the_page w) = 0)
  \/ (exists el e0,
        waiting w = [el] /\ pending_at (the_page w) el e0 /\
        pending_count (the_page w) = 1 /\
        inputDisabled (the_page w) = true /\
        buttonDisabled (the_page w) = true).

End Props.

(** ** Further notions *)

Module Further.
Import Chat Props.

Local Open Scope string_scope.
Local Open Scope list_scope.

(** A string of white space. *)
Definition blank (A : Type) (code : A -> N) (s : list A) : bool :=
  forallb (fun c => is_space (code c)) s.

(** *** Property reads that do not throw *)

(** [v.name] for a value [v] that is neither [null] nor [undefined]. *)
Definition property_of (v : value) (name : jsstring) : value :=
  match v with
  | VObj props => own_property props name
  | _ => VUndefined
  end.

(** The message an error is built with when the body of the response
    gives none. *)
Definition default_message (r : response) : value :=
  VStr (js "HTTP error! status: " ++ decimal (status r)).

(** *** The log *)

(** The texts of the user entries, in order. *)
Fixpoint user_texts (l : list element) : list jsstring :=
  match l with
  | [] => []
  | e :: rest =>
      match shown e with
      | TextContent text => text :: user_texts rest
      | InnerHTML _ => user_texts rest
      end
  end.

Definition is_user_entry (e : element) : bool :=
  match shown e, temporary e with
  | TextContent _, None => true
  | _, _ => false
  end.

Definition is_bot_entry (e : element) : bool :=
  match shown e with
  | InnerHTML _ => true
  | TextContent _ => false
  end.

(** A user entry, a bot entry, a user entry, a bot entry, ... *)
Fixpoint alternating (l : list element) : bool :=
  match l with
  | [] => true
  | u :: rest =>
      match rest with
      | b :: rest' => is_user_entry u && is_bot_entry b && alternating rest'
      | [] => false
      end
  end.

(** The shape of the page over time: the log alternates, one request went
    out for each user entry, in order and with that entry's text, the two
    controls agree, they are enabled when no handler waits, and a handler
    that waits holds the last entry of the log. *)
Definition tidy (w : world) : Prop :=
  alternating (chatBox (the_page w)) = true
  /\ fetched (the_page w) = map the_request (user_texts (chatBox (the_page w)))
  /\ inputDisabled (the_page w) = buttonDisabled (the_page w)
  /\ (waiting w = [] -> inputDisabled (the_page w) = false)
  /\ (forall el, In el (waiting w) ->
                 S el = List.length (chatBox (the_page w))).

(** An entry shown as markup holds a result of the formatter. *)
Definition formatted (e : element) : Prop :=
  match shown e with
  | InnerHTML html => exists text, html = format text
  | TextContent _ => True
  end.

(** *** The formatter *)

(** Every white space character is one space, and no white space follows
    it. *)
Fixpoint collapsed (s : jsstring) : bool :=
  match s with
  | [] => true
  | c :: rest =>
      (if is_space c
       then N.eqb c 32
            && match rest with
               | d :: _ => negb (is_space d)
               | [] => true
               end
       else true)
      && collapsed rest
  end.

(** The entity of a character that has one, the character otherwise. *)
Definition escape_unit (c : N) : jsstring :=
  if N.eqb c (chr "&") then js "&amp;"
  else if N.eqb c (chr "<") then js "&lt;"
  else if N.eqb c (chr ">") then js "&gt;"
  else [c].

Definition escape_html (s : jsstring) : jsstring := flat_map escape_unit s.

(** *** Lines of plain text *)

(** A character that starts no markup inside a line. *)
Definition mild (c : N) : bool :=
  negb (is_line_terminator c) && negb (inb c (js "*`[")).

(** A character that starts no markup at the start of a line either: no
    white space, no digit, no hash and no hyphen. *)
Definition opener (c : N) : bool :=
  mild c && negb (is_space c) && negb (is_digit c) && negb (inb c (js "#-")).

Definition starts_open (l : jsstring) : bool :=
  match l with
  | [] => false
  | x :: _ => opener x
  end.

(** A line of plain text: not empty, no markup, single spaced. *)
Definition plain_line (l : jsstring) : bool :=
  starts_open l && forallb mild l && single_spaced l.

(** The lines with [sep] between them. *)
Fixpoint unlines (sep : jsstring) (ls : list jsstring) : jsstring :=
  match ls with
  | [] => []
  | l :: rest =>
      match rest with
      | [] => l
      | _ :: _ => l ++ sep ++ unlines sep rest
      end
  end.

(** Every [<] is followed by a character other than [l]. *)
Fixpoint no_item (s : jsstring) : bool :=
  match s with
  | [] => true
  | c :: rest =>
      (negb (N.eqb c (chr "<"))
       || match rest with
          | d :: _ => negb (N.eqb d (chr "l"))
          | [] => false
          end)
      && no_item rest
  end.

(** The stages that match at the start of a line or at a character of
    markup: the headings, bold, italics, inline code, code blocks, the
    bulleted and the numbered items, the links. *)
Definition line_stages : list (flags * regex * template) :=
  firstn 7 (skipn 3 stages) ++ firstn 1 (skipn 11 stages)
  ++ firstn 1 (skipn 13 stages) ++ firstn 1 (skipn 15 stages).

(** No match of the pattern starts in a text of lines that start with an
    opener and hold mild characters. *)
Definition line_inert (fl : flags) (r : regex) : Prop :=
  (forall x, opener x = true -> can_start fl r None (Some x) = false)
  /\ (forall x, opener x = true -> can_start fl r (Some 10%N) (Some x) = false)
  /\ (forall c x, is_line_terminator c = false -> mild x = true ->
                  can_start fl r (Some c) (Some x) = false)
  /\ (forall c, is_line_terminator c = false ->
                can_start fl r (Some c) (Some 10%N) = false)
  /\ (forall c, is_line_terminator c = false ->
                can_start fl r (Some c) None = false).

(** *** Backticks *)

Definition backtick : N := chr "`".

(** No two backticks in a row. *)
Fixpoint no_pair (s : jsstring) : bool :=
  match s with
  | [] => true
  | c :: rest =>
      negb (N.eqb c backtick
            && match rest with
               | d :: _ => N.eqb d backtick
               | [] => false
               end)
      && no_pair rest
  end.

(** How far the next backtick of the line is, if the line has one. *)
Fixpoint closing (s : jsstring) : option nat :=
  match s with
  | [] => None
  | d :: rest =>
      if N.eqb d backtick then Some 0
      else if is_line_terminator d then None
      else option_map S (closing rest)
  end.

(** The start of the tag that the stage of the code blocks writes. *)
Definition pre_word : jsstring := js "<pre".

(** *** Inline markup *)

Inductive inline : Type := Bold | Italic | Code.

Definition delimiter (k : inline) : jsstring :=
  match k with
  | Bold => js "**"
  | Italic => js "*"
  | Code => js "`"
  end.

Definition opening (k : inline) : jsstring :=
  match k with
  | Bold => js "<strong>"
  | Italic => js "<em>"
  | Code => js "<code>"
  end.

Definition closing_tag (k : inline) : jsstring :=
  match k with
  | Bold => js "</strong>"
  | Italic => js "</em>"
  | Code => js "</code>"
  end.

(** A delimiter, as few characters of the line as possible in group 1,
    the delimiter: the shape of the patterns of bold, italics and inline
    code. *)
Definition delimited (D : jsstring) : regex :=
  RSeqs [RLit D; RGroup 1 (RStar false CDot); RLit D].

(** A character of running text: no line terminator and none of the
    characters that a stage treats as markup. *)
Definition texty (c : N) : bool :=
  negb (is_line_terminator c) && negb (inb c (js "&<>*`[")).

(** No two [x] in a row. *)
Fixpoint no_double (x : N) (s : jsstring) : bool :=
  match s with
  | [] => true
  | c :: rest =>
      negb (N.eqb c x
            && match rest with
               | d :: _ => N.eqb d x
               | [] => false
               end)
      && no_double x rest
  end.

(** A pattern that matches at the start of a line only. *)
Definition anchored (fl : flags) (r : regex) : Prop :=
  (forall c y, is_line_terminator c = false ->
               can_start fl r (Some c) (Some y) = false)
  /\ (forall c, is_line_terminator c = false ->
                can_start fl r (Some c) None = false).

(** *** Headings *)

Inductive level : Type := H1 | H2 | H3.

Definition marker (l : level) : string :=
  match l with
  | H1 => "#"
  | H2 => "##"
  | H3 => "###"
  end.

Definition heading_open (l : level) : jsstring :=
  match l with
  | H1 => js "<h1>"
  | H2 => js "<h2>"
  | H3 => js "<h3>"
  end.

Definition heading_close (l : level) : jsstring :=
  match l with
  | H1 => js "</h1>"
  | H2 => js "</h2>"
  | H3 => js "</h3>"
  end.

(** *** A span in a line of text *)

(** A character of a label: mild, and not the closing bracket. *)
Definition label_char (c : N) : bool :=
  mild c && negb (N.eqb c (chr "]")).

(** A character of a URL: mild, no white space, and neither the closing
    parenthesis nor the double quote. *)
Definition url_char (c : N) : bool :=
  mild c && negb (is_space c) && negb (inb c (chr ")" :: dq)).

(** A mild character or the opening bracket. *)
Definition bland (c : N) : bool := mild c || N.eqb c (chr "[").

(** The stages from bold to the numbered items that match at the start
    of a line or at a character of markup. *)
Definition span_stages : list (flags * regex * template) :=
  firstn 4 (skipn 6 stages) ++ firstn 1 (skipn 11 stages)
  ++ firstn 1 (skipn 13 stages).

(** No match of the pattern starts in a line of bland characters that
    starts with an opener or with the opening bracket. *)
Definition span_inert (fl : flags) (r : regex) : Prop :=
  (forall x, opener x = true \/ x = chr "[" ->
             can_start fl r None (Some x) = false)
  /\ (forall c x, is_line_terminator c = false -> bland x = true ->
                  can_start fl r (Some c) (Some x) = false)
  /\ (forall c, is_line_terminator c = false ->
                can_start fl r (Some c) None = false).

End Further.

(** * Properties *)

Import Props.

(** ** Strings *)

Module StringFacts.

Lemma eqb_eq (a b : jsstring) : JSString.eqb a b = true <-> a = b.
Proof.
  unfold JSString.eqb. destruct (list_eq_dec N.eq_dec a b); split;
    intros; congruence.
Qed.

Lemma inb_In (c : N) (l : list N) : inb c l = true <-> In c l.
Proof.
  unfold inb. rewrite existsb_exists. split.
  - intros [x [Hin Heq]]. apply N.eqb_eq in Heq. subst. exact Hin.
  - intros Hin. exists c. split; [exact Hin | apply N.eqb_refl].
Qed.

Lemma starts_with_app (t s : jsstring) :
  starts_with t s = true <-> exists b, s = t ++ b.
Proof.
  revert s. induction t as [|x t IH]; intros s; simpl.
  - split; [intros _; exists s; reflexivity | reflexivity].
  - destruct s as [|y s].
    + split; [discriminate | intros [b Hb]; discriminate].
    + rewrite andb_true_iff, N.eqb_eq, IH. split.
      * intros [-> [b ->]]. exists b. reflexivity.
      * intros [b Hb]. injection Hb as -> ->. split; [reflexivity | eauto].
Qed.

Lemma includes_occurs (s w : jsstring) : includes s w = true <-> occurs w s.
Proof.
  unfold occurs. induction s as [|c s IH].
  - simpl. rewrite orb_false_r, starts_with_app. split.
    + intros [b Hb]. exists [], b. exact Hb.
    + intros [a [b Hb]]. destruct a; [exists b; exact Hb | discriminate].
  - simpl. rewrite orb_true_iff, starts_with_app, IH. split.
    + intros [[b Hb] | [a [b Hb]]].
      * exists [], b. exact Hb.
      * exists (c :: a), b. simpl. congruence.
    + intros [a [b Hb]]. destruct a as [|x a].
      * left. exists b. exact Hb.
      * right. injection Hb as _ Hb. exists a, b. exact Hb.
Qed.

Lemma not_occurs_includes (s w : jsstring) :
  ~ occurs w s -> includes s w = false.
Proof.
  intros H. destruct (includes s w) eqn:E; [|reflexivity].
  apply includes_occurs in E. contradiction.
Qed.

Lemma occurs_app_l (w x y : jsstring) : occurs w x -> occurs w (x ++ y).
Proof.
  intros [a [b ->]]. exists a, (b ++ y). now rewrite <- !app_assoc.
Qed.

Lemma occurs_app_r (w x y : jsstring) : occurs w y -> occurs w (x ++ y).
Proof.
  intros [a [b ->]]. exists (x ++ a), b. now rewrite <- !app_assoc.
Qed.

Lemma occurs_firstn (w : jsstring) n s : occurs w (firstn n s) -> occurs w s.
Proof.
  intros H. rewrite <- (firstn_skipn n s). now apply occurs_app_l.
Qed.

Lemma occurs_skipn (w : jsstring) n s : occurs w (skipn n s) -> occurs w s.
Proof.
  intros H. rewrite <- (firstn_skipn n s). now apply occurs_app_r.
Qed.

Lemma occurs_head (w s : jsstring) c :
  occurs w s -> In c w -> In c s.
Proof.
  intros [a [b ->]] Hin. apply in_or_app. right. apply in_or_app. now left.
Qed.

(** An occurrence of [w] in [x ++ y] lies in [x], lies in [y], or starts
    in [x] and ends in [y]; the last is excluded when [x] ends, or [y]
    starts, with a character that does not fit. *)
Lemma not_occurs_app (w x y : jsstring) :
  ~ occurs w x -> ~ occurs w y ->
  ends_clear w x \/ starts_clear w y ->
  ~ occurs w (x ++ y).
Proof.
  intros Hx Hy Hclear [a [b Heq]].
  apply app_eq_app in Heq. destruct Heq as [l [[-> Hl] | [-> ->]]].
  2:{ apply Hy. exists l, b. reflexivity. }
  apply app_eq_app in Hl. destruct Hl as [m [[-> ->] | [-> ->]]].
  2:{ apply Hx. exists a, m. reflexivity. }
  destruct m as [|d m].
  -
    rewrite app_nil_r in *. apply Hx. exists a, []. now rewrite app_nil_r.
  - destruct l as [|z l0].
    + apply Hy. exists [], b. reflexivity.
    + destruct (exists_last (l := z :: l0)) as [l' [c El]]; [discriminate|].
      rewrite El in *. destruct Hclear as [He | Hs].
      * apply (He (a ++ l') c); [now rewrite app_assoc|].
        rewrite <- app_assoc. simpl.
        clear. induction l' as [|y l' IH]; simpl.
        -- now left.
        -- destruct (l' ++ c :: d :: m) eqn:E.
           ++ destruct l'; discriminate.
           ++ right. exact IH.
      * apply (Hs d (m ++ b)); [reflexivity|].
        rewrite <- El. simpl. apply in_or_app. right. now left.
Qed.

Lemma trim_start_suffix A (code : A -> N) (s : list A) :
  exists n, trim_start code s = skipn n s.
Proof.
  induction s as [|c s [n IH]]; simpl.
  - exists 0. reflexivity.
  - destruct (is_space (code c)).
    + exists (S n). exact IH.
    + exists 0. reflexivity.
Qed.

(** [trim] keeps a stretch of its argument. *)
Lemma trim_gen_slice A (code : A -> N) (s : list A) :
  exists n m, trim_gen code s = firstn m (skipn n s).
Proof.
  unfold trim_gen, trim_end.
  destruct (trim_start_suffix code s) as [n Hn]. rewrite Hn.
  destruct (trim_start_suffix code (rev (skipn n s))) as [k Hk]. rewrite Hk.
  exists n, (List.length (skipn n s) - k).
  now rewrite skipn_rev, rev_involutive.
Qed.

Lemma trim_start_map A (code : A -> N) (s : list A) :
  map code (trim_start code s) = trim_start (fun c => c) (map code s).
Proof.
  induction s as [|c s IH]; simpl; [reflexivity|].
  destruct (is_space (code c)); [exact IH | reflexivity].
Qed.

Lemma trim_gen_map A (code : A -> N) (s : list A) :
  map code (trim_gen code s) = trim (map code s).
Proof.
  unfold trim, trim_gen, trim_end.
  now rewrite map_rev, trim_start_map, map_rev, trim_start_map.
Qed.

End StringFacts.

(** ** What [replace] does to a string, whatever the pattern *)

Module ReplaceFacts.
Import StringFacts.

Section Generic.
Variable A : Type.
Variable code : A -> N.
Variable lit : N -> A.
Variable fl : flags.
Variable r : regex.
Variable t : template.

(** The characters of the result are characters of the argument or of
    the literal pieces of the replacement. *)
Section Characters.
Variable Q : A -> Prop.
Hypothesis Q_lit : forall l, In (TLit l) t -> Forall Q (map lit l).

Lemma slice_Forall start len (s : list A) :
  Forall Q s -> Forall Q (slice start len s).
Proof.
  intros H. unfold slice.
  rewrite <- (firstn_skipn start s) in H.
  apply Forall_app in H. destruct H as [_ H].
  rewrite <- (firstn_skipn len (skipn start s)) in H.
  apply Forall_app in H. now destruct H.
Qed.

Lemma expand_Forall (s : list A) cs :
  Forall Q s -> Forall Q (expand lit t s cs).
Proof.
  intros Hs. revert Q_lit. generalize t as u.
  induction u as [|[l | n] u IH]; intros Hl; simpl.
  - constructor.
  - apply Forall_app. split.
    + apply Hl. now left.
    + apply IH. intros l' Hin. apply Hl. now right.
  - assert (Forall Q (expand lit u s cs)) as Hu.
    { apply IH. intros l' Hin. apply Hl. now right. }
    destruct (cap_lookup n cs) as [[start len]|]; [|exact Hu].
    apply Forall_app. split; [now apply slice_Forall | exact Hu].
Qed.

Lemma replace_from_Forall (rest : list A) :
  forall skip prev,
    Forall Q rest -> Forall Q (replace_from code lit fl r t skip prev rest).
Proof.
  induction rest as [|c rest IH]; intros skip prev Hrest.
  - destruct skip; simpl; [|constructor].
    destruct (exec fl r prev []) as [[len cs]|]; [|constructor].
    rewrite app_nil_r. now apply expand_Forall.
  - inversion Hrest as [|? ? Hc Hrest']; subst.
    destruct skip as [|k]; simpl; [|now apply IH].
    destruct (exec fl r prev (code c :: map code rest)) as [[len cs]|].
    + apply Forall_app. split; [now apply expand_Forall|].
      destruct len; [constructor; [exact Hc|] |]; now apply IH.
    + constructor; [exact Hc | now apply IH].
Qed.

Lemma replace_gen_Forall (s : list A) :
  Forall Q s -> Forall Q (replace_gen code lit fl r t s).
Proof. apply replace_from_Forall. Qed.
End Characters.

(** A pattern sees the code units only: the code units of the result are
    the result on the code units. *)
Section Erase.
Hypothesis code_lit : forall c, code (lit c) = c.

Lemma expand_map (s : list A) cs :
  map code (expand lit t s cs)
  = expand (fun c => c) t (map code s) cs.
Proof.
  generalize t as u. induction u as [|[l | n] u IH]; simpl.
  - reflexivity.
  - rewrite map_app, IH, map_map. f_equal.
    rewrite map_id. rewrite <- (map_id l) at 2.
    apply map_ext. intros; apply code_lit.
  - destruct (cap_lookup n cs) as [[start len]|]; [|exact IH].
    rewrite map_app, IH. unfold slice.
    now rewrite skipn_map, firstn_map.
Qed.

Lemma replace_from_map (rest : list A) :
  forall skip prev,
    map code (replace_from code lit fl r t skip prev rest)
    = replace_from (fun c => c) (fun c => c) fl r t skip prev
        (map code rest).
Proof.
  induction rest as [|c rest IH]; intros skip prev.
  - destruct skip; simpl; [|reflexivity].
    destruct (exec fl r prev []) as [[len cs]|]; [|reflexivity].
    rewrite !app_nil_r. apply (expand_map []).
  - destruct skip as [|k]; simpl; [|apply IH].
    rewrite map_id.
    destruct (exec fl r prev (code c :: map code rest)) as [[len cs]|].
    + rewrite map_app, (expand_map (c :: rest)). simpl. f_equal.
      destruct len; simpl; now rewrite IH.
    + simpl. now rewrite IH.
Qed.

Lemma replace_gen_map (s : list A) :
  map code (replace_gen code lit fl r t s) = replace fl r t (map code s).
Proof. apply replace_from_map. Qed.
End Erase.
End Generic.

(** A pattern of one character: every occurrence is replaced. *)
Lemma replace_char A (code : A -> N) (lit : N -> A) fl (c : N) (l : jsstring)
      (s : list A) :
  replace_gen code lit fl (RChar c) [TLit l] s
  = flat_map (fun x => if N.eqb (code x) c then map lit l else [x]) s.
Proof.
  unfold replace_gen. generalize (@None N) as prev.
  induction s as [|x s IH]; intros prev; simpl.
  - reflexivity.
  - unfold exec. simpl. destruct (N.eqb (code x) c); simpl.
    + now rewrite app_nil_r, IH.
    + now rewrite IH.
Qed.

(** No new occurrence of a word [w]: when the replacement pattern keeps
    [w] out, a string without [w] is replaced into a string without [w]. *)
Section Avoid.
Variable w : jsstring.
Variable fl : flags.
Variable r : regex.

Lemma guardb_spec (l : jsstring) :
  guardb w l = true ->
  l <> [] /\ ~ occurs w l /\ starts_clear w l /\
  (forall x, ends_clear w (x ++ l)).
Proof.
  unfold guardb. destruct l as [|c l]; [discriminate|].
  rewrite !andb_true_iff, !negb_true_iff. intros [[Hs He] Ho].
  split; [discriminate|]. split; [|split].
  - intros H. apply includes_occurs in H. congruence.
  - intros c' y' [= <- <-] Hin. apply inb_In in Hin. congruence.
  - intros x x' d Heq Hin.
    assert (d = last (c :: l) 0%N) as ->.
    { destruct (exists_last (l := c :: l)) as [l' [e El]]; [discriminate|].
      rewrite El in *. rewrite app_assoc in Heq.
      apply app_inj_tail in Heq. destruct Heq as [_ Heq].
      now rewrite last_last. }
    apply inb_In in Hin. congruence.
Qed.

Lemma not_occurs_nil (x : jsstring) : ~ occurs w x -> ~ occurs w [].
Proof.
  intros Hx [a [b H]]. symmetry in H.
  apply app_eq_nil in H. destruct H as [-> H].
  apply app_eq_nil in H. destruct H as [E ->].
  apply Hx. exists [], x. rewrite E. reflexivity.
Qed.

Lemma expand_avoid (s y : jsstring) cs (t : template) :
  (forall start len, ~ occurs w (slice start len s)) ->
  ~ occurs w y ->
  forall after acc,
    tmpl_ok w after t = true ->
    ~ occurs w acc ->
    (after = true -> ends_clear w acc) ->
    ~ occurs w (acc ++ expand (fun c => c) t s cs ++ y).
Proof.
  intros Hslice Hy. induction t as [|[l | n] u IH]; intros after acc Hok Hacc Hend.
  - simpl in *. apply not_occurs_app; auto.
  - simpl in *. apply andb_true_iff in Hok. destruct Hok as [Hg Hok].
    apply guardb_spec in Hg. destruct Hg as [_ [Hl [Hstart Hends]]].
    rewrite map_id, <- app_assoc, app_assoc.
    apply (IH true); [exact Hok | | intros _; apply Hends].
    apply not_occurs_app; auto.
  - simpl in *. apply andb_true_iff in Hok. destruct Hok as [-> Hok].
    destruct (cap_lookup n cs) as [[start len]|].
    + rewrite <- app_assoc, app_assoc.
      apply (IH false); [exact Hok | | discriminate].
      apply not_occurs_app; auto.
    + apply (IH false); [exact Hok | exact Hacc | discriminate].
Qed.

Lemma replace_from_avoid (t : template) :
  tmpl_ok w false t = true ->
  forall rest skip prev acc,
    ~ occurs w (acc ++ skipn skip rest) ->
    ~ occurs w
      (acc ++ replace_from (fun c => c) (fun c => c) fl r t skip prev rest).
Proof.
  intros Hok. induction rest as [|c rest IH]; intros skip prev acc Hacc.
  - assert (~ occurs w acc) as Ha.
    { intros H. apply Hacc. now apply occurs_app_l. }
    destruct skip; simpl; [|now rewrite app_nil_r].
    destruct (exec fl r prev []) as [[len cs]|]; [|now rewrite app_nil_r].
    apply expand_avoid with (after := false); auto.
    + intros start len'. unfold slice. rewrite skipn_nil, firstn_nil.
      now apply not_occurs_nil with acc.
    + now apply not_occurs_nil with acc.
    + discriminate.
  - destruct skip as [|k]; [|simpl in *; now apply IH].
    simpl skipn in Hacc.
    assert (~ occurs w acc) as Ha.
    { intros H. apply Hacc. now apply occurs_app_l. }
    assert (forall n, ~ occurs w (skipn n (c :: rest))) as Hsk.
    { intros n H. apply Hacc. apply occurs_app_r. now apply occurs_skipn in H. }
    assert (forall start len, ~ occurs w (slice start len (c :: rest))) as Hsl.
    { intros start len H. unfold slice in H.
      apply occurs_firstn in H. now apply Hsk in H. }
    simpl. rewrite map_id.
    destruct (exec fl r prev (c :: rest)) as [[len cs]|].
    + destruct len as [|k].
      * replace (acc ++ expand (fun c => c) t (c :: rest) cs
                     ++ c :: replace_from _ _ fl r t 0 (Some c) rest)
          with ((acc ++ expand (fun c => c) t (c :: rest) cs ++ [c])
                  ++ replace_from (fun c => c) (fun c => c) fl r t 0 (Some c) rest)
          by (now rewrite <- !app_assoc).
        apply IH. simpl skipn. rewrite <- !app_assoc. simpl.
        apply expand_avoid with (after := false); auto.
        -- apply (Hsk 0).
        -- discriminate.
      * rewrite app_assoc. apply IH. rewrite <- app_assoc.
        apply expand_avoid with (after := false); auto.
        -- apply (Hsk (S k)).
        -- discriminate.
    + replace (acc ++ c :: replace_from _ _ fl r t 0 (Some c) rest)
        with ((acc ++ [c])
                ++ replace_from (fun c => c) (fun c => c) fl r t 0 (Some c) rest)
        by (now rewrite <- app_assoc).
      apply IH. simpl skipn. now rewrite <- app_assoc.
Qed.

Lemma replace_avoid (t : template) (s : jsstring) :
  tmpl_ok w false t = true ->
  ~ occurs w s -> ~ occurs w (replace fl r t s).
Proof.
  intros Hok Hs. apply (@replace_from_avoid t Hok s 0 None []). exact Hs.
Qed.
End Avoid.

End ReplaceFacts.

(** ** The formatter *)

Module FormatterFacts.
Import StringFacts ReplaceFacts Chat.

Lemma run_stage_plain (s : jsstring) fl r t :
  run_stage (fun c => c) (fun c => c) s (fl, r, t) = replace fl r t s.
Proof. reflexivity. Qed.

(** An invariant of every stage of a list is an invariant of the list. *)
Lemma fold_stages_invariant A (code : A -> N) (lit : N -> A)
      (P : list A -> Prop) (l : list (flags * regex * template)) :
  (forall st s, In st l -> P s -> P (run_stage code lit s st)) ->
  forall s, P s -> P (fold_left (run_stage code lit) l s).
Proof.
  induction l as [|st l IH]; intros Hstep s Hs; simpl.
  - exact Hs.
  - apply IH.
    + intros st' s' Hin. apply Hstep. now right.
    + apply Hstep; [now left | exact Hs].
Qed.

(** The code units of the traced run are the plain run. *)
Lemma fold_stages_map A (code : A -> N) (lit : N -> A)
      (l : list (flags * regex * template)) :
  (forall c, code (lit c) = c) ->
  forall s,
    map code (fold_left (run_stage code lit) l s)
    = fold_left (run_stage (fun c => c) (fun c => c)) l (map code s).
Proof.
  intros Hcl. induction l as [|[[fl r] t] l IH]; intros s; simpl.
  - reflexivity.
  - rewrite IH. f_equal. now apply replace_gen_map.
Qed.

Lemma format_gen_map A (code : A -> N) (lit : N -> A) (s : list A) :
  (forall c, code (lit c) = c) ->
  map code (format_gen code lit s) = format (map code s).
Proof.
  intros Hcl. unfold format, format_gen. destruct s as [|c s]; [reflexivity|].
  simpl map at 2. cbv iota.
  rewrite trim_gen_map. unfold trim. f_equal.
  now rewrite fold_stages_map.
Qed.

Lemma format_traced_erase (text : jsstring) :
  map tcode (format_traced text) = format text.
Proof.
  unfold format_traced. rewrite format_gen_map by reflexivity.
  f_equal. rewrite map_map. simpl. apply map_id.
Qed.

(** *** The escapes come first *)

(** After the second stage no [<] is left. *)
Lemma escape_lt_removes (s : jsstring) :
  ~ In (chr "<") (replace flags_g re_lt [TLit (js "&lt;")] s).
Proof.
  unfold replace, re_lt. rewrite replace_char.
  intros H. apply in_flat_map in H. destruct H as [x [_ Hx]].
  cbv beta in Hx. destruct (N.eqb x (chr "<")) eqn:E.
  - vm_compute in Hx. intuition discriminate.
  - destruct Hx as [Hx | []]. rewrite Hx, N.eqb_refl in E. discriminate.
Qed.

(** Every later replacement pattern keeps [<script] out. *)
Lemma later_templates_ok :
  forallb (fun st => tmpl_ok lt_word false (stage_template st))
          (skipn 2 stages) = true.
Proof. vm_compute. reflexivity. Qed.

Lemma format_no_script (text : jsstring) : ~ occurs lt_word (format text).
Proof.
  unfold format, format_gen. destruct text as [|c text].
  - intros H. apply includes_occurs in H. discriminate.
  - destruct (trim_gen_slice (fun c : N => c)
                (fold_left (run_stage (fun c => c) (fun c => c)) stages
                           (c :: text))) as [n [m ->]].
    intros H. apply occurs_firstn, occurs_skipn in H. revert H.
    change stages with (firstn 2 stages ++ skipn 2 stages).
    rewrite fold_left_app.
    apply fold_stages_invariant.
    + intros [[fl r] t] s Hin Hs. rewrite run_stage_plain.
      apply replace_avoid; [|exact Hs].
      pose proof later_templates_ok as Hall.
      rewrite forallb_forall in Hall. apply (Hall _ Hin).
    + change (firstn 2 stages)
        with [ (flags_g, re_amp, [TLit (js "&amp;")]);
               (flags_g, re_lt, [TLit (js "&lt;")]) ].
      cbn [fold_left]. rewrite !run_stage_plain. intros H.
      apply (@escape_lt_removes (replace flags_g re_amp [TLit (js "&amp;")] (c :: text))).
      apply (occurs_head (chr "<") H). now left.
Qed.

(** *** No metacharacter of the input survives *)

Lemma escape_stage (m : list N) fl (c : N) (l : jsstring) (s : list tchar) :
  Forall (copied_without m) s ->
  Forall (copied_without (c :: m))
         (replace_gen tcode from_pattern fl (RChar c) [TLit l] s).
Proof.
  intros Hs. rewrite replace_char. apply Forall_flat_map.
  rewrite Forall_forall in *. intros x Hx.
  destruct (N.eqb (tcode x) c) eqn:E.
  - apply Forall_forall. intros y Hy. apply in_map_iff in Hy.
    destruct Hy as [z [<- _]]. intros Ho. discriminate.
  - constructor; [|constructor]. intros Ho [Hc | Hm].
    + subst. now rewrite N.eqb_refl in E.
    + now apply (Hs x Hx Ho).
Qed.

Lemma later_stage (m : list N) (st : flags * regex * template) (s : list tchar) :
  Forall (copied_without m) s ->
  Forall (copied_without m) (run_stage tcode from_pattern s st).
Proof.
  destruct st as [[fl r] t]. intros Hs. simpl.
  apply replace_gen_Forall; [|exact Hs].
  intros l _. apply Forall_forall. intros y Hy. apply in_map_iff in Hy.
  destruct Hy as [z [<- _]]. intros Ho. discriminate.
Qed.

Lemma format_traced_no_raw (text : jsstring) :
  Forall (fun x => ~ raw x) (format_traced text).
Proof.
  assert (Forall (copied_without [chr ">"; chr "<"; chr "&"])
                 (format_traced text)) as H.
  { unfold format_traced, format_gen.
    generalize (map from_input text) as u. intros [|c u]; [constructor|].
    destruct (trim_gen_slice tcode
                (fold_left (run_stage tcode from_pattern) stages
                           (c :: u))) as [n [k ->]].
    apply (slice_Forall (Q := copied_without [chr ">"; chr "<"; chr "&"]) n k).
    change stages with (firstn 3 stages ++ skipn 3 stages).
    rewrite fold_left_app.
    apply fold_stages_invariant.
    - intros st s _. apply later_stage.
    - change (firstn 3 stages)
        with [ (flags_g, re_amp, [TLit (js "&amp;")]);
               (flags_g, re_lt, [TLit (js "&lt;")]);
               (flags_g, re_gt, [TLit (js "&gt;")]) ].
      cbn [fold_left run_stage]. unfold re_gt, re_lt, re_amp.
      do 3 apply escape_stage.
      apply Forall_forall. intros x _ _ []. }
  rewrite Forall_forall in *. intros x Hx [Ho Hm].
  apply (H x Hx Ho). unfold is_meta in Hm. apply inb_In in Hm.
  simpl in *. intuition.
Qed.

(** C1.  For every string, [formatMessageText] returns (it is a total
    function and the call does not throw); its result has no occurrence of
    [<script]; and no [&], [<] or [>] of the result is a character copied
    from the input: the three escapes run first and replace them all, and
    every later stage only copies characters or writes its own pattern. *)
Theorem format_escapes_input (text : jsstring) :
  formatMessageText (VStr text) = Ok (format text)
  /\ includes (format text) (js "<script") = false
  /\ map tcode (format_traced text) = format text
  /\ Forall (fun x => ~ raw x) (format_traced text).
Proof.
  split; [|split; [|split]].
  - destruct text; reflexivity.
  - apply not_occurs_includes, format_no_script.
  - apply format_traced_erase.
  - apply format_traced_no_raw.
Qed.

End FormatterFacts.

(** ** The submit handler *)

Module ChatFacts.
Import StringFacts Chat.

Local Open Scope string_scope.
Local Open Scope list_scope.
Local Arguments format : simpl never.
Local Arguments trim : simpl never.
Local Arguments JSON.stringify : simpl never.

Lemma formatMessageText_string (c : N) (s : jsstring) :
  formatMessageText (VStr (c :: s)) = Ok (format (c :: s)).
Proof. reflexivity. Qed.

Lemma nth_error_set_nth (l : list element) :
  forall i e e0, nth_error l i = Some e0 -> nth_error (set_nth i e l) i = Some e.
Proof.
  induction l as [|x l IH]; intros [|i] e e0 H; simpl in *;
    try discriminate; [reflexivity | eauto].
Qed.

Lemma set_nth_app_r (l : list element) (e e0 : element) :
  set_nth (List.length l) e (l ++ [e0]) = l ++ [e].
Proof. induction l as [|x l IH]; simpl; [reflexivity | now rewrite IH]. Qed.

Lemma nth_error_app_last (l : list element) (e : element) :
  nth_error (l ++ [e]) (List.length l) = Some e.
Proof. induction l as [|x l IH]; simpl; [reflexivity | exact IH]. Qed.

(** [replaceTemporaryMessage] on a pending element. *)
Lemma replace_pending (p : page) (el : nat) (e0 : element) (v : value)
      (html : jsstring) :
  pending_at p el e0 ->
  formatMessageText v = Ok html ->
  replaceTemporaryMessage el v p = (Ok tt, replaced_page el e0 html p).
Proof.
  intros [Hnth Htmp] Hfmt.
  unfold replaceTemporaryMessage, bind, read, lift, update.
  rewrite Hnth, Htmp, Hfmt. reflexivity.
Qed.

Lemma replace_pending_throws (p : page) (el : nat) (e0 : element) (v : value)
      (e : exn) :
  pending_at p el e0 ->
  formatMessageText v = Throw e ->
  replaceTemporaryMessage el v p = (Throw e, p).
Proof.
  intros [Hnth Htmp] Hfmt.
  unfold replaceTemporaryMessage, bind, read, lift, update.
  rewrite Hnth, Htmp, Hfmt. reflexivity.
Qed.

(** *** Submission *)

Lemma submit_nonempty (p : page) (c : N) (u : jsstring) :
  trim (inputValue p) = c :: u ->
  submit p = (Ok (Some (S (List.length (chatBox p)))),
              submitted_page (c :: u) p).
Proof.
  intros H. unfold submit, bind at 1, read at 1. rewrite H.
  unfold submitted_page. cbn. rewrite length_app, Nat.add_1_r. reflexivity.
Qed.

Lemma submit_empty (p : page) :
  trim (inputValue p) = [] -> submit p = (Ok None, p).
Proof.
  intros H. unfold submit, bind, read. rewrite H. reflexivity.
Qed.

(** *** The three blocks of the handler *)

Lemma logged_logged (l1 l2 : list (jsstring * exn)) (p : page) :
  logged l2 (logged l1 p) = logged (l1 ++ l2) p.
Proof. unfold logged. simpl. now rewrite app_assoc. Qed.

Lemma logged_nil (p : page) : logged [] p = p.
Proof. destruct p. unfold logged. simpl. now rewrite app_nil_r. Qed.

Lemma pending_at_logged (p : page) el e0 log :
  pending_at p el e0 -> pending_at (logged log p) el e0.
Proof. intros H. exact H. Qed.

Lemma catch_block_spec (p : page) (el : nat) (e0 : element) (e : exn) :
  pending_at p el e0 ->
  catch_block el e p
  = (Ok tt, replaced_page el e0 (format failed_text)
              (logged [(js "Error sending message to API:", e)] p)).
Proof.
  intros H. unfold catch_block, bind, console_error, update.
  apply (replace_pending (p := logged _ p)); [exact H | reflexivity].
Qed.

Lemma finally_block_spec (p : page) :
  finally_block p
  = (Ok tt, {| chatBox := chatBox p; scrolledToEnd := scrolledToEnd p;
               inputValue := inputValue p; inputDisabled := false;
               inputFocused := true; buttonDisabled := false;
               console := console p; fetched := fetched p |}).
Proof. reflexivity. Qed.

(** The handler when the [try] block throws: the [catch] block shows the
    fixed text and logs the error. *)
Lemma resume_caught (p : page) el e0 o e log :
  pending_at p el e0 ->
  try_block el o p = (Throw e, logged log p) ->
  resume el o p
  = (Ok tt, settled_page el e0 (format failed_text)
              (log ++ [(js "Error sending message to API:", e)]) p).
Proof.
  intros H Htry. unfold resume, try_finally, try_catch. rewrite Htry.
  rewrite (catch_block_spec e (pending_at_logged log H)).
  rewrite finally_block_spec. unfold settled_page. simpl.
  now rewrite app_assoc.
Qed.

(** The handler when the [try] block replaces the placeholder. *)
Lemma resume_replaced (p : page) el e0 o html :
  try_block el o p = (Ok tt, replaced_page el e0 html p) ->
  resume el o p = (Ok tt, settled_page el e0 html [] p).
Proof.
  intros Htry. unfold resume, try_finally, try_catch. rewrite Htry.
  rewrite finally_block_spec. unfold settled_page. simpl.
  now rewrite app_nil_r.
Qed.

(** *** The [try] block, case by case *)

Lemma get_opt_ok (v : value) (name : jsstring) :
  exists m, get_opt v name = Ok m.
Proof. destruct v; simpl; eauto. Qed.

Lemma error_message_spec (r : response) (p : page) :
  exists log msg, error_message r p = (Ok msg, logged log p).
Proof.
  unfold error_message, try_catch, bind, read_json, console_error, update,
    lift, ret, throw.
  destruct (json r) as [data|].
  - destruct (get data (js "error")) as [error|e] eqn:Eerr.
    + destruct (get_opt_ok error (js "message")) as [m1 ->].
      destruct (truthy m1).
      * exists [], m1. now rewrite logged_nil.
      * destruct (get data (js "message")) as [m2|e] eqn:Emsg.
        -- eexists [], _. now rewrite logged_nil.
        -- destruct data; simpl in Eerr, Emsg; discriminate.
    + eexists [_], _. reflexivity.
  - eexists [_], _. reflexivity.
Qed.

Lemma try_rejected (p : page) el detail :
  try_block el (Rejected detail) p = (Throw (NetworkError detail), logged [] p).
Proof. now rewrite logged_nil. Qed.

Lemma try_not_ok (p : page) el (r : response) :
  ok r = false ->
  exists log msg,
    try_block el (Responded r) p = (Throw (ErrorOf msg), logged log p).
Proof.
  intros Hok. destruct (error_message_spec r p) as [log [msg Hmsg]].
  exists log, msg. unfold try_block, bind, ret, throw. rewrite Hok. simpl.
  now rewrite Hmsg.
Qed.

Lemma try_not_json (p : page) el (r : response) :
  ok r = true -> json r = None ->
  exists e, try_block el (Responded r) p = (Throw e, logged [] p).
Proof.
  intros Hok Hjson. eexists.
  unfold try_block, bind, ret, throw, read_json. rewrite Hok, Hjson. simpl.
  now rewrite logged_nil.
Qed.

(** A body without the field [result], or with a falsy one, leads to the
    second branch of the conditional. *)
Lemma try_no_result (p : page) el (r : response) (data : value) :
  ok r = true -> json r = Some data ->
  (truthy data = true ->
   exists v, get data (js "result") = Ok v /\ truthy v = false) ->
  try_block el (Responded r) p = replaceTemporaryMessage el (VStr sorry_text) p.
Proof.
  intros Hok Hjson Hres.
  unfold try_block, bind, ret, throw, read_json, lift. rewrite Hok, Hjson.
  simpl. destruct (truthy data) eqn:Ht.
  - destruct (Hres eq_refl) as [v [-> Hv]]. now rewrite Hv.
  - now rewrite Ht.
Qed.

Lemma try_result (p : page) el (r : response) (data v : value) :
  ok r = true -> json r = Some data ->
  truthy data = true -> get data (js "result") = Ok v -> truthy v = true ->
  try_block el (Responded r) p = replaceTemporaryMessage el v p.
Proof.
  intros Hok Hjson Ht Hget Hv.
  unfold try_block, bind, ret, throw, read_json, lift. rewrite Hok, Hjson.
  simpl. now rewrite Ht, Hget, Hv.
Qed.

Lemma get_truthy (data : value) (name : jsstring) :
  truthy data = true -> exists v, get data name = Ok v.
Proof. destruct data; simpl; try discriminate; eauto. Qed.

Lemma formatMessageText_cases (v : value) :
  (exists html, formatMessageText v = Ok html)
  \/ (exists e, formatMessageText v = Throw e).
Proof. destruct (formatMessageText v); eauto. Qed.

(** Whatever the outcome, the handler ends with the placeholder replaced
    and the controls enabled. *)
Lemma resume_settles (p : page) el e0 (o : settled) :
  pending_at p el e0 ->
  exists html log, resume el o p = (Ok tt, settled_page el e0 html log p).
Proof.
  intros H.
  assert (forall v,
             try_block el o p = replaceTemporaryMessage el v p ->
             exists html log,
               resume el o p = (Ok tt, settled_page el e0 html log p)) as Hrep.
  { intros v Htry. destruct (formatMessageText_cases v) as [[html Hf] | [e Hf]].
    - exists html, []. apply resume_replaced.
      rewrite Htry. now apply replace_pending.
    - exists (format failed_text), ([] ++ [(js "Error sending message to API:", e)]).
      apply resume_caught; [exact H|].
      rewrite Htry, logged_nil. now apply replace_pending_throws with e0. }
  destruct o as [detail | r].
  - eexists _, _. apply resume_caught; [exact H | apply try_rejected].
  - destruct (ok r) eqn:Hok.
    + destruct (json r) as [data|] eqn:Hjson.
      * destruct (truthy data) eqn:Ht.
        -- destruct (@get_truthy data (js "result") Ht) as [v Hget].
           destruct (truthy v) eqn:Hv.
           ++ apply (Hrep v). now apply try_result with data.
           ++ apply (Hrep (VStr sorry_text)). apply try_no_result with data; eauto.
        -- apply (Hrep (VStr sorry_text)). apply try_no_result with data; auto.
           congruence.
      * destruct (@try_not_json p el r Hok Hjson) as [e He].
        eexists _, _. apply resume_caught; [exact H | exact He].
    + destruct (@try_not_ok p el r Hok) as [log [msg Hm]].
      eexists _, _. apply resume_caught; [exact H | exact Hm].
Qed.

Lemma has_field_own_property (props : list (jsstring * value)) (name : jsstring) :
  has_field (VObj props) name = false -> own_property props name = VUndefined.
Proof.
  simpl. induction props as [|[k v] props IH]; simpl; [reflexivity|].
  destruct (JSString.eqb k name); simpl; [discriminate | exact IH].
Qed.

Lemma no_field_no_result (data : value) :
  has_field data (js "result") = false ->
  truthy data = true ->
  exists v, get data (js "result") = Ok v /\ truthy v = false.
Proof.
  intros Hf Ht. exists VUndefined. split; [|reflexivity].
  destruct data; simpl in Ht; try discriminate; try reflexivity.
  simpl. now rewrite has_field_own_property.
Qed.

Lemma format_failed_text :
  format failed_text = js "<p>Failed to get response from server.</p>".
Proof. vm_compute. reflexivity. Qed.

Lemma format_sorry_text :
  format sorry_text = js "<p>Sorry, no response received.</p>".
Proof. vm_compute. reflexivity. Qed.

(** *** The entry after the handler *)

Lemma length_set_nth (l : list element) :
  forall i e, List.length (set_nth i e l) = List.length l.
Proof.
  induction l as [|x l IH]; intros [|i] e; simpl; auto.
Qed.

Lemma nth_error_set_nth_other (l : list element) :
  forall i j e, i <> j -> nth_error (set_nth i e l) j = nth_error l j.
Proof.
  induction l as [|x l IH]; intros [|i] [|j] e Hij; simpl; auto;
    try congruence.
Qed.

(** What [replaceTemporaryMessage] makes of an element: the markup is its
    content and the flag is gone. *)
Lemma shown_replaced (e0 : element) (html : jsstring) :
  shown (replaced e0 html) = InnerHTML html.
Proof. reflexivity. Qed.

Lemma temporary_replaced (e0 : element) (html : jsstring) :
  temporary (replaced e0 html) = None.
Proof. reflexivity. Qed.

(** The log of a page that a handler has settled: the entry of the
    handler holds the markup, every other entry is as it was. *)
Lemma settled_log (p : page) (el : nat) (e0 : element) (html : jsstring)
      (log : list (jsstring * exn)) :
  pending_at p el e0 ->
  exists e',
    nth_error (chatBox (settled_page el e0 html log p)) el = Some e'
    /\ shown e' = InnerHTML html
    /\ temporary e' = None
    /\ (forall i, i <> el ->
                  nth_error (chatBox (settled_page el e0 html log p)) i
                  = nth_error (chatBox p) i).
Proof.
  intros [Hnth _]. exists (replaced e0 html). unfold settled_page.
  cbn [chatBox]. split; [now apply nth_error_set_nth with e0|].
  split; [apply shown_replaced|]. split; [apply temporary_replaced|].
  intros i Hi. apply nth_error_set_nth_other. congruence.
Qed.

(** *** The claims about one exchange *)

(** C7.  When the trimmed value of the input field is empty, the handler
    returns at once: the page is unchanged (no message appended, no request
    sent, the field and the button as they were) and no handler is left
    waiting. *)
Theorem empty_submission_is_ignored (p : page) :
  trim (inputValue p) = [] ->
  submit p = (Ok None, p).
Proof. apply submit_empty. Qed.

Lemma empty_submission_is_ignored_witness :
  trim (inputValue (set_inputValue (js "   ") initial)) = []
  /\ submit (set_inputValue (js "   ") initial)
     = (Ok None, set_inputValue (js "   ") initial).
Proof.
  split; [vm_compute; reflexivity|].
  apply empty_submission_is_ignored. vm_compute. reflexivity.
Defined.

(** C8.  A submission whose trimmed text [c :: u] is not empty makes one
    call of [fetch]: a POST to [/api/chat] with the header
    [Content-Type: application/json], whose body is [JSON.stringify] of an
    object with the single field [messages], an array of one object with
    [role] = [user] and [content] = the trimmed text.  Nothing of the
    earlier conversation is in it. *)
Theorem submission_sends_latest_message (p : page) (c : N) (u : jsstring) :
  trim (inputValue p) = c :: u ->
  exists el p',
    submit p = (Ok (Some el), p')
    /\ fetched p'
       = fetched p ++
         [ {| url := js "/api/chat";
              method := js "POST";
              headers := [(js "Content-Type", js "application/json")];
              body :=
                JSON.stringify
                  (JSON.DObj
                     [(js "messages",
                       JSON.DArr
                         [JSON.DObj [(js "role", JSON.DStr (js "user"));
                                     (js "content", JSON.DStr (c :: u))]])]) |} ]
    /\ JSON.stringify
         (JSON.DObj
            [(js "messages",
              JSON.DArr
                [JSON.DObj [(js "role", JSON.DStr (js "user"));
                            (js "content", JSON.DStr (c :: u))]])])
       = js "{" ++ JSON.quote (js "messages") ++ js ":[{"
         ++ JSON.quote (js "role") ++ js ":" ++ JSON.quote (js "user") ++ js ","
         ++ JSON.quote (js "content") ++ js ":" ++ JSON.quote (c :: u)
         ++ js "}]}".
Proof.
  intros H. eexists _, _. split; [apply (submit_nonempty p H)|].
  split; [reflexivity|].
  unfold JSON.stringify, JSON.quote, dq. cbn -[JSON.quote_units].
  repeat (rewrite <- app_assoc || rewrite <- app_comm_cons). reflexivity.
Qed.

Lemma submission_sends_latest_message_witness :
  trim (inputValue (set_inputValue (js " hello ") initial)) = js "hello"
  /\ exists el p',
       submit (set_inputValue (js " hello ") initial) = (Ok (Some el), p')
       /\ map body (fetched p')
          = [js "{" ++ dq ++ js "messages" ++ dq ++ js ":[{" ++ dq ++ js "role"
             ++ dq ++ js ":" ++ dq ++ js "user" ++ dq ++ js "," ++ dq
             ++ js "content" ++ dq ++ js ":" ++ dq ++ js "hello" ++ dq
             ++ js "}]}"].
Proof.
  split; [vm_compute; reflexivity|].
  destruct (@submission_sends_latest_message
              (set_inputValue (js " hello ") initial) 104%N (js "ello"))
    as [el [p' [Hs [Hf _]]]].
  - vm_compute. reflexivity.
  - exists el, p'. split; [exact Hs|]. rewrite Hf. vm_compute. reflexivity.
Defined.

(** C4.  After a transport failure (the call rejected, a status that is
    not 2xx whatever its body, or a body that is not JSON) the pending
    entry of the log holds, as its markup, the formatter's rendering of the
    fixed text, a paragraph holding exactly
    [Failed to get response from server.], and is no longer pending; every
    other entry of the log is as it was; the error [e] that carries the
    underlying message is the last entry of the console and appears nowhere
    else. *)
Theorem transport_failure_shows_fixed_text
        (p : page) (el : nat) (e0 : element) (o : settled) :
  pending_at p el e0 ->
  transport_failure o ->
  exists log e p' e',
    resume el o p = (Ok tt, p')
    /\ p' = settled_page el e0 (format failed_text)
                         (log ++ [(js "Error sending message to API:", e)]) p
    /\ format failed_text = js "<p>Failed to get response from server.</p>"
    /\ nth_error (chatBox p') el = Some e'
    /\ shown e' = InnerHTML (js "<p>Failed to get response from server.</p>")
    /\ temporary e' = None
    /\ (forall i, i <> el -> nth_error (chatBox p') i = nth_error (chatBox p) i)
    /\ console p'
       = console p ++ log ++ [(js "Error sending message to API:", e)]
    /\ (forall detail, o = Rejected detail -> e = NetworkError detail).
Proof.
  intros H Hfail.
  assert (exists log e,
             try_block el o p = (Throw e, logged log p)
             /\ (forall detail, o = Rejected detail -> e = NetworkError detail))
    as [log [e [Htry He]]].
  { destruct o as [detail | r].
    - exists [], (NetworkError detail). split; [apply try_rejected|].
      now intros d [= ->].
    - destruct (ok r) eqn:Hok.
      + destruct Hfail as [Hf | Hjson]; [congruence|].
        destruct (@try_not_json p el r Hok Hjson) as [e He].
        exists [], e. split; [exact He | discriminate].
      + destruct (@try_not_ok p el r Hok) as [log [msg Hm]].
        exists log, (ErrorOf msg). split; [exact Hm | discriminate]. }
  destruct (@settled_log p el e0 (format failed_text)
              (log ++ [(js "Error sending message to API:", e)]) H)
    as [e' [Hnth [Hshown [Htmp Hothers]]]].
  exists log, e,
    (settled_page el e0 (format failed_text)
                  (log ++ [(js "Error sending message to API:", e)]) p), e'.
  split; [apply resume_caught; eassumption|].
  split; [reflexivity|]. split; [apply format_failed_text|].
  split; [exact Hnth|]. split; [now rewrite Hshown, format_failed_text|].
  split; [exact Htmp|]. split; [exact Hothers|].
  split; [reflexivity | exact He].
Qed.

Lemma transport_failure_shows_fixed_text_witness :
  exists log e p' e',
    resume 1
      (Responded
         {| status := 500;
            json := Some (VObj [(js "message", VStr (js "<b>boom</b>"))]) |})
      (submitted_page (js "hello") initial)
    = (Ok tt, p')
    /\ p' = settled_page 1 thinking_element (format failed_text)
                         (log ++ [(js "Error sending message to API:", e)])
                         (submitted_page (js "hello") initial)
    /\ format failed_text = js "<p>Failed to get response from server.</p>"
    /\ nth_error (chatBox p') 1 = Some e'
    /\ shown e' = InnerHTML (js "<p>Failed to get response from server.</p>")
    /\ temporary e' = None
    /\ (forall i, i <> 1 ->
                  nth_error (chatBox p') i
                  = nth_error (chatBox (submitted_page (js "hello") initial)) i)
    /\ console p'
       = console (submitted_page (js "hello") initial) ++ log
         ++ [(js "Error sending message to API:", e)]
    /\ (forall detail,
          Responded
            {| status := 500;
               json := Some (VObj [(js "message", VStr (js "<b>boom</b>"))]) |}
          = Rejected detail -> e = NetworkError detail).
Proof.
  apply transport_failure_shows_fixed_text.
  - split; reflexivity.
  - left. reflexivity.
Defined.

(** C5.  When the status is 2xx and the JSON body has no field [result],
    the pending entry of the log holds, as its markup, the formatter's
    rendering of the fixed text, a paragraph holding exactly
    [Sorry, no response received.], and is no longer pending; nothing is
    logged; and whatever the outcome [o'] of the call, the handler ends
    with the field and the button enabled and the focus on the field. *)
Theorem missing_result_and_cleanup
        (p : page) (el : nat) (e0 : element) (r : response) (data : value) :
  pending_at p el e0 ->
  ok r = true ->
  json r = Some data ->
  has_field data (js "result") = false ->
  (exists p' e',
      resume el (Responded r) p = (Ok tt, p')
      /\ p' = settled_page el e0 (format sorry_text) [] p
      /\ nth_error (chatBox p') el = Some e'
      /\ shown e' = InnerHTML (js "<p>Sorry, no response received.</p>")
      /\ temporary e' = None
      /\ (forall i, i <> el ->
                    nth_error (chatBox p') i = nth_error (chatBox p) i)
      /\ console p' = console p)
  /\ format sorry_text = js "<p>Sorry, no response received.</p>"
  /\ forall o', exists p',
      resume el o' p = (Ok tt, p')
      /\ inputDisabled p' = false /\ buttonDisabled p' = false
      /\ inputFocused p' = true.
Proof.
  intros H Hok Hjson Hf. split; [|split].
  - destruct (@settled_log p el e0 (format sorry_text) [] H)
      as [e' [Hnth [Hshown [Htmp Hothers]]]].
    exists (settled_page el e0 (format sorry_text) [] p), e'. split.
    + apply resume_replaced.
      rewrite (@try_no_result p el r data Hok Hjson (no_field_no_result data Hf)).
      now apply replace_pending.
    + split; [reflexivity|]. split; [exact Hnth|].
      split; [now rewrite Hshown, format_sorry_text|].
      split; [exact Htmp|]. split; [exact Hothers|].
      unfold settled_page. cbn [console]. apply app_nil_r.
  - apply format_sorry_text.
  - intros o'. destruct (@resume_settles p el e0 o' H) as [html [log Hr]].
    eexists. split; [exact Hr|]. repeat split.
Qed.

Lemma missing_result_and_cleanup_witness :
  (exists p' e',
      resume 1 (Responded {| status := 200; json := Some (VObj []) |})
             (submitted_page (js "hello") initial)
      = (Ok tt, p')
      /\ p' = settled_page 1 thinking_element (format sorry_text) []
                           (submitted_page (js "hello") initial)
      /\ nth_error (chatBox p') 1 = Some e'
      /\ shown e' = InnerHTML (js "<p>Sorry, no response received.</p>")
      /\ temporary e' = None
      /\ (forall i, i <> 1 ->
                    nth_error (chatBox p') i
                    = nth_error (chatBox (submitted_page (js "hello") initial)) i)
      /\ console p' = console (submitted_page (js "hello") initial))
  /\ format sorry_text = js "<p>Sorry, no response received.</p>"
  /\ forall o', exists p',
      resume 1 o' (submitted_page (js "hello") initial) = (Ok tt, p')
      /\ inputDisabled p' = false /\ buttonDisabled p' = false
      /\ inputFocused p' = true.
Proof.
  apply missing_result_and_cleanup with (data := VObj []).
  - split; reflexivity.
  - reflexivity.
  - reflexivity.
  - reflexivity.
Defined.

(** C10.  When the status is 2xx and the JSON body is an object whose
    field [result] is falsy (the empty string, [0], [false], [null]), the
    pending entry of the log holds, as its markup, the same text as for a
    missing field, a paragraph holding exactly
    [Sorry, no response received.], not the result, and is no longer
    pending; nothing is logged. *)
Theorem falsy_result_counts_as_missing
        (p : page) (el : nat) (e0 : element) (r : response)
        (props : list (jsstring * value)) :
  pending_at p el e0 ->
  ok r = true ->
  json r = Some (VObj props) ->
  has_field (VObj props) (js "result") = true ->
  truthy (own_property props (js "result")) = false ->
  (exists p' e',
      resume el (Responded r) p = (Ok tt, p')
      /\ p' = settled_page el e0 (format sorry_text) [] p
      /\ nth_error (chatBox p') el = Some e'
      /\ shown e' = InnerHTML (js "<p>Sorry, no response received.</p>")
      /\ temporary e' = None
      /\ (forall i, i <> el ->
                    nth_error (chatBox p') i = nth_error (chatBox p) i)
      /\ console p' = console p)
  /\ format sorry_text = js "<p>Sorry, no response received.</p>".
Proof.
  intros H Hok Hjson _ Hv. split; [|apply format_sorry_text].
  destruct (@settled_log p el e0 (format sorry_text) [] H)
    as [e' [Hnth [Hshown [Htmp Hothers]]]].
  exists (settled_page el e0 (format sorry_text) [] p), e'. split.
  - apply resume_replaced.
    rewrite (@try_no_result p el r (VObj props) Hok Hjson).
    + now apply replace_pending.
    + intros _. eexists. split; [reflexivity | exact Hv].
  - split; [reflexivity|]. split; [exact Hnth|].
    split; [now rewrite Hshown, format_sorry_text|].
    split; [exact Htmp|]. split; [exact Hothers|].
    unfold settled_page. cbn [console]. apply app_nil_r.
Qed.

Lemma falsy_result_counts_as_missing_witness :
  (exists p' e',
      resume 1
        (Responded {| status := 200;
                      json := Some (VObj [(js "result", VStr [])]) |})
        (submitted_page (js "hello") initial)
      = (Ok tt, p')
      /\ p' = settled_page 1 thinking_element (format sorry_text) []
                           (submitted_page (js "hello") initial)
      /\ nth_error (chatBox p') 1 = Some e'
      /\ shown e' = InnerHTML (js "<p>Sorry, no response received.</p>")
      /\ temporary e' = None
      /\ (forall i, i <> 1 ->
                    nth_error (chatBox p') i
                    = nth_error (chatBox (submitted_page (js "hello") initial)) i)
      /\ console p' = console (submitted_page (js "hello") initial))
  /\ format sorry_text = js "<p>Sorry, no response received.</p>".
Proof.
  apply falsy_result_counts_as_missing with (props := [(js "result", VStr [])]).
  - split; reflexivity.
  - reflexivity.
  - reflexivity.
  - reflexivity.
  - reflexivity.
Defined.

(** *** The page over time *)

Lemma pending_replaced (e0 : element) (html : jsstring) :
  pending (replaced e0 html) = false.
Proof. reflexivity. Qed.

Lemma pending_of_flag (e0 : element) :
  temporary e0 = Some (js "true") -> pending e0 = true.
Proof. unfold pending. intros ->. reflexivity. Qed.

(** Replacing a pending element by one that is not pending takes one off
    the count. *)
Lemma count_set_nth (l : list element) :
  forall i e0 e,
    nth_error l i = Some e0 -> pending e0 = true -> pending e = false ->
    List.length (filter pending l)
    = S (List.length (filter pending (set_nth i e l))).
Proof.
  induction l as [|x l IH]; intros [|i] e0 e Hnth He0 He; simpl in *;
    try discriminate.
  - injection Hnth as ->. now rewrite He0, He.
  - destruct (pending x); simpl; [f_equal|]; eauto.
Qed.

Lemma submitted_count (userMessage : jsstring) (p : page) :
  pending_count (submitted_page userMessage p) = pending_count p + 1.
Proof.
  unfold pending_count, submitted_page. cbn [chatBox].
  rewrite !filter_app, !length_app. simpl. lia.
Qed.

Lemma submitted_pending (userMessage : jsstring) (p : page) :
  pending_at (submitted_page userMessage p) (S (List.length (chatBox p)))
             thinking_element.
Proof.
  split; [|reflexivity]. unfold submitted_page. cbn [chatBox].
  replace (S (List.length (chatBox p)))
    with (List.length (chatBox p ++ [user_element userMessage]))
    by (rewrite length_app; simpl; lia).
  apply nth_error_app_last.
Qed.

Lemma settled_count (p : page) el e0 html log :
  pending_at p el e0 ->
  pending_count p = S (pending_count (settled_page el e0 html log p)).
Proof.
  intros [Hnth Htmp]. unfold pending_count, settled_page. simpl.
  apply count_set_nth with e0;
    [exact Hnth | now apply pending_of_flag | apply pending_replaced].
Qed.

Lemma single_flight_start : single_flight start.
Proof. left. split; reflexivity. Qed.

Lemma single_flight_step (w w' : world) :
  single_flight w -> step w w' -> single_flight w'.
Proof.
  intros Hinv Hstep. destruct Hstep as [w text Hen | w r p' Hen Hsub | w el o r p' Hin Hres].
  - destruct Hinv as [[Hw Hc] | [el [e0 [_ [_ [_ [Hd _]]]]]]]; [|congruence].
    left. split; [exact Hw | exact Hc].
  - destruct Hinv as [[Hw Hc] | [el [e0 [_ [_ [_ [Hd Hb]]]]]]].
    2:{ destruct Hen; congruence. }
    destruct (trim (inputValue (the_page w))) as [|c u] eqn:Htrim.
    + rewrite (submit_empty _ Htrim) in Hsub. injection Hsub as <- <-.
      left. split; [exact Hw | exact Hc].
    + rewrite (submit_nonempty _ Htrim) in Hsub. injection Hsub as <- <-.
      right. exists (S (List.length (chatBox (the_page w)))), thinking_element.
      simpl. rewrite Hw, submitted_count, Hc.
      repeat split. apply submitted_pending.
  - destruct Hinv as [[Hw Hc] | [el0 [e0 [Hw [Hp [Hc [Hd Hb]]]]]]].
    + rewrite Hw in Hin. destruct Hin.
    + rewrite Hw in Hin. destruct Hin as [<- | []].
      destruct (@resume_settles (the_page w) el0 e0 o Hp) as [html [log Hr]].
      rewrite Hr in Hres. injection Hres as <- <-.
      left. simpl. rewrite Hw. simpl. rewrite Nat.eqb_refl. split; [reflexivity|].
      pose proof (@settled_count (the_page w) el0 e0 html log Hp) as Hcount.
      lia.
Qed.

Lemma reachable_single_flight (w : world) : reachable w -> single_flight w.
Proof.
  induction 1 as [|w w' _ IH Hstep].
  - apply single_flight_start.
  - now apply single_flight_step with w.
Qed.

(** C6.  In every reachable state at most one message is pending: none
    when no handler waits, one when a handler waits.  While a handler waits
    for its response the field and the button are disabled, so that no
    submission can start, and the only step there is leads back to a state
    where no handler waits: no step goes from [AwaitingResponse] to
    [AwaitingResponse]. *)
Theorem at_most_one_pending (w : world) :
  reachable w ->
  pending_count (the_page w) <= 1
  /\ (phase_of w = AwaitingResponse ->
      inputDisabled (the_page w) = true /\ buttonDisabled (the_page w) = true)
  /\ (forall w', step w w' ->
                 phase_of w = AwaitingResponse -> phase_of w' = Idle)
  /\ pending_count (the_page w)
     = match phase_of w with Idle => 0 | AwaitingResponse => 1 end.
Proof.
  intros Hr. pose proof (reachable_single_flight Hr) as Hinv.
  split; [|split; [|split]].
  - destruct Hinv as [[_ Hc] | [el [e0 [_ [_ [Hc _]]]]]]; lia.
  - unfold phase_of.
    destruct Hinv as [[Hw _] | [el [e0 [_ [_ [_ [Hd Hb]]]]]]].
    + rewrite Hw. discriminate.
    + now split.
  - intros w' Hstep Hphase.
    pose proof (single_flight_step Hinv Hstep) as Hinv'.
    destruct Hinv as [[Hw _] | [el [e0 [Hw [Hp [_ [Hd Hb]]]]]]].
    { unfold phase_of in Hphase. rewrite Hw in Hphase. discriminate. }
    destruct Hstep as [w text Hen | w r p' Hen Hsub | w el' o r p' Hin Hres].
    + congruence.
    + destruct Hen; congruence.
    + unfold phase_of. simpl. rewrite Hw in *.
      destruct Hin as [<- | []]. simpl. now rewrite Nat.eqb_refl.
  - unfold phase_of.
    destruct Hinv as [[Hw Hc] | [el [e0 [Hw [_ [Hc _]]]]]]; now rewrite Hw.
Qed.

Lemma at_most_one_pending_witness :
  let w := {| the_page := submitted_page (js "hello")
                            (set_inputValue (js "hello") initial);
              waiting := [1] |} in
  pending_count (the_page w) <= 1
  /\ (phase_of w = AwaitingResponse ->
      inputDisabled (the_page w) = true /\ buttonDisabled (the_page w) = true)
  /\ (forall w', step w w' ->
                 phase_of w = AwaitingResponse -> phase_of w' = Idle)
  /\ pending_count (the_page w)
     = match phase_of w with Idle => 0 | AwaitingResponse => 1 end.
Proof.
  apply at_most_one_pending.
  apply reachable_step
    with {| the_page := set_inputValue (js "hello") initial; waiting := [] |}.
  - apply reachable_step with start.
    + apply reachable_start.
    + apply (step_type start (js "hello")). reflexivity.
  - apply (step_submit
             {| the_page := set_inputValue (js "hello") initial; waiting := [] |}
             (r := Ok (Some 1))
             (p' := submitted_page (js "hello")
                      (set_inputValue (js "hello") initial))).
    + left. reflexivity.
    + reflexivity.
Defined.

End ChatFacts.

(** ** Where a pattern matches *)

Module MatchFacts.
Import StringFacts ReplaceFacts.

Section Start.
Variable fl : flags.

Lemma star_states_start (k : cclass) (inp : list N) :
  forall p b cs st',
    In st' (star_states fl k p b inp cs) ->
    (pos st' = p /\ before st' = b /\ input st' = inp)
    \/ (p < pos st' /\ first fl (RStar true k) b (hd_error inp) = true).
Proof.
  induction inp as [|c rest IH]; intros p b cs st' Hin; simpl in Hin.
  - destruct Hin as [<- | []]. now left.
  - destruct Hin as [<- | Hin]; [now left|]. right.
    destruct (class_mem fl k c) eqn:E; [|destruct Hin].
    split; [|exact E].
    destruct (IH _ _ _ _ Hin) as [[-> _] | [Hlt _]]; lia.
Qed.

(** A result of a match attempt either consumed nothing, and then the
    pattern can match the empty string here, or consumed something, and
    then the pattern can start with the next character. *)
Lemma matches_start (r : regex) :
  forall st st',
    In st' (matches fl r st) ->
    (pos st' = pos st /\ before st' = before st /\ input st' = input st
     /\ nullable fl r (before st) (hd_error (input st)) = true)
    \/ (pos st < pos st'
        /\ first fl r (before st) (hd_error (input st)) = true).
Proof.
  induction r as [ | k | | | a IHa b IHb | a IHa b IHb | g k | n a IHa | a IHa];
    intros st st' Hin; simpl in Hin.
  - destruct Hin as [<- | []]. left. now repeat split.
  - destruct (input st) as [|c rest] eqn:E; [destruct Hin|].
    destruct (class_mem fl k c) eqn:Ek; [|destruct Hin].
    destruct Hin as [<- | []]. right. simpl. split; [lia | exact Ek].
  - unfold at_bol in Hin. simpl.
    destruct (before st) as [c|] eqn:Eb.
    + destruct (multiline fl && is_line_terminator c) eqn:E; [|destruct Hin].
      destruct Hin as [<- | []]. left. now repeat split.
    + destruct Hin as [<- | []]. left. now repeat split.
  - unfold at_eol in Hin. simpl.
    destruct (input st) as [|c rest] eqn:Ei.
    + destruct Hin as [<- | []]. left. now repeat split.
    + destruct (multiline fl && is_line_terminator c) eqn:E; [|destruct Hin].
      destruct Hin as [<- | []]. left. now repeat split.
  - apply in_flat_map in Hin. destruct Hin as [mid [Hmid Hin]].
    destruct (IHa _ _ Hmid) as [[Hp [Hb [Hi Hn]]] | [Hlt Hf]];
      destruct (IHb _ _ Hin) as [[Hp' [Hb' [Hi' Hn']]] | [Hlt' Hf']].
    + left. rewrite Hp', Hb', Hi', Hp, Hb, Hi. repeat split; try reflexivity.
      simpl. rewrite Hb, Hi in Hn'. now rewrite Hn, Hn'.
    + right. split; [lia|]. simpl. rewrite Hb, Hi in Hf'.
      rewrite Hn, Hf'. apply orb_true_r.
    + right. split; [lia|]. simpl. now rewrite Hf.
    + right. split; [lia|]. simpl. now rewrite Hf.
  - apply in_app_or in Hin. simpl.
    destruct Hin as [Hin | Hin];
      [destruct (IHa _ _ Hin) as [[Hp [Hb [Hi Hn]]] | [Hlt Hf]]
      | destruct (IHb _ _ Hin) as [[Hp [Hb [Hi Hn]]] | [Hlt Hf]]].
    + left. repeat split; try assumption. now rewrite Hn.
    + right. split; [assumption|]. now rewrite Hf.
    + left. repeat split; try assumption. rewrite Hn. apply orb_true_r.
    + right. split; [assumption|]. rewrite Hf. apply orb_true_r.
  - assert (In st' (star_states fl k (pos st) (before st) (input st) (caps st)))
      as Hin'.
    { destruct g; [now apply in_rev in Hin | exact Hin]. }
    destruct (star_states_start _ _ _ _ _ _ Hin') as [[Hp [Hb Hi]] | [Hlt Hf]].
    + left. now repeat split.
    + right. split; [exact Hlt | exact Hf].
  - apply in_map_iff in Hin. destruct Hin as [mid [<- Hmid]]. simpl.
    exact (IHa _ _ Hmid).
  - destruct (matches fl a st); [|destruct Hin].
    destruct Hin as [<- | []]. left. now repeat split.
Qed.

Lemma cannot_start (r : regex) (prev : option N) (inp : list N) :
  can_start fl r prev (hd_error inp) = false ->
  exec fl r prev inp = None.
Proof.
  intros H. unfold exec.
  destruct (matches fl r _) as [|st' l] eqn:E; [reflexivity|].
  assert (In st' (matches fl r {| pos := 0; before := prev; input := inp;
                                  caps := [] |})) as Hin
      by (rewrite E; now left).
  apply matches_start in Hin. simpl in Hin. unfold can_start in H.
  apply orb_false_iff in H. destruct H as [Hn Hf].
  destruct Hin as [[_ [_ [_ Hn']]] | [_ Hf']]; congruence.
Qed.
End Start.

Lemma prev_after_app (a b : jsstring) :
  forall prev, prev_after prev (a ++ b) = prev_after (prev_after prev a) b.
Proof. induction a as [|c a IH]; intros prev; simpl; [reflexivity | apply IH]. Qed.

(** *** What a match consumes *)

Section Consumed.
Variable fl : flags.

Lemma star_states_lang (k : cclass) (inp : list N) :
  forall p b cs st',
    In st' (star_states fl k p b inp cs) ->
    exists w, inp = w ++ input st'
              /\ Forall (fun c => class_mem fl k c = true) w.
Proof.
  induction inp as [|c rest IH]; intros p b cs st' Hin; simpl in Hin.
  - destruct Hin as [<- | []]. exists []. split; [reflexivity | constructor].
  - destruct Hin as [<- | Hin].
    + exists []. split; [reflexivity | constructor].
    + destruct (class_mem fl k c) eqn:E; [|destruct Hin].
      destruct (IH _ _ _ _ Hin) as [w [Hw Hall]].
      exists (c :: w). split; [simpl; now rewrite <- Hw | now constructor].
Qed.

(** A result of a match attempt is reached over a string of the
    pattern. *)
Lemma matches_lang (r : regex) :
  forall st st',
    In st' (matches fl r st) ->
    exists w, input st = w ++ input st' /\ lang fl r w.
Proof.
  induction r as [ | k | | | a IHa b IHb | a IHa b IHb | g k | n a IHa | a IHa];
    intros st st' Hin; simpl in Hin.
  - destruct Hin as [<- | []]. now exists [].
  - destruct (input st) as [|c rest] eqn:E; [destruct Hin|].
    destruct (class_mem fl k c) eqn:Ek; [|destruct Hin].
    destruct Hin as [<- | []]. exists [c]. split; [reflexivity|].
    simpl. eauto.
  - destruct (at_bol fl st); [|destruct Hin].
    destruct Hin as [<- | []]. now exists [].
  - destruct (at_eol fl st); [|destruct Hin].
    destruct Hin as [<- | []]. now exists [].
  - apply in_flat_map in Hin. destruct Hin as [mid [Hmid Hin]].
    destruct (IHa _ _ Hmid) as [w1 [H1 L1]].
    destruct (IHb _ _ Hin) as [w2 [H2 L2]].
    exists (w1 ++ w2). split.
    + now rewrite H1, H2, app_assoc.
    + simpl. eauto.
  - apply in_app_or in Hin.
    destruct Hin as [Hin | Hin];
      [destruct (IHa _ _ Hin) as [w [H L]] | destruct (IHb _ _ Hin) as [w [H L]]];
      exists w; simpl; auto.
  - assert (In st' (star_states fl k (pos st) (before st) (input st) (caps st)))
      as Hin'.
    { destruct g; [now apply in_rev in Hin | exact Hin]. }
    exact (star_states_lang _ _ _ _ _ _ Hin').
  - apply in_map_iff in Hin. destruct Hin as [mid [<- Hmid]]. simpl.
    exact (IHa _ _ Hmid).
  - destruct (matches fl a st); [|destruct Hin].
    destruct Hin as [<- | []]. now exists [].
Qed.

Lemma exec_lang (r : regex) (prev : option N) (inp : list N) n cs :
  exec fl r prev inp = Some (n, cs) ->
  exists w rest, inp = w ++ rest /\ lang fl r w.
Proof.
  unfold exec. destruct (matches fl r _) as [|st' l] eqn:E; [discriminate|].
  intros _.
  assert (In st' (matches fl r {| pos := 0; before := prev; input := inp;
                                  caps := [] |})) as Hin
      by (rewrite E; now left).
  apply matches_lang in Hin. destruct Hin as [w [Hw Hl]].
  exists w, (input st'). auto.
Qed.
End Consumed.

(** *** Match attempts, step by step *)

Section Steps.
Variable fl : flags.

Lemma matches_cannot_start (r : regex) (st : mstate) :
  can_start fl r (before st) (hd_error (input st)) = false ->
  matches fl r st = [].
Proof.
  intros H. destruct (matches fl r st) as [|st' l] eqn:E; [reflexivity|].
  assert (In st' (matches fl r st)) as Hin by (rewrite E; now left).
  apply matches_start in Hin. unfold can_start in H.
  apply orb_false_iff in H. destruct H as [Hn Hf].
  destruct Hin as [[_ [_ [_ Hn']]] | [_ Hf']]; congruence.
Qed.

Lemma adv_nil (st : mstate) : adv st [] (input st) = st.
Proof. destruct st. reflexivity. Qed.

Lemma adv_adv (st : mstate) (u w r1 r2 : jsstring) :
  adv (adv st u r1) w r2 = adv st (u ++ w) r2.
Proof.
  unfold adv. simpl. f_equal.
  - rewrite length_app. lia.
  - now rewrite prev_after_app.
Qed.

Lemma matches_seq (a b : regex) (st : mstate) :
  matches fl (RSeq a b) st = flat_map (matches fl b) (matches fl a st).
Proof. reflexivity. Qed.

Lemma matches_group (n : nat) (a : regex) (st : mstate) :
  matches fl (RGroup n a) st = map (set_cap n (pos st)) (matches fl a st).
Proof. reflexivity. Qed.

Lemma matches_star (k : cclass) (st : mstate) :
  matches fl (RStar true k) st
  = rev (star_states fl k (pos st) (before st) (input st) (caps st)).
Proof. reflexivity. Qed.

Lemma matches_bol_start (p : nat) (inp : jsstring) cs :
  matches fl RBol {| pos := p; before := None; input := inp; caps := cs |}
  = [ {| pos := p; before := None; input := inp; caps := cs |} ].
Proof. reflexivity. Qed.

Lemma matches_neglook (a : regex) (st : mstate) :
  matches fl a st = [] -> matches fl (RNegLook a) st = [st].
Proof. intros H. simpl. now rewrite H. Qed.

Lemma matches_class (k : cclass) (st : mstate) (c : N) (rest : jsstring) :
  input st = c :: rest -> class_mem fl k c = true ->
  matches fl (RClass k) st = [adv st [c] rest].
Proof. intros Hi Hc. simpl. now rewrite Hi, Hc. Qed.

Lemma matches_class_miss (k : cclass) (st : mstate) (c : N) (rest : jsstring) :
  input st = c :: rest -> class_mem fl k c = false ->
  matches fl (RClass k) st = [].
Proof. intros Hi Hc. simpl. now rewrite Hi, Hc. Qed.

Lemma matches_opt (k : cclass) (st : mstate) :
  matches fl (ROpt k) st = matches fl (RClass k) st ++ [st].
Proof. reflexivity. Qed.

Lemma matches_lit (w : jsstring) :
  forall st rest,
    input st = w ++ rest -> matches fl (RLit w) st = [adv st w rest].
Proof.
  induction w as [|c w IH]; intros st rest Hi.
  - simpl in *. now rewrite <- Hi, adv_nil.
  - destruct w as [|d w].
    + apply matches_class; [exact Hi | apply N.eqb_refl].
    + change (RLit (c :: d :: w)) with (RSeq (RChar c) (RLit (d :: w))).
      cbn [matches]. unfold RChar.
      rewrite (@matches_class (CChar c) st c ((d :: w) ++ rest) Hi (N.eqb_refl c)).
      cbn [flat_map].
      rewrite (IH (adv st [c] ((d :: w) ++ rest)) rest eq_refl), app_nil_r.
      now rewrite adv_adv.
Qed.

(** The states after a run of characters of a class: those inside the
    run, then the one at its end. *)
Lemma star_states_run (k : cclass) (w tail : jsstring) :
  Forall (fun c => class_mem fl k c = true) w ->
  match tail with [] => True | c :: _ => class_mem fl k c = false end ->
  forall p b cs,
  exists inter,
    star_states fl k p b (w ++ tail) cs
    = inter ++ [ {| pos := List.length w + p; before := prev_after b w;
                    input := tail; caps := cs |} ]
    /\ forall st, In st inter ->
                  exists d rest, input st = d :: rest /\ In d w /\ caps st = cs.
Proof.
  intros Hw Htail. induction Hw as [|c w Hc Hw IH]; intros p b cs.
  - exists []. split; [|intros st []].
    destruct tail as [|c rest]; simpl; [reflexivity|]. now rewrite Htail.
  - destruct (IH (S p) (Some c) cs) as [inter [Heq Hin]].
    exists ({| pos := p; before := b; input := (c :: w) ++ tail; caps := cs |}
              :: inter).
    split.
    + simpl. rewrite Hc, Heq. simpl. repeat f_equal. lia.
    + intros st [<- | Hst].
      * exists c, (w ++ tail). simpl. auto.
      * destruct (Hin st Hst) as [d [rest [Hi [Hd Hcs]]]].
        exists d, rest. simpl. auto.
Qed.

Lemma flat_map_nil A B (f : A -> list B) (l : list A) :
  (forall x, In x l -> f x = []) -> flat_map f l = [].
Proof.
  induction l as [|x l IH]; intros H; simpl; [reflexivity|].
  rewrite (H x) by now left. apply IH. intros y Hy. apply H. now right.
Qed.

Lemma flat_map_map A B C (g : A -> B) (f : B -> list C) (l : list A) :
  flat_map f (map g l) = flat_map (fun x => f (g x)) l.
Proof. induction l as [|x l IH]; simpl; [reflexivity | now rewrite IH]. Qed.

(** A greedy run of one or more characters of a class, then [f]: when
    [f] fails inside the run, the result is [f] at the end of the run. *)
Lemma plus_run (k : cclass) (st : mstate) (c : N) (w tail : jsstring)
      (f : mstate -> list mstate) :
  input st = c :: w ++ tail ->
  class_mem fl k c = true ->
  Forall (fun c => class_mem fl k c = true) w ->
  match tail with [] => True | d :: _ => class_mem fl k d = false end ->
  (forall st', (exists d rest, input st' = d :: rest /\ In d w
                              /\ caps st' = caps st) -> f st' = []) ->
  flat_map f (matches fl (RPlus true k) st) = f (adv st (c :: w) tail).
Proof.
  intros Hi Hc Hw Htail Hf. unfold RPlus. rewrite matches_seq.
  rewrite (@matches_class k st c (w ++ tail) Hi Hc). cbn [flat_map].
  rewrite app_nil_r, matches_star.
  cbn [adv pos before input caps List.length prev_after].
  destruct (@star_states_run k w tail Hw Htail (1 + pos st) (Some c) (caps st))
    as [inter [Heq Hin]].
  rewrite Heq, rev_app_distr. cbn [rev app flat_map].
  rewrite flat_map_nil.
  - rewrite app_nil_r. unfold adv. simpl. repeat f_equal. lia.
  - intros x Hx. apply in_rev in Hx. apply Hf. exact (Hin x Hx).
Qed.
End Steps.

(** *** [replace] where no match can start *)

Section Quiet.
Variable fl : flags.
Variable r : regex.
Variable t : template.

Lemma scan_no_match (prev : option N) (c : N) (rest : jsstring) :
  exec fl r prev (c :: rest) = None ->
  scan fl r t 0 prev (c :: rest) = c :: scan fl r t 0 (Some c) rest.
Proof. intros H. unfold scan. simpl. rewrite map_id. now rewrite H. Qed.

Lemma scan_end (prev : option N) :
  can_start fl r prev None = false -> scan fl r t 0 prev [] = [].
Proof.
  intros H. unfold scan. simpl.
  now rewrite (cannot_start fl r prev [] H).
Qed.

Lemma scan_match (prev : option N) (c : N) (rest : jsstring) k cs :
  exec fl r prev (c :: rest) = Some (S k, cs) ->
  scan fl r t 0 prev (c :: rest)
  = expand (fun c => c) t (c :: rest) cs ++ scan fl r t k (Some c) rest.
Proof. intros H. unfold scan. simpl. rewrite map_id. now rewrite H. Qed.

Lemma scan_skip (w : jsstring) :
  forall prev tail,
    scan fl r t (List.length w) prev (w ++ tail) = scan fl r t 0 (prev_after prev w) tail.
Proof.
  induction w as [|c w IH]; intros prev tail; [reflexivity|].
  unfold scan in *. simpl. apply IH.
Qed.

Lemma scan_skip_all (w : jsstring) (prev : option N) :
  scan fl r t (List.length w) prev w = scan fl r t 0 (prev_after prev w) [].
Proof. rewrite <- (scan_skip w prev []). now rewrite app_nil_r. Qed.

Lemma scan_quiet (w : jsstring) :
  forall prev tail,
    quiet fl r prev w = true ->
    scan fl r t 0 prev (w ++ tail) = w ++ scan fl r t 0 (prev_after prev w) tail.
Proof.
  induction w as [|c w IH]; intros prev tail Hq; [reflexivity|].
  simpl in Hq. apply andb_true_iff in Hq. destruct Hq as [Hc Hq].
  apply negb_true_iff in Hc.
  change ((c :: w) ++ tail) with (c :: (w ++ tail)).
  rewrite scan_no_match by (now apply cannot_start).
  simpl. f_equal. now apply IH.
Qed.

Lemma scan_quiet_all (w : jsstring) (prev : option N) :
  quiet fl r prev w = true ->
  can_start fl r (prev_after prev w) None = false ->
  scan fl r t 0 prev w = w.
Proof.
  intros Hq He. rewrite <- (app_nil_r w) at 1.
  rewrite (scan_quiet w prev [] Hq), scan_end by exact He.
  apply app_nil_r.
Qed.

(** A string in which no match can start is left as it is. *)
Lemma replace_quiet (s : jsstring) :
  quiet fl r None s = true ->
  can_start fl r (prev_after None s) None = false ->
  replace fl r t s = s.
Proof.
  intros Hq He. change (replace fl r t s) with (scan fl r t 0 None s).
  rewrite <- (app_nil_r s) at 1.
  rewrite (scan_quiet s None [] Hq), scan_end by exact He.
  apply app_nil_r.
Qed.
End Quiet.

Lemma quiet_app fl r (a b : jsstring) :
  forall prev,
    quiet fl r prev (a ++ b)
    = quiet fl r prev a && quiet fl r (prev_after prev a) b.
Proof.
  induction a as [|c a IH]; intros prev; simpl; [reflexivity|].
  now rewrite IH, andb_assoc.
Qed.

End MatchFacts.

(** ** Links *)

Module LinkFacts.
Import StringFacts ReplaceFacts MatchFacts FormatterFacts.

Local Open Scope string_scope.
Local Open Scope list_scope.

Local Arguments N.eqb : simpl never.
Local Arguments is_space : simpl never.
Local Arguments is_line_terminator : simpl never.
Local Arguments is_digit : simpl never.

Lemma line_terminator_is_space (c : N) :
  is_line_terminator c = true -> is_space c = true.
Proof.
  unfold is_line_terminator. intros H. apply inb_In in H.
  simpl in H. intuition subst; reflexivity.
Qed.

Lemma not_space_not_terminator (c : N) :
  is_space c = false -> is_line_terminator c = false.
Proof.
  intros H. destruct (is_line_terminator c) eqn:E; [|reflexivity].
  apply line_terminator_is_space in E. congruence.
Qed.

Lemma inb_false (c : N) (l : list N) :
  inb c l = false -> forall k, In k l -> N.eqb c k = false.
Proof.
  intros H k Hk. destruct (N.eqb c k) eqn:E; [|reflexivity].
  apply N.eqb_eq in E. subst. apply inb_In in Hk. congruence.
Qed.

(** *** The pattern of the links on a span *)

Lemma link_matches (prev : option N) (l0 : N) (L : jsstring) (secure : bool)
      (v : N) (V tail : jsstring) :
  Forall (fun c => N.eqb c (chr "]") = false) (l0 :: L) ->
  Forall (fun c => is_space c = false /\ N.eqb c (chr ")") = false) (v :: V) ->
  matches flags_g re_link
    {| pos := 0; before := prev;
       input := js "[" ++ (l0 :: L) ++ js "](" ++ (scheme secure ++ v :: V)
                ++ js ")" ++ tail;
       caps := [] |}
  = [ {| pos := List.length (span (l0 :: L) (scheme secure ++ v :: V));
         before := Some (chr ")");
         input := tail;
         caps := [ (2, (List.length L + 4, List.length (scheme secure ++ v :: V)));
                   (1, (1, S (List.length L))) ] |} ].
Proof.
  intros HL HV.
  inversion HL as [|? ? Hl0 HL']; subst.
  inversion HV as [|? ? [Hv1 Hv2] HV']; subst.
  unfold re_link. cbn [RSeqs]. rewrite matches_seq.
  unfold RChar.
  erewrite matches_class; [|reflexivity|reflexivity].
  cbn [flat_map]. rewrite app_nil_r.
  rewrite matches_seq, matches_group, flat_map_map.
  rewrite (@plus_run flags_g _ _ l0 L
             (js "](" ++ (scheme secure ++ v :: V) ++ js ")" ++ tail));
    [ | reflexivity | simpl; now rewrite Hl0 | | reflexivity | ].
  2:{ apply Forall_forall. intros d Hd. rewrite Forall_forall in HL'.
      simpl. now rewrite (HL' d Hd). }
  2:{ intros st' [d [rest [Hi [Hd _]]]]. apply matches_cannot_start.
      rewrite Forall_forall in HL'. specialize (HL' d Hd).
      unfold can_start. simpl. rewrite Hi. cbn. cbn in HL'. now rewrite HL'. }
  rewrite matches_seq.
  erewrite matches_lit; [|reflexivity].
  cbn [flat_map]. rewrite app_nil_r.
  rewrite matches_seq, matches_group, flat_map_map.
  rewrite matches_seq.
  erewrite matches_lit; [|unfold scheme; rewrite <- !app_assoc; reflexivity].
  cbn [flat_map]. rewrite app_nil_r.
  unfold adv, set_cap. cbn [pos before input caps List.length prev_after].
  match goal with
  | |- context [matches _ (RSeq (ROpt _) _) ?s] => set (st5 := s)
  end.
  assert (flat_map
            (matches flags_g
               (RSeq (RLit (js "://"))
                  (RPlus true (CNot (CUnion CSpace (CChar (chr ")")))))))
            (matches flags_g (ROpt (CChar (chr "s"))) st5)
          = matches flags_g (RPlus true (CNot (CUnion CSpace (CChar (chr ")")))))
              (adv st5 ((if secure then js "s" else []) ++ js "://")
                   ((v :: V) ++ js ")" ++ tail))) as Hopt.
  { rewrite matches_opt. destruct secure.
    - erewrite matches_class; [|reflexivity|reflexivity].
      cbn [app flat_map].
      rewrite (@matches_cannot_start flags_g _ st5) by reflexivity.
      rewrite !app_nil_r, matches_seq.
      erewrite matches_lit; [|reflexivity].
      cbn [flat_map]. rewrite app_nil_r. now rewrite adv_adv.
    - erewrite matches_class_miss; [|reflexivity|reflexivity].
      cbn [app flat_map]. rewrite app_nil_r, matches_seq.
      erewrite matches_lit; [|reflexivity].
      cbn [flat_map]. now rewrite app_nil_r. }
  rewrite matches_seq, Hopt. clear Hopt.
  rewrite (@plus_run flags_g _ _ v V (js ")" ++ tail));
    [ | reflexivity | simpl; now rewrite Hv1, Hv2 | | reflexivity | ].
  2:{ apply Forall_forall. intros d Hd. rewrite Forall_forall in HV'.
      destruct (HV' d Hd) as [H1 H2]. simpl. now rewrite H1, H2. }
  2:{ intros st' [d [rest [Hi [Hd _]]]]. apply matches_cannot_start.
      rewrite Forall_forall in HV'. destruct (HV' d Hd) as [_ H2].
      unfold can_start. simpl. rewrite Hi. cbn. cbn in H2. now rewrite H2. }
  erewrite matches_class; [|reflexivity|reflexivity].
  unfold adv, set_cap, st5. cbn [pos before input caps prev_after].
  assert (List.length (span (l0 :: L) (scheme secure ++ v :: V))
          = List.length L + List.length (scheme secure ++ v :: V) + 5) as Hlen.
  { unfold span. rewrite !length_app. simpl. lia. }
  assert (List.length (scheme secure ++ v :: V)
          = List.length V + (if secure then 9 else 8)) as Hurl.
  { unfold scheme. destruct secure; rewrite !length_app; simpl; lia. }
  rewrite Hlen, Hurl.
  assert (List.length ((if secure then js "s" else []) ++ js "://")
          = if secure then 4 else 3) as Hs by (now destruct secure).
  rewrite Hs. simpl List.length.
  f_equal. f_equal; [destruct secure; lia|].
  f_equal; [|f_equal; f_equal; f_equal; lia].
  f_equal. f_equal; destruct secure; lia.
Qed.

Lemma split_unique (x : N) (a : jsstring) :
  forall a' b b',
    ~ In x a -> ~ In x a' -> a ++ x :: b = a' ++ x :: b' -> a = a' /\ b = b'.
Proof.
  induction a as [|c a IH]; intros [|c' a'] b b' Ha Ha' Heq; simpl in *.
  - injection Heq as <-. now split.
  - injection Heq as <- _. exfalso. apply Ha'. now left.
  - injection Heq as -> _. exfalso. apply Ha. now left.
  - injection Heq as <- Heq.
    destruct (IH a' b b') as [-> ->]; auto.
Qed.

Lemma Forall_eqb_not_In (x : N) (l : jsstring) :
  Forall (fun c => N.eqb c x = false) l -> ~ In x l.
Proof.
  intros H Hin. rewrite Forall_forall in H. specialize (H x Hin).
  now rewrite N.eqb_refl in H.
Qed.

(** A string of the pattern of the links is a span with a label that is
    not empty and a web address. *)
Lemma link_lang (w : jsstring) :
  lang flags_g re_link w ->
  exists c1 w1 secure c2 w2,
    w = js "[" ++ (c1 :: w1) ++ js "](" ++ (scheme secure ++ c2 :: w2) ++ js ")"
    /\ Forall (fun c => N.eqb c (chr "]") = false) (c1 :: w1)
    /\ Forall (fun c => is_space c = false /\ N.eqb c (chr ")") = false)
              (c2 :: w2).
Proof.
  unfold re_link. cbn. intros H.
  repeat match goal with
         | H : exists _, _ |- _ => destruct H
         | H : _ /\ _ |- _ => destruct H
         end.
  repeat match goal with
         | H : N.eqb _ _ = true |- _ => apply N.eqb_eq in H
         end.
  subst.
  match goal with
  | H : negb (N.eqb ?c _) = true |- _ =>
      exists c; apply negb_true_iff in H; rename H into Hc1
  end.
  match goal with
  | H : Forall (fun c => negb (N.eqb c _) = true) ?w |- _ =>
      exists w; rename H into Hw1
  end.
  match goal with
  | H : _ \/ _ |- _ => destruct H as [[s [-> Hs]] | ->]
  end.
  - apply N.eqb_eq in Hs. subst. exists true.
    match goal with
    | H : negb (is_space ?c || _) = true |- _ =>
        exists c; apply negb_true_iff, orb_false_iff in H; rename H into Hc2
    end.
    match goal with
    | H : Forall (fun c => negb (is_space c || _) = true) ?w |- _ =>
        exists w; rename H into Hw2
    end.
    split; [reflexivity|]. split.
    + constructor; [exact Hc1|]. eapply Forall_impl; [|exact Hw1].
      intros a Ha. now apply negb_true_iff in Ha.
    + constructor; [exact Hc2|]. eapply Forall_impl; [|exact Hw2].
      intros a Ha. now apply negb_true_iff, orb_false_iff in Ha.
  - exists false.
    match goal with
    | H : negb (is_space ?c || _) = true |- _ =>
        exists c; apply negb_true_iff, orb_false_iff in H; rename H into Hc2
    end.
    match goal with
    | H : Forall (fun c => negb (is_space c || _) = true) ?w |- _ =>
        exists w; rename H into Hw2
    end.
    split; [reflexivity|]. split.
    + constructor; [exact Hc1|]. eapply Forall_impl; [|exact Hw1].
      intros a Ha. now apply negb_true_iff in Ha.
    + constructor; [exact Hc2|]. eapply Forall_impl; [|exact Hw2].
      intros a Ha. now apply negb_true_iff, orb_false_iff in Ha.
Qed.

Lemma slice_middle (a b c : jsstring) :
  slice (List.length a) (List.length b) (a ++ b ++ c) = b.
Proof.
  unfold slice. rewrite skipn_app, skipn_all, Nat.sub_diag. simpl.
  rewrite firstn_app, firstn_all, Nat.sub_diag. simpl. apply app_nil_r.
Qed.

Lemma link_exec (prev : option N) (l0 : N) (L : jsstring) (secure : bool)
      (v : N) (V : jsstring) :
  Forall (fun c => N.eqb c (chr "]") = false) (l0 :: L) ->
  Forall (fun c => is_space c = false /\ N.eqb c (chr ")") = false) (v :: V) ->
  exec flags_g re_link prev (span (l0 :: L) (scheme secure ++ v :: V))
  = Some (List.length (span (l0 :: L) (scheme secure ++ v :: V)),
          [ (2, (List.length L + 4, List.length (scheme secure ++ v :: V)));
            (1, (1, S (List.length L))) ]).
Proof.
  intros HL HV. unfold exec.
  replace (span (l0 :: L) (scheme secure ++ v :: V))
    with (js "[" ++ (l0 :: L) ++ js "](" ++ (scheme secure ++ v :: V)
             ++ js ")" ++ []) at 1
    by (unfold span; now rewrite app_nil_r).
  now rewrite (link_matches prev secure [] HL HV).
Qed.

Lemma link_cannot_end (prev : option N) :
  can_start flags_g re_link prev None = false.
Proof. reflexivity. Qed.

(** The stage of the links on a span with a label and a web address. *)
Lemma link_stage_anchor (l0 : N) (L : jsstring) (secure : bool) (v : N)
      (V : jsstring) :
  Forall (fun c => N.eqb c (chr "]") = false) (l0 :: L) ->
  Forall (fun c => is_space c = false /\ N.eqb c (chr ")") = false) (v :: V) ->
  replace flags_g re_link tpl_link (span (l0 :: L) (scheme secure ++ v :: V))
  = anchor (l0 :: L) (scheme secure ++ v :: V).
Proof.
  intros HL HV.
  change (replace flags_g re_link tpl_link ?s)
    with (scan flags_g re_link tpl_link 0 None s).
  pose proof (link_exec None secure HL HV) as Hexec.
  set (U := scheme secure ++ v :: V) in *.
  assert (span (l0 :: L) U
          = chr "[" :: ((l0 :: L) ++ js "](" ++ U ++ js ")")) as Hspan
      by reflexivity.
  rewrite Hspan in Hexec at 1. rewrite Hspan at 1.
  assert (List.length (span (l0 :: L) U)
          = S (List.length ((l0 :: L) ++ js "](" ++ U ++ js ")"))) as Hlen
      by (now rewrite Hspan).
  rewrite Hlen in Hexec.
  rewrite (@scan_match flags_g re_link tpl_link _ _ _ _ _ Hexec).
  rewrite scan_skip_all, scan_end by apply link_cannot_end.
  rewrite app_nil_r. unfold tpl_link. cbn [expand cap_lookup Nat.eqb].
  rewrite !map_id.
  replace (slice (List.length L + 4) (List.length U)
                 (chr "[" :: (l0 :: L) ++ js "](" ++ U ++ js ")"))
    with U.
  2:{ rewrite <- (slice_middle (js "[" ++ (l0 :: L) ++ js "](") U (js ")")) at 1.
      f_equal.
      - rewrite !length_app. simpl. lia.
      - now rewrite <- !app_assoc. }
  replace (slice 1 (S (List.length L))
                 (chr "[" :: (l0 :: L) ++ js "](" ++ U ++ js ")"))
    with (l0 :: L).
  2:{ now rewrite <- (slice_middle (js "[") (l0 :: L) (js "](" ++ U ++ js ")")) at 1. }
  unfold anchor. now rewrite <- !app_assoc, app_nil_r.
Qed.

Lemma scheme_web_url (secure : bool) (v : N) (V : jsstring) :
  web_url (scheme secure ++ v :: V).
Proof.
  exists (v :: V). split; [discriminate|].
  destruct secure; [right | left]; reflexivity.
Qed.

Lemma web_url_scheme (url : jsstring) :
  web_url url -> exists secure v V, url = scheme secure ++ v :: V.
Proof.
  intros [[|v V] [Hne [-> | ->]]]; try congruence.
  - now exists false, v, V.
  - now exists true, v, V.
Qed.

(** No match of the pattern of the links at the start of a span without a
    label or without a web address. *)
Lemma link_exec_none (prev : option N) (label url : jsstring) :
  ~ In (chr "]") label -> ~ In (chr ")") url ->
  ~ (label <> [] /\ web_url url) ->
  exec flags_g re_link prev (span label url) = None.
Proof.
  intros Hl Hu Hbad.
  destruct (exec flags_g re_link prev (span label url)) as [[n cs]|] eqn:E;
    [|reflexivity].
  exfalso. apply Hbad.
  apply exec_lang in E. destruct E as [w [rest [Hw Hlang]]].
  apply link_lang in Hlang.
  destruct Hlang as [c1 [w1 [secure [c2 [w2 [-> [H1 H2]]]]]]].
  assert (label ++ chr "]" :: (chr "(" :: url ++ [chr ")"])
          = (c1 :: w1) ++ chr "]"
              :: (chr "(" :: (scheme secure ++ c2 :: w2) ++ chr ")" :: rest))
    as Hw'.
  { unfold span in Hw. injection Hw as Hw.
    apply (eq_trans Hw). unfold scheme.
    destruct secure; simpl; repeat (rewrite <- app_assoc; simpl); reflexivity. }
  clear Hw. apply split_unique in Hw';
    [ | exact Hl | now apply Forall_eqb_not_In ].
  destruct Hw' as [-> Hw]. injection Hw as Hw.
  apply (@split_unique (chr ")") url (scheme secure ++ c2 :: w2) [] rest) in Hw;
    [ | exact Hu | ].
  - destruct Hw as [-> _]. split; [discriminate | apply scheme_web_url].
  - apply Forall_eqb_not_In.
    apply Forall_app. split.
    + destruct secure; repeat constructor.
    + eapply Forall_impl; [|exact H2]. now intros a [_ Ha].
Qed.

Lemma link_quiet (w : jsstring) :
  ~ In (chr "[") w -> forall prev, quiet flags_g re_link prev w = true.
Proof.
  induction w as [|c w IH]; intros Hw prev; [reflexivity|].
  cbn [quiet]. rewrite IH by (intros H; apply Hw; now right).
  assert (N.eqb c (chr "[") = false) as Hc.
  { destruct (N.eqb c (chr "[")) eqn:E; [|reflexivity].
    apply N.eqb_eq in E. exfalso. apply Hw. now left. }
  unfold can_start. cbn. cbn in Hc. now rewrite Hc.
Qed.

(** The stage of the links leaves any other span as it is. *)
Lemma link_stage_same (label url : jsstring) :
  ~ In (chr "]") label -> ~ In (chr "[") label ->
  ~ In (chr ")") url -> ~ In (chr "[") url ->
  ~ (label <> [] /\ web_url url) ->
  replace flags_g re_link tpl_link (span label url) = span label url.
Proof.
  intros Hl1 Hl2 Hu1 Hu2 Hbad.
  change (replace flags_g re_link tpl_link ?s)
    with (scan flags_g re_link tpl_link 0 None s).
  pose proof (link_exec_none None Hl1 Hu1 Hbad) as Hexec.
  assert (span label url = chr "[" :: (label ++ js "](" ++ url ++ js ")"))
    as Hspan by reflexivity.
  rewrite Hspan in *.
  rewrite (@scan_no_match flags_g re_link tpl_link _ _ _ Hexec). f_equal.
  apply scan_quiet_all; [|apply link_cannot_end].
  apply link_quiet. intros H.
  apply in_app_or in H. destruct H as [H | H]; [now apply Hl2|].
  simpl in H. destruct H as [H | [H | H]]; try discriminate.
  apply in_app_or in H. destruct H as [H | H]; [now apply Hu2|].
  simpl in H. destruct H as [H | []]. discriminate.
Qed.

(** *** The paragraph stage on one line *)

Lemma prev_after_in (X : jsstring) :
  forall x, exists c, prev_after (Some x) X = Some c /\ In c (x :: X).
Proof.
  induction X as [|y X IH]; intros x; simpl.
  - exists x. auto.
  - destruct (IH y) as [c [Hc Hin]]. exists c. simpl in Hin. tauto.
Qed.

Lemma flat_map_unit A (l : list A) : flat_map (fun x => [x]) l = l.
Proof. induction l as [|x l IH]; simpl; [reflexivity | now rewrite IH]. Qed.

Lemma paragraph_exec (x : N) (X : jsstring) :
  Forall (fun c => is_line_terminator c = false) (x :: X) ->
  matches flags_gm block_starts
          {| pos := 0; before := None; input := x :: X; caps := [] |} = [] ->
  exec flags_gm re_paragraph None (x :: X)
  = Some (S (List.length X), [(1, (0, S (List.length X)))]).
Proof.
  intros Hall Hlook. inversion Hall as [|? ? Hx HX]; subst.
  unfold exec, re_paragraph. cbn [RSeqs].
  rewrite matches_seq, matches_bol_start. cbn [flat_map].
  rewrite app_nil_r, matches_seq, (@matches_neglook flags_gm _ _ Hlook).
  cbn [flat_map]. rewrite app_nil_r.
  rewrite matches_seq, matches_group, flat_map_map.
  rewrite (@plus_run flags_gm _ _ x X []);
    [ | simpl; now rewrite app_nil_r | simpl; now rewrite Hx | | exact I | ].
  - unfold adv, set_cap. simpl. now rewrite !Nat.add_0_r.
  - apply Forall_forall. intros d Hd. rewrite Forall_forall in HX.
    simpl. now rewrite (HX d Hd).
  - intros st' [d [rest [Hi [Hd _]]]]. rewrite Forall_forall in HX.
    cbn [matches]. unfold at_eol. simpl. rewrite Hi.
    now rewrite (HX d Hd).
Qed.

Lemma paragraph_wraps (x : N) (X : jsstring) :
  Forall (fun c => is_line_terminator c = false) (x :: X) ->
  matches flags_gm block_starts
          {| pos := 0; before := None; input := x :: X; caps := [] |} = [] ->
  replace flags_gm re_paragraph (wrap "p") (x :: X)
  = js "<p>" ++ (x :: X) ++ js "</p>".
Proof.
  intros Hall Hlook.
  change (replace flags_gm re_paragraph (wrap "p") ?s)
    with (scan flags_gm re_paragraph (wrap "p") 0 None s).
  rewrite (@scan_match flags_gm re_paragraph (wrap "p") _ _ _ _ _
             (paragraph_exec Hall Hlook)).
  rewrite scan_skip_all, scan_end.
  - rewrite app_nil_r. unfold wrap. cbn [expand cap_lookup Nat.eqb].
    rewrite !map_id, app_nil_r. unfold slice. cbn [skipn].
    change (S (List.length X)) with (List.length (x :: X)).
    now rewrite firstn_all.
  - destruct (prev_after_in X x) as [c [-> Hc]].
    rewrite Forall_forall in Hall. specialize (Hall c Hc).
    unfold can_start. cbn. now rewrite Hall.
Qed.

(** *** The stage of white space *)

Lemma spaces_exec_none (prev : option N) (c : N) (rest : jsstring) :
  is_space c = false -> exec flags_g re_spaces prev (c :: rest) = None.
Proof.
  intros Hc. apply cannot_start. unfold can_start. cbn. now rewrite Hc.
Qed.

Lemma spaces_exec_one (prev : option N) (c d : N) (rest : jsstring) :
  is_space c = true -> is_space d = false ->
  exec flags_g re_spaces prev (c :: d :: rest) = Some (1, []).
Proof.
  intros Hc Hd. unfold exec, re_spaces.
  rewrite <- (flat_map_unit (matches flags_g (RPlus true CSpace) _)).
  rewrite (@plus_run flags_g _ _ c [] (d :: rest));
    [reflexivity | reflexivity | exact Hc | constructor | exact Hd | ].
  intros st' [x [r [_ [[] _]]]].
Qed.

Lemma spaces_same (s : jsstring) :
  single_spaced s = true ->
  forall prev, scan flags_g re_spaces [TLit (js " ")] 0 prev s = s.
Proof.
  induction s as [|c s IH]; intros Hs prev.
  - apply scan_end. reflexivity.
  - cbn [single_spaced] in Hs. apply andb_true_iff in Hs. destruct Hs as [Hc Hs].
    destruct (is_space c) eqn:Ec.
    + apply andb_true_iff in Hc. destruct Hc as [Hc Hd].
      apply N.eqb_eq in Hc. subst c.
      destruct s as [|d s]; [discriminate|]. apply negb_true_iff in Hd.
      rewrite (@scan_match flags_g re_spaces [TLit (js " ")] _ _ _ _ _
                 (@spaces_exec_one prev 32%N d s Ec Hd)).
      cbn [expand]. rewrite map_id. simpl app. f_equal. now apply IH.
    + rewrite (@scan_no_match flags_g re_spaces [TLit (js " ")] _ _ _
                 (@spaces_exec_none prev c s Ec)).
      f_equal. now apply IH.
Qed.

Lemma single_spaced_app (a b : jsstring) :
  single_spaced a = true -> single_spaced (a ++ b) = single_spaced b.
Proof.
  induction a as [|c a IH]; intros Ha; [reflexivity|].
  cbn [single_spaced] in Ha. apply andb_true_iff in Ha. destruct Ha as [Hc Ha].
  simpl app. cbn [single_spaced]. rewrite (IH Ha).
  destruct (is_space c); [|reflexivity].
  apply andb_true_iff in Hc. destruct Hc as [Hc Hd]. rewrite Hc.
  destruct a as [|d a]; [discriminate|]. simpl. simpl in Hd. now rewrite Hd.
Qed.

Lemma single_spaced_no_space (a : jsstring) :
  Forall (fun c => is_space c = false) a -> single_spaced a = true.
Proof.
  induction 1 as [|c a Hc Ha IH]; [reflexivity|].
  cbn [single_spaced]. now rewrite Hc, IH.
Qed.

(** *** [trim] *)

Lemma trim_wrapped (a b : N) (X : jsstring) :
  is_space a = false -> is_space b = false ->
  trim ((a :: X) ++ [b]) = (a :: X) ++ [b].
Proof.
  intros Ha Hb. unfold trim, trim_gen, trim_end.
  simpl app. cbn [trim_start]. rewrite Ha.
  change (a :: X ++ [b]) with ((a :: X) ++ [b]).
  rewrite rev_unit. cbn [trim_start]. rewrite Hb.
  change (rev (b :: rev (a :: X))) with (rev (rev (a :: X)) ++ [b]).
  now rewrite rev_involutive.
Qed.

(** *** The end of the formatter on one line *)

Lemma format_nonempty (c : N) (s : jsstring) :
  format (c :: s)
  = trim (fold_left (run_stage (fun c => c) (fun c => c)) stages (c :: s)).
Proof. reflexivity. Qed.

(** The last two stages and [trim] on one line that is single spaced and
    does not start with a block: the line in a paragraph. *)
Lemma late_stages (x : N) (X : jsstring) :
  Forall (fun c => is_line_terminator c = false) (x :: X) ->
  matches flags_gm block_starts
          {| pos := 0; before := None; input := x :: X; caps := [] |} = [] ->
  single_spaced (x :: X) = true ->
  trim (fold_left (run_stage (fun c => c) (fun c => c))
                  [ (flags_gm, re_paragraph, wrap "p");
                    (flags_g, re_spaces, [TLit (js " ")]) ] (x :: X))
  = js "<p>" ++ (x :: X) ++ js "</p>".
Proof.
  intros Hall Hlook Hss. cbn [fold_left]. rewrite !run_stage_plain.
  rewrite (paragraph_wraps Hall Hlook).
  change (replace flags_g re_spaces [TLit (js " ")] ?s)
    with (scan flags_g re_spaces [TLit (js " ")] 0 None s).
  rewrite spaces_same.
  - replace (js "<p>" ++ (x :: X) ++ js "</p>")
      with ((chr "<" :: js "p>" ++ (x :: X) ++ js "</p") ++ [chr ">"]).
    + now apply trim_wrapped.
    + simpl. now rewrite <- app_assoc.
  - rewrite single_spaced_app by reflexivity.
    rewrite single_spaced_app by exact Hss. reflexivity.
Qed.

(** C9, as stated, fails: the URL of this span begins with [http://], and
    the span is not turned into an anchor. *)
Lemma format_link_span_counterexample :
  starts_with (js "http://") (js "http://") = true
  /\ format (span (js "x") (js "http://")) = js "<p>[x](http://)</p>"
  /\ includes (format (span (js "x") (js "http://"))) (js "<a ") = false.
Proof. vm_compute. repeat split. Qed.

End LinkFacts.

(** ** The formatter on three inputs *)

Module Examples.

Local Open Scope string_scope.
Local Open Scope list_scope.

(** C2.  Two bulleted lines separated by a line feed come out as one list
    item that holds both lines, inside a bulleted and a numbered
    container: the line feed is replaced by a break before the items are
    looked for, so the second line does not start a line any more.  Where
    items are found (here with carriage returns between the lines), the
    container goes from the first item to the last one, over the text
    between two runs. *)
Theorem bulleted_lines_become_one_item :
  format (js "- a" ++ [10%N] ++ js "- b")
  = js "<ul><ol><li>a<br>- b</li></ol></ul>"
  /\ count_word (js "<li>") (format (js "- a" ++ [10%N] ++ js "- b")) = 1
  /\ format (js "- a" ++ [13%N] ++ js "text" ++ [13%N] ++ js "- b")
     = js "<ul><ol><li>a</li> <p>text</p> <li>b</li></ol></ul>".
Proof. vm_compute. repeat split. Qed.

(** C3.  A heading line becomes a level-1 heading, and the paragraph stage
    wraps it once more: the tags its lookahead lets through do not include
    the headings. *)
Theorem heading_is_wrapped_in_paragraph :
  format (js "# Title") = js "<p><h1>Title</h1></p>".
Proof. vm_compute. reflexivity. Qed.

End Examples.

(** ** [trim] *)

Module TrimFacts.
Import StringFacts Further.

Section Trim.
Variable A : Type.
Variable code : A -> N.

Lemma trim_start_blank (s : list A) :
  trim_start code s = [] <-> blank code s = true.
Proof.
  induction s as [|c s IH]; simpl; [tauto|].
  destruct (is_space (code c)); simpl; [exact IH|].
  split; discriminate.
Qed.

Lemma trim_start_app (a b : list A) :
  trim_start code (a ++ b)
  = match trim_start code a with
    | [] => trim_start code b
    | y => y ++ b
    end.
Proof.
  induction a as [|c a IH]; simpl.
  - now destruct (trim_start code b).
  - destruct (is_space (code c)); [exact IH | reflexivity].
Qed.

Lemma trim_end_cons (c : A) (x : list A) :
  trim_end code (c :: x)
  = match trim_end code x with
    | [] => if is_space (code c) then [] else [c]
    | y => c :: y
    end.
Proof.
  unfold trim_end. simpl rev. rewrite trim_start_app.
  destruct (trim_start code (rev x)) as [|d y] eqn:E.
  - simpl. now destruct (is_space (code c)).
  - rewrite rev_app_distr. simpl.
    destruct (rev y ++ [d]) eqn:E'; [|reflexivity].
    now destruct (rev y).
Qed.

Lemma trim_end_blank (x : list A) :
  trim_end code x = [] <-> blank code x = true.
Proof.
  induction x as [|c x IH]; [simpl; tauto|].
  rewrite trim_end_cons. simpl.
  destruct (trim_end code x) as [|d y].
  - destruct (is_space (code c)); simpl.
    + exact IH.
    + split; discriminate.
  - split; [discriminate|]. intros H. apply andb_true_iff in H.
    destruct H as [_ H]. apply IH in H. discriminate.
Qed.

(** [trim] keeps the first character that is not white space. *)
Lemma trim_end_head (c : A) (x : list A) :
  is_space (code c) = false ->
  exists y, trim_end code (c :: x) = c :: y.
Proof.
  intros Hc. rewrite trim_end_cons.
  destruct (trim_end code x) as [|d y]; [rewrite Hc|]; eauto.
Qed.

Lemma trim_start_head (s : list A) :
  match trim_start code s with
  | [] => True
  | c :: _ => is_space (code c) = false
  end.
Proof.
  induction s as [|c s IH]; simpl; [exact I|].
  destruct (is_space (code c)) eqn:E; [exact IH | exact E].
Qed.

(** The result of [trim] is empty exactly for a string of white space. *)
Lemma trim_blank (s : list A) : trim_gen code s = [] <-> blank code s = true.
Proof.
  unfold trim_gen. rewrite <- trim_start_blank.
  pose proof (trim_start_head s) as Hh.
  destruct (trim_start code s) as [|c y]; [simpl; tauto|].
  destruct (@trim_end_head c y Hh) as [z ->]. split; discriminate.
Qed.

(** The result of [trim] does not begin with white space. *)
Lemma trim_head (s : list A) :
  match trim_gen code s with
  | [] => True
  | c :: _ => is_space (code c) = false
  end.
Proof.
  unfold trim_gen. pose proof (trim_start_head s) as Hh.
  destruct (trim_start code s) as [|c y]; [exact I|].
  destruct (@trim_end_head c y Hh) as [z ->]. exact Hh.
Qed.

(** The result of [trim] does not end with white space. *)
Lemma trim_end_last (x : list A) :
  forall y c, trim_end code x = y ++ [c] -> is_space (code c) = false.
Proof.
  unfold trim_end. intros y c H.
  pose proof (trim_start_head (rev x)) as Hh.
  destruct (trim_start code (rev x)) as [|d z]; simpl in H.
  - destruct y; discriminate.
  - apply app_inj_tail in H. destruct H as [_ <-]. exact Hh.
Qed.

Lemma trim_last (s : list A) :
  forall y c, trim_gen code s = y ++ [c] -> is_space (code c) = false.
Proof. unfold trim_gen. apply trim_end_last. Qed.
End Trim.

End TrimFacts.

(** ** More on one exchange *)

Module ExchangeFacts.
Import StringFacts TrimFacts Chat ChatFacts Further.

Local Open Scope string_scope.
Local Open Scope list_scope.
Local Arguments format : simpl never.
Local Arguments trim : simpl never.
Local Arguments JSON.stringify : simpl never.

(** *** The answer *)

(** X1.  When the status is 2xx and the field [result] of the body is a
    string that is not empty, the pending entry of the log holds, as its
    markup, the formatter's rendering of that string, and is no longer
    pending; every other entry is as it was; nothing is logged, and the
    field and the button are enabled, with the focus on the field. *)
Theorem string_result_is_shown
        (p : page) (el : nat) (e0 : element) (r : response)
        (props : list (jsstring * value)) (c : N) (s : jsstring) :
  pending_at p el e0 ->
  ok r = true ->
  json r = Some (VObj props) ->
  own_property props (js "result") = VStr (c :: s) ->
  exists p' e',
    resume el (Responded r) p = (Ok tt, p')
    /\ p' = settled_page el e0 (format (c :: s)) [] p
    /\ nth_error (chatBox p') el = Some e'
    /\ shown e' = InnerHTML (format (c :: s))
    /\ temporary e' = None
    /\ (forall i, i <> el -> nth_error (chatBox p') i = nth_error (chatBox p) i)
    /\ console p' = console p
    /\ inputDisabled p' = false /\ buttonDisabled p' = false
    /\ inputFocused p' = true.
Proof.
  intros H Hok Hjson Hres.
  destruct (@settled_log p el e0 (format (c :: s)) [] H)
    as [e' [Hnth [Hshown [Htmp Hothers]]]].
  exists (settled_page el e0 (format (c :: s)) [] p), e'. split.
  - apply resume_replaced.
    rewrite (@try_result p el r (VObj props) (VStr (c :: s)) Hok Hjson);
      try reflexivity.
    + now apply replace_pending.
    + simpl. now rewrite Hres.
  - split; [reflexivity|]. split; [exact Hnth|]. split; [exact Hshown|].
    split; [exact Htmp|]. split; [exact Hothers|].
    unfold settled_page. cbn [console inputDisabled buttonDisabled inputFocused].
    rewrite app_nil_r. repeat split.
Qed.

Lemma string_result_is_shown_witness :
  exists p' e',
    resume 1
      (Responded {| status := 200;
                    json := Some (VObj [(js "result", VStr (js "hi there"))]) |})
      (submitted_page (js "hello") initial)
    = (Ok tt, p')
    /\ p' = settled_page 1 thinking_element (format (js "hi there")) []
                         (submitted_page (js "hello") initial)
    /\ nth_error (chatBox p') 1 = Some e'
    /\ shown e' = InnerHTML (format (js "hi there"))
    /\ temporary e' = None
    /\ (forall i, i <> 1 ->
                  nth_error (chatBox p') i
                  = nth_error (chatBox (submitted_page (js "hello") initial)) i)
    /\ console p' = console (submitted_page (js "hello") initial)
    /\ inputDisabled p' = false /\ buttonDisabled p' = false
    /\ inputFocused p' = true.
Proof.
  apply string_result_is_shown with (props := [(js "result", VStr (js "hi there"))]).
  - split; reflexivity.
  - reflexivity.
  - reflexivity.
  - reflexivity.
Defined.

Lemma formatMessageText_not_string (v : value) :
  truthy v = true -> (forall s, v <> VStr s) ->
  exists detail, formatMessageText v = Throw (TypeError detail).
Proof.
  intros Ht Hs. unfold formatMessageText. rewrite Ht. simpl.
  destruct v; try (eexists; reflexivity). exfalso. now apply (Hs s).
Qed.

(** X2.  When the status is 2xx and the field [result] is truthy but not
    a string (a number, [true], an array, an object), the formatter throws
    a [TypeError] on it, inside the [try] block and before the entry is
    touched; the [catch] block logs that error, and the pending entry of
    the log then holds, as its markup, a paragraph holding exactly
    [Failed to get response from server.], and is no longer pending. *)
Theorem result_that_is_no_string_fails
        (p : page) (el : nat) (e0 : element) (r : response)
        (props : list (jsstring * value)) :
  pending_at p el e0 ->
  ok r = true ->
  json r = Some (VObj props) ->
  truthy (own_property props (js "result")) = true ->
  (forall s, own_property props (js "result") <> VStr s) ->
  exists detail p' e',
    formatMessageText (own_property props (js "result"))
    = Throw (TypeError detail)
    /\ resume el (Responded r) p = (Ok tt, p')
    /\ nth_error (chatBox p') el = Some e'
    /\ shown e' = InnerHTML (js "<p>Failed to get response from server.</p>")
    /\ temporary e' = None
    /\ (forall i, i <> el -> nth_error (chatBox p') i = nth_error (chatBox p) i)
    /\ console p'
       = console p ++ [(js "Error sending message to API:", TypeError detail)]
    /\ inputDisabled p' = false /\ buttonDisabled p' = false
    /\ inputFocused p' = true.
Proof.
  intros H Hok Hjson Ht Hs.
  destruct (@formatMessageText_not_string _ Ht Hs) as [detail Hthrow].
  destruct (@settled_log p el e0 (format failed_text)
              [(js "Error sending message to API:", TypeError detail)] H)
    as [e' [Hnth [Hshown [Htmp Hothers]]]].
  exists detail,
    (settled_page el e0 (format failed_text)
                  [(js "Error sending message to API:", TypeError detail)] p),
    e'.
  split; [exact Hthrow|]. split.
  - apply (@resume_caught p el e0 (Responded r) _ [] H).
    rewrite (@try_result p el r (VObj props) _ Hok Hjson eq_refl eq_refl Ht).
    rewrite logged_nil.
    now apply replace_pending_throws with e0.
  - split; [exact Hnth|]. split; [now rewrite Hshown, format_failed_text|].
    split; [exact Htmp|]. split; [exact Hothers|]. repeat split.
Qed.

Lemma result_that_is_no_string_fails_witness :
  exists detail p' e',
    formatMessageText (own_property [(js "result", VBool true)] (js "result"))
    = Throw (TypeError detail)
    /\ resume 1
         (Responded {| status := 200;
                       json := Some (VObj [(js "result", VBool true)]) |})
         (submitted_page (js "hello") initial)
       = (Ok tt, p')
    /\ nth_error (chatBox p') 1 = Some e'
    /\ shown e' = InnerHTML (js "<p>Failed to get response from server.</p>")
    /\ temporary e' = None
    /\ (forall i, i <> 1 ->
                  nth_error (chatBox p') i
                  = nth_error (chatBox (submitted_page (js "hello") initial)) i)
    /\ console p'
       = console (submitted_page (js "hello") initial)
         ++ [(js "Error sending message to API:", TypeError detail)]
    /\ inputDisabled p' = false /\ buttonDisabled p' = false
    /\ inputFocused p' = true.
Proof.
  apply result_that_is_no_string_fails
    with (e0 := thinking_element) (props := [(js "result", VBool true)]).
  - split; reflexivity.
  - reflexivity.
  - reflexivity.
  - reflexivity.
  - intros s. discriminate.
Defined.

(** *** The submission *)

Lemma format_thinking : format (js "Thinking...") = js "<p>Thinking...</p>".
Proof. vm_compute. reflexivity. Qed.

(** X3.  A submission whose trimmed text is not empty appends two entries
    to the log and nothing else: the trimmed text as the text of a user
    entry (never as markup), with no white space at either end, and the
    pending placeholder; it empties the field, disables the field and the
    button, logs nothing, and returns the placeholder, the last entry of
    the log. *)
Theorem submission_effect (p : page) (c : N) (u : jsstring) :
  trim (inputValue p) = c :: u ->
  exists p',
    submit p = (Ok (Some (S (List.length (chatBox p)))), p')
    /\ chatBox p'
       = chatBox p ++
         [ {| classList := [js "chat-message"; js "user"];
              shown := TextContent (c :: u);
              temporary := None |};
           {| classList := [js "chat-message"; js "bot"; js "thinking"];
              shown := InnerHTML (js "<p>Thinking...</p>");
              temporary := Some (js "true") |} ]
    /\ is_space c = false
    /\ (forall y d, c :: u = y ++ [d] -> is_space d = false)
    /\ inputValue p' = []
    /\ inputDisabled p' = true /\ buttonDisabled p' = true
    /\ console p' = console p.
Proof.
  intros H. exists (submitted_page (c :: u) p).
  split; [now apply submit_nonempty|]. split.
  - unfold submitted_page, thinking_element, user_element. cbn [chatBox].
    rewrite format_thinking. now rewrite <- app_assoc.
  - split.
    + pose proof (trim_head (fun x : N => x) (inputValue p)) as Hh.
      unfold trim in H. now rewrite H in Hh.
    + split; [|now repeat split].
      intros y d Hy. apply (trim_last (fun x : N => x) (inputValue p) y).
      unfold trim in H. now rewrite H.
Qed.

Lemma submission_effect_witness :
  trim (inputValue (set_inputValue (js "  <b>hi</b> ") initial)) = js "<b>hi</b>"
  /\ exists p',
       submit (set_inputValue (js "  <b>hi</b> ") initial) = (Ok (Some 1), p')
       /\ map shown (chatBox p')
          = [TextContent (js "<b>hi</b>"); InnerHTML (js "<p>Thinking...</p>")].
Proof.
  split; [vm_compute; reflexivity|].
  destruct (@submission_effect (set_inputValue (js "  <b>hi</b> ") initial)
              60%N (js "b>hi</b>")) as [p' [Hs [Hc _]]].
  - vm_compute. reflexivity.
  - exists p'. split; [exact Hs|]. rewrite Hc. reflexivity.
Defined.

(** X4.  The handler ignores a submission exactly when the field holds
    nothing but white space: then, and only then, it returns without a
    placeholder, and the page is as it was. *)
Theorem ignored_exactly_when_blank (p : page) :
  blank (fun c : N => c) (inputValue p) = true
  <-> submit p = (Ok None, p).
Proof.
  rewrite <- (trim_blank (fun c : N => c)). fold trim. split.
  - apply submit_empty.
  - intros H. destruct (trim (inputValue p)) as [|c u] eqn:E; [reflexivity|].
    rewrite (@submit_nonempty _ _ _ E) in H. discriminate.
Qed.

(** *** What the handler leaves alone *)

(** X5.  Whatever the outcome of the call, the handler changes one thing
    in the log, the pending entry, which it replaces and marks as no longer
    pending: the log keeps its length and its other entries, no further
    request is sent, the value of the field is kept, and the console only
    grows. *)
Theorem resume_frame (p : page) (el : nat) (e0 : element) (o : settled) :
  pending_at p el e0 ->
  exists p' html log,
    resume el o p = (Ok tt, p')
    /\ List.length (chatBox p') = List.length (chatBox p)
    /\ (forall i, i <> el -> nth_error (chatBox p') i = nth_error (chatBox p) i)
    /\ nth_error (chatBox p') el = Some (replaced e0 html)
    /\ pending (replaced e0 html) = false
    /\ fetched p' = fetched p
    /\ inputValue p' = inputValue p
    /\ console p' = console p ++ log.
Proof.
  intros H. destruct (@resume_settles p el e0 o H) as [html [log Hr]].
  exists (settled_page el e0 html log p), html, log.
  split; [exact Hr|]. unfold settled_page. cbn [chatBox fetched inputValue console].
  split; [apply length_set_nth|]. split.
  - intros i Hi. apply nth_error_set_nth_other. congruence.
  - split; [apply nth_error_set_nth with e0; apply H|]. now repeat split.
Qed.

Lemma resume_frame_witness :
  exists p' html log,
    resume 1 (Rejected (js "offline")) (submitted_page (js "hello") initial)
    = (Ok tt, p')
    /\ List.length (chatBox p')
       = List.length (chatBox (submitted_page (js "hello") initial))
    /\ (forall i, i <> 1 ->
                  nth_error (chatBox p') i
                  = nth_error (chatBox (submitted_page (js "hello") initial)) i)
    /\ nth_error (chatBox p') 1 = Some (replaced thinking_element html)
    /\ pending (replaced thinking_element html) = false
    /\ fetched p' = fetched (submitted_page (js "hello") initial)
    /\ inputValue p' = inputValue (submitted_page (js "hello") initial)
    /\ console p' = console (submitted_page (js "hello") initial) ++ log.
Proof.
  apply resume_frame. split; reflexivity.
Defined.

(** X6.  An entry is replaced once: after [replaceTemporaryMessage] has
    replaced a pending entry, a second call on the same entry does nothing,
    whatever its argument, also one on which the formatter would throw. *)
Theorem replaced_once (p : page) (el : nat) (e0 : element) (v v' : value)
        (html : jsstring) :
  pending_at p el e0 ->
  formatMessageText v = Ok html ->
  bind (replaceTemporaryMessage el v)
       (fun _ => replaceTemporaryMessage el v') p
  = replaceTemporaryMessage el v p.
Proof.
  intros H Hf. unfold bind at 1. rewrite (@replace_pending _ _ _ _ _ H Hf).
  unfold replaceTemporaryMessage, bind, read, replaced_page.
  cbn [chatBox set_scrolledToEnd set_chatBox].
  rewrite (@nth_error_set_nth _ _ (replaced e0 html) _ (proj1 H)).
  reflexivity.
Qed.

Lemma replaced_once_witness :
  bind (replaceTemporaryMessage 1 (VStr (js "hi")))
       (fun _ => replaceTemporaryMessage 1 (VBool true))
       (submitted_page (js "hello") initial)
  = replaceTemporaryMessage 1 (VStr (js "hi"))
      (submitted_page (js "hello") initial).
Proof.
  apply replaced_once with (e0 := thinking_element) (html := format (js "hi")).
  - split; reflexivity.
  - reflexivity.
Defined.

(** *** The message of the error for a status that is not 2xx *)

Lemma get_property_of (data : value) (name : jsstring) :
  data <> VNull -> data <> VUndefined ->
  get data name = Ok (property_of data name).
Proof. intros H1 H2. destruct data; try reflexivity; congruence. Qed.

Lemma get_opt_property_of (v : value) (name : jsstring) :
  get_opt v name = Ok (property_of v name).
Proof. destruct v; reflexivity. Qed.

Lemma error_message_of_body (r : response) (data : value) (p : page) :
  json r = Some data -> data <> VNull -> data <> VUndefined ->
  error_message r p
  = (Ok (or_else (property_of (property_of data (js "error")) (js "message"))
                 (or_else (property_of data (js "message")) (default_message r))),
     p).
Proof.
  intros Hjson H1 H2.
  unfold error_message, try_catch, bind, read_json, lift, ret.
  rewrite Hjson, (@get_property_of _ _ H1 H2), get_opt_property_of.
  destruct (truthy (property_of (property_of data (js "error")) (js "message")))
    eqn:E.
  - unfold or_else at 1. now rewrite E.
  - rewrite (@get_property_of _ _ H1 H2).
    unfold or_else at 2. now rewrite E.
Qed.

(** X7.  For a status that is not 2xx and a JSON body other than [null],
    the message of the error is [error.message] of the body when that is
    truthy, else [message] of the body when that is truthy, else the text
    with the status.  When the value chosen so is a string [msg], the only
    thing logged is an [Error] with the message [msg]; the pending entry of
    the log holds, as its markup, a paragraph holding exactly
    [Failed to get response from server.], whatever [msg] is, and is no
    longer pending. *)
Theorem error_message_precedence
        (p : page) (el : nat) (e0 : element) (r : response) (data : value)
        (msg : jsstring) :
  pending_at p el e0 ->
  ok r = false ->
  json r = Some data -> data <> VNull -> data <> VUndefined ->
  or_else (property_of (property_of data (js "error")) (js "message"))
    (or_else (property_of data (js "message"))
       (VStr (js "HTTP error! status: " ++ decimal (status r))))
  = VStr msg ->
  exists p' e',
    resume el (Responded r) p = (Ok tt, p')
    /\ nth_error (chatBox p') el = Some e'
    /\ shown e' = InnerHTML (js "<p>Failed to get response from server.</p>")
    /\ temporary e' = None
    /\ (forall i, i <> el -> nth_error (chatBox p') i = nth_error (chatBox p) i)
    /\ console p'
       = console p
         ++ [(js "Error sending message to API:", ErrorOf (VStr msg))].
Proof.
  intros H Hok Hjson H1 H2 Hmsg.
  destruct (@settled_log p el e0 (format failed_text)
              [(js "Error sending message to API:", ErrorOf (VStr msg))] H)
    as [e' [Hnth [Hshown [Htmp Hothers]]]].
  exists (settled_page el e0 (format failed_text)
            [(js "Error sending message to API:", ErrorOf (VStr msg))] p), e'.
  split.
  - apply (@resume_caught p el e0 (Responded r) _ [] H).
    unfold try_block, bind, ret, throw. rewrite Hok. simpl.
    rewrite (@error_message_of_body _ _ p Hjson H1 H2).
    unfold default_message. rewrite Hmsg. now rewrite logged_nil.
  - split; [exact Hnth|]. split; [now rewrite Hshown, format_failed_text|].
    split; [exact Htmp|]. split; [exact Hothers | reflexivity].
Qed.

Lemma error_message_precedence_witness :
  exists p' e',
    resume 1
      (Responded
         {| status := 429;
            json := Some (VObj [(js "error",
                                 VObj [(js "message", VStr (js "slow down"))]);
                                (js "message", VStr (js "other"))]) |})
      (submitted_page (js "hello") initial)
    = (Ok tt, p')
    /\ nth_error (chatBox p') 1 = Some e'
    /\ shown e' = InnerHTML (js "<p>Failed to get response from server.</p>")
    /\ temporary e' = None
    /\ (forall i, i <> 1 ->
                  nth_error (chatBox p') i
                  = nth_error (chatBox (submitted_page (js "hello") initial)) i)
    /\ console p'
       = console (submitted_page (js "hello") initial)
         ++ [(js "Error sending message to API:",
              ErrorOf (VStr (js "slow down")))].
Proof.
  apply (@error_message_precedence (submitted_page (js "hello") initial) 1
           thinking_element
           {| status := 429;
              json := Some (VObj [(js "error",
                                   VObj [(js "message", VStr (js "slow down"))]);
                                  (js "message", VStr (js "other"))]) |}
           (VObj [(js "error", VObj [(js "message", VStr (js "slow down"))]);
                  (js "message", VStr (js "other"))])
           (js "slow down")).
  - split; reflexivity.
  - reflexivity.
  - reflexivity.
  - discriminate.
  - discriminate.
  - reflexivity.
Defined.

(** X8.  For a status that is not 2xx whose body is not JSON, or is the
    JSON [null], reading the message fails inside the inner [try]: that
    failure is logged, and the error of the exchange carries the text with
    the status, as in [HTTP error! status: 502]. *)
Theorem error_body_unreadable
        (p : page) (el : nat) (e0 : element) (r : response) :
  pending_at p el e0 ->
  ok r = false ->
  json r = None \/ json r = Some VNull ->
  exists inner,
    resume el (Responded r) p
    = (Ok tt,
       settled_page el e0 (format failed_text)
         [(js "Failed to parse error response JSON:", inner);
          (js "Error sending message to API:",
           ErrorOf (VStr (js "HTTP error! status: " ++ decimal (status r))))]
         p).
Proof.
  intros H Hok Hbody.
  assert (exists inner,
             error_message r p
             = (Ok (default_message r),
                logged [(js "Failed to parse error response JSON:", inner)] p))
    as [inner Hmsg].
  { unfold error_message, try_catch, bind, read_json, lift, ret, throw,
      console_error, update.
    destruct Hbody as [-> | ->]; eexists; reflexivity. }
  exists inner.
  apply (@resume_caught p el e0 (Responded r) _
           [(js "Failed to parse error response JSON:", inner)] H).
  unfold try_block, bind, ret, throw. rewrite Hok. simpl.
  now rewrite Hmsg.
Qed.

Lemma error_body_unreadable_witness :
  exists inner,
    resume 1 (Responded {| status := 502; json := None |})
           (submitted_page (js "hello") initial)
    = (Ok tt,
       settled_page 1 thinking_element (format failed_text)
         [(js "Failed to parse error response JSON:", inner);
          (js "Error sending message to API:",
           ErrorOf (VStr (js "HTTP error! status: 502")))]
         (submitted_page (js "hello") initial)).
Proof.
  apply (@error_body_unreadable (submitted_page (js "hello") initial) 1
           thinking_element {| status := 502; json := None |}).
  - split; reflexivity.
  - reflexivity.
  - left. reflexivity.
Defined.

End ExchangeFacts.

(** ** The log over time *)

Module LogFacts.
Import StringFacts Chat ChatFacts Further ExchangeFacts.

Local Open Scope string_scope.
Local Open Scope list_scope.
Local Arguments format : simpl never.
Local Arguments trim : simpl never.
Local Arguments JSON.stringify : simpl never.
Local Arguments the_request : simpl never.

Lemma pair_induction (P : list element -> Prop) :
  P [] -> (forall x, P [x]) -> (forall x y l, P l -> P (x :: y :: l)) ->
  forall l, P l.
Proof.
  intros H0 H1 H2 l.
  assert (P l /\ forall x, P (x :: l)) as [H _]; [|exact H].
  induction l as [|y l [IH IH']]; split; auto.
Qed.

Lemma user_texts_app (l l' : list element) :
  user_texts (l ++ l') = user_texts l ++ user_texts l'.
Proof.
  induction l as [|e l IH]; [reflexivity|]. simpl.
  destruct (shown e); rewrite IH; reflexivity.
Qed.

Lemma alternating_app (l : list element) (u b : element) :
  alternating l = true ->
  alternating (l ++ [u; b]) = is_user_entry u && is_bot_entry b.
Proof.
  induction l as [| |x y l IH] using pair_induction; intros H.
  - simpl. now rewrite andb_true_r.
  - discriminate.
  - simpl in H. apply andb_prop in H as [Hxy Hl].
    change ((x :: y :: l) ++ [u; b]) with (x :: y :: (l ++ [u; b])).
    cbn [alternating]. rewrite Hxy. now apply IH.
Qed.

(** Replacing an entry that is no user entry by a bot entry keeps the
    alternation and the user texts. *)
Lemma alternating_set_nth (l : list element) :
  forall el e0 e',
    alternating l = true ->
    nth_error l el = Some e0 ->
    is_user_entry e0 = false ->
    is_bot_entry e' = true ->
    alternating (set_nth el e' l) = true
    /\ user_texts (set_nth el e' l) = user_texts l.
Proof.
  induction l as [| |x y l IH] using pair_induction;
    intros el e0 e' H Hnth Hu Hb.
  - destruct el; discriminate.
  - discriminate.
  - simpl in H. apply andb_prop in H as [Hxy Hl].
    apply andb_prop in Hxy as [Hx Hy].
    destruct el as [|[|el]]; simpl in Hnth.
    + injection Hnth as <-. congruence.
    + injection Hnth as <-. cbn [set_nth alternating user_texts].
      rewrite Hx, Hb, Hl. split; [reflexivity|].
      unfold is_bot_entry in Hy, Hb.
      destruct (shown x); destruct (shown y); try discriminate;
        destruct (shown e'); try discriminate; reflexivity.
    + destruct (IH el e0 e' Hl Hnth Hu Hb) as [Ha Ht].
      cbn [set_nth alternating user_texts]. rewrite Hx, Hy, Ha, Ht.
      split; reflexivity.
Qed.

Lemma pending_not_user (e : element) :
  temporary e = Some (js "true") -> is_user_entry e = false.
Proof. intros H. unfold is_user_entry. rewrite H. now destruct (shown e). Qed.

Lemma tidy_start : tidy start.
Proof.
  repeat split. intros el [].
Qed.

Lemma tidy_step (w w' : world) :
  single_flight w -> tidy w -> step w w' -> tidy w'.
Proof.
  intros Hsf [Ha [Hf [Hc [He Hl]]]] Hstep.
  destruct Hstep as [w text Hen | w r p' Hen Hsub | w el o r p' Hin Hres].
  - repeat split; assumption.
  - destruct Hsf as [[Hw _] | [el [e0 [_ [_ [_ [Hd Hb]]]]]]].
    2:{ destruct Hen; congruence. }
    destruct (trim (inputValue (the_page w))) as [|c u] eqn:Htrim.
    + rewrite (@submit_empty _ Htrim) in Hsub. injection Hsub as <- <-.
      repeat split; assumption.
    + rewrite (@submit_nonempty _ _ _ Htrim) in Hsub. injection Hsub as <- <-.
      unfold tidy, submitted_page.
      cbn [the_page waiting chatBox fetched inputDisabled buttonDisabled].
      rewrite <- app_assoc. cbn [app].
      split; [now rewrite (@alternating_app _ _ _ Ha)|].
      split.
      { rewrite user_texts_app, map_app, Hf. reflexivity. }
      split; [reflexivity|]. split.
      { rewrite Hw. discriminate. }
      rewrite Hw. intros el [<- | []].
      rewrite length_app. simpl. lia.
  - destruct Hsf as [[Hw _] | [el0 [e0 [Hw [Hp [_ [Hd Hb]]]]]]].
    { rewrite Hw in Hin. destruct Hin. }
    rewrite Hw in Hin. destruct Hin as [<- | []].
    destruct (@resume_settles (the_page w) el0 e0 o Hp) as [html [log Hr]].
    rewrite Hr in Hres. injection Hres as <- <-.
    destruct (@alternating_set_nth (chatBox (the_page w)) el0 e0
                (replaced e0 html) Ha (proj1 Hp)
                (@pending_not_user _ (proj2 Hp)) eq_refl) as [Ha' Ht'].
    unfold tidy, settled_page.
    cbn [the_page waiting chatBox fetched inputDisabled buttonDisabled].
    rewrite Ha', Ht', Hw. simpl. rewrite Nat.eqb_refl.
    repeat split; try assumption. intros el [].
Qed.

(** X9.  In every reachable state the log alternates between a user entry,
    shown as text, and a bot entry, shown as markup; the requests sent so
    far are those of the user entries, one each, in order and with the text
    of the entry; the field and the button are enabled or disabled
    together, and are enabled when no handler waits; and a handler that
    waits holds the last entry of the log. *)
Theorem reachable_tidy (w : world) :
  reachable w ->
  alternating (chatBox (the_page w)) = true
  /\ fetched (the_page w) = map the_request (user_texts (chatBox (the_page w)))
  /\ inputDisabled (the_page w) = buttonDisabled (the_page w)
  /\ (waiting w = [] -> inputDisabled (the_page w) = false)
  /\ (forall el, In el (waiting w) ->
                 S el = List.length (chatBox (the_page w))).
Proof.
  intros Hr. change (tidy w).
  induction Hr as [|w w' Hr IH Hstep].
  - apply tidy_start.
  - apply tidy_step with w; [now apply reachable_single_flight | exact IH | exact Hstep].
Qed.

Lemma reachable_tidy_witness :
  alternating (chatBox (submitted_page (js "hello") initial)) = true
  /\ fetched (submitted_page (js "hello") initial)
     = map the_request (user_texts (chatBox (submitted_page (js "hello") initial)))
  /\ inputDisabled (submitted_page (js "hello") initial)
     = buttonDisabled (submitted_page (js "hello") initial)
  /\ (@cons nat 1 nil = [] ->
      inputDisabled (submitted_page (js "hello") initial) = false)
  /\ (forall el, In el [1] ->
                 S el = List.length (chatBox (submitted_page (js "hello") initial))).
Proof.
  apply (@reachable_tidy
           {| the_page := submitted_page (js "hello") initial; waiting := [1] |}).
  apply reachable_step
    with {| the_page := set_inputValue (js "hello") initial; waiting := [] |}.
  - apply reachable_step with start; [apply reachable_start|].
    apply (@step_type start (js "hello")). reflexivity.
  - apply (@step_submit
             {| the_page := set_inputValue (js "hello") initial; waiting := [] |}
             (Ok (Some 1)) (submitted_page (js "hello") initial)).
    + left. reflexivity.
    + vm_compute. reflexivity.
Defined.

(** *** What the log shows as markup *)

Lemma formatMessageText_format (v : value) (html : jsstring) :
  formatMessageText v = Ok html -> exists text, html = format text.
Proof.
  unfold formatMessageText. destruct (truthy v); simpl.
  - destruct v; try discriminate. intros H. injection H as <-. now exists s.
  - intros H. injection H as <-. now exists [].
Qed.

Lemma resume_settles_format (p : page) el e0 (o : settled) :
  pending_at p el e0 ->
  exists text log,
    resume el o p = (Ok tt, settled_page el e0 (format text) log p).
Proof.
  intros H.
  assert (forall v,
             try_block el o p = replaceTemporaryMessage el v p ->
             exists text log,
               resume el o p = (Ok tt, settled_page el e0 (format text) log p))
    as Hrep.
  { intros v Htry. destruct (formatMessageText_cases v) as [[html Hf] | [e Hf]].
    - destruct (formatMessageText_format v Hf) as [text ->].
      exists text, []. apply resume_replaced.
      rewrite Htry. now apply replace_pending.
    - exists failed_text, ([] ++ [(js "Error sending message to API:", e)]).
      apply resume_caught; [exact H|].
      rewrite Htry, logged_nil. now apply replace_pending_throws with e0. }
  destruct o as [detail | r].
  - eexists failed_text, _. apply resume_caught; [exact H | apply try_rejected].
  - destruct (ok r) eqn:Hok.
    + destruct (json r) as [data|] eqn:Hjson.
      * destruct (truthy data) eqn:Ht.
        -- destruct (@get_truthy data (js "result") Ht) as [v Hget].
           destruct (truthy v) eqn:Hv.
           ++ apply (Hrep v). now apply try_result with data.
           ++ apply (Hrep (VStr sorry_text)). apply try_no_result with data; eauto.
        -- apply (Hrep (VStr sorry_text)). apply try_no_result with data; auto.
           congruence.
      * destruct (@try_not_json p el r Hok Hjson) as [e He].
        eexists failed_text, _. apply resume_caught; [exact H | exact He].
    + destruct (@try_not_ok p el r Hok) as [log [msg Hm]].
      eexists failed_text, _. apply resume_caught; [exact H | exact Hm].
Qed.

Lemma Forall_set_nth (P : element -> Prop) (l : list element) :
  forall i e, Forall P l -> P e -> Forall P (set_nth i e l).
Proof.
  induction l as [|x l IH]; intros [|i] e Hl He; simpl; auto;
    inversion Hl; subst; constructor; auto.
Qed.

Lemma formatted_step (w w' : world) :
  single_flight w ->
  Forall formatted (chatBox (the_page w)) -> step w w' ->
  Forall formatted (chatBox (the_page w')).
Proof.
  intros Hsf Hall Hstep.
  destruct Hstep as [w text Hen | w r p' Hen Hsub | w el o r p' Hin Hres].
  - exact Hall.
  - destruct (trim (inputValue (the_page w))) as [|c u] eqn:Htrim.
    + rewrite (@submit_empty _ Htrim) in Hsub. injection Hsub as <- <-.
      exact Hall.
    + rewrite (@submit_nonempty _ _ _ Htrim) in Hsub. injection Hsub as <- <-.
      unfold submitted_page. cbn [the_page chatBox].
      repeat (apply Forall_app; split); try assumption.
      * constructor; [exact I | constructor].
      * constructor; [|constructor]. now exists (js "Thinking...").
  - destruct Hsf as [[Hw _] | [el0 [e0 [Hw [Hp _]]]]].
    { rewrite Hw in Hin. destruct Hin. }
    rewrite Hw in Hin. destruct Hin as [<- | []].
    destruct (@resume_settles_format (the_page w) el0 e0 o Hp)
      as [text [log Hr]].
    rewrite Hr in Hres. injection Hres as <- <-.
    unfold settled_page. cbn [the_page chatBox].
    apply Forall_set_nth; [exact Hall|]. now exists text.
Qed.

(** X13.  In every reachable state, whatever the server answered, an entry
    of the log that is shown as markup holds a result of the formatter:
    the pending text, an answer, or one of the two fixed texts.  So no
    entry holds the text of an opening [script] tag as markup. *)
Theorem reachable_markup_is_formatted (w : world) (e : element) (html : jsstring) :
  reachable w ->
  In e (chatBox (the_page w)) ->
  shown e = InnerHTML html ->
  (exists text, html = format text) /\ ~ occurs lt_word html.
Proof.
  intros Hr Hin Hshown.
  assert (Forall formatted (chatBox (the_page w))) as Hall.
  { clear e Hin Hshown. induction Hr as [|w w' Hr IH Hstep].
    - constructor.
    - apply formatted_step with w;
        [now apply reachable_single_flight | exact IH | exact Hstep]. }
  rewrite Forall_forall in Hall. specialize (Hall e Hin).
  unfold formatted in Hall. rewrite Hshown in Hall.
  split; [exact Hall|]. destruct Hall as [text ->].
  apply FormatterFacts.format_no_script.
Qed.

Lemma reachable_markup_is_formatted_witness :
  (exists text, js "<p>Thinking...</p>" = format text)
  /\ ~ occurs lt_word (js "<p>Thinking...</p>").
Proof.
  apply (@reachable_markup_is_formatted
           {| the_page := submitted_page (js "hello") initial; waiting := [1] |}
           thinking_element (js "<p>Thinking...</p>")).
  - apply reachable_step
      with {| the_page := set_inputValue (js "hello") initial; waiting := [] |}.
    + apply reachable_step with start; [apply reachable_start|].
      apply (@step_type start (js "hello")). reflexivity.
    + apply (@step_submit
               {| the_page := set_inputValue (js "hello") initial; waiting := [] |}
               (Ok (Some 1)) (submitted_page (js "hello") initial)).
      * left. reflexivity.
      * vm_compute. reflexivity.
  - right. left. reflexivity.
  - vm_compute. reflexivity.
Defined.

End LogFacts.

(** ** White space in the result *)

Module SpacingFacts.
Import StringFacts TrimFacts MatchFacts FormatterFacts LinkFacts Further.

Local Open Scope string_scope.
Local Open Scope list_scope.

Local Arguments N.eqb : simpl never.
Local Arguments is_space : simpl never.
Local Arguments is_line_terminator : simpl never.

(** The pattern of white space takes the whole run. *)
Lemma spaces_exec_run (prev : option N) (c : N) (w tail : jsstring) :
  is_space c = true ->
  Forall (fun d => is_space d = true) w ->
  match tail with [] => True | d :: _ => is_space d = false end ->
  exec flags_g re_spaces prev (c :: w ++ tail) = Some (S (List.length w), []).
Proof.
  intros Hc Hw Htail. unfold exec, re_spaces, RPlus.
  rewrite matches_seq.
  rewrite (@matches_class flags_g CSpace
             {| pos := 0; before := prev; input := c :: w ++ tail; caps := [] |}
             c (w ++ tail) eq_refl Hc).
  cbn [flat_map]. rewrite app_nil_r, matches_star.
  cbn [adv pos before input caps List.length prev_after].
  destruct (@star_states_run flags_g CSpace w tail Hw Htail (1 + 0) (Some c) [])
    as [inter [Heq _]].
  rewrite Heq, rev_app_distr. cbn [rev app pos caps].
  f_equal. f_equal. lia.
Qed.

Lemma run_split (s : jsstring) :
  exists w tail,
    s = w ++ tail
    /\ Forall (fun d => is_space d = true) w
    /\ match tail with [] => True | d :: _ => is_space d = false end.
Proof.
  induction s as [|c s [w [tail [Hs [Hw Ht]]]]].
  - exists [], []. repeat split. constructor.
  - destruct (is_space c) eqn:Ec.
    + exists (c :: w), tail. subst s. repeat split; [|exact Ht].
      now constructor.
    + exists [], (c :: s). repeat split; [constructor | exact Ec].
Qed.

Lemma collapsed_scan (n : nat) :
  forall s prev,
    List.length s <= n ->
    collapsed (scan flags_g re_spaces [TLit (js " ")] 0 prev s) = true.
Proof.
  induction n as [|n IH]; intros s prev Hn.
  - destruct s; [|simpl in Hn; lia]. now rewrite scan_end.
  - destruct s as [|c s]; [now rewrite scan_end|].
    simpl in Hn. destruct (is_space c) eqn:Ec.
    + destruct (run_split s) as [w [tail [-> [Hw Ht]]]].
      rewrite (@scan_match flags_g re_spaces [TLit (js " ")] _ _ _ _ _
                 (@spaces_exec_run prev c w tail Ec Hw Ht)).
      rewrite scan_skip. cbn [expand]. rewrite map_id. simpl app.
      rewrite length_app in Hn.
      destruct tail as [|d tail].
      * now rewrite scan_end.
      * rewrite (@scan_no_match flags_g re_spaces [TLit (js " ")] _ _ _
                   (@spaces_exec_none _ d tail Ht)).
        cbn [collapsed]. rewrite Ht.
        change (is_space 32) with true. cbn [negb andb].
        rewrite N.eqb_refl. cbn [andb].
        assert (List.length (d :: tail) <= n) as Hlen by (simpl in *; lia).
        pose proof (IH (d :: tail) (prev_after (Some c) w) Hlen) as H.
        rewrite (@scan_no_match flags_g re_spaces [TLit (js " ")] _ _ _
                   (@spaces_exec_none _ d tail Ht)) in H.
        cbn [collapsed] in H. rewrite Ht in H. exact H.
    + rewrite (@scan_no_match flags_g re_spaces [TLit (js " ")] _ _ _
                 (@spaces_exec_none prev c s Ec)).
      cbn [collapsed]. rewrite Ec. apply IH. lia.
Qed.

Lemma collapsed_tail (a b : jsstring) :
  collapsed (a ++ b) = true -> collapsed b = true.
Proof.
  induction a as [|c a IH]; [auto|]. simpl app. cbn [collapsed].
  intros H. apply andb_true_iff in H. now apply IH.
Qed.

Lemma collapsed_front (a b : jsstring) :
  collapsed (a ++ b) = true -> collapsed a = true.
Proof.
  induction a as [|c a IH]; [reflexivity|]. simpl app. cbn [collapsed].
  intros H. apply andb_true_iff in H. destruct H as [Hc H].
  rewrite (IH H), andb_true_r.
  destruct (is_space c); [|reflexivity].
  apply andb_true_iff in Hc. destruct Hc as [Hc Hd]. rewrite Hc.
  destruct a as [|d a]; [reflexivity | exact Hd].
Qed.

Lemma collapsed_single_spaced (y : jsstring) :
  collapsed y = true ->
  (forall y' d, y = y' ++ [d] -> is_space d = false) ->
  single_spaced y = true.
Proof.
  induction y as [|c y IH]; intros Hc Hlast; [reflexivity|].
  cbn [collapsed] in Hc. apply andb_true_iff in Hc. destruct Hc as [Hc Hy].
  cbn [single_spaced]. rewrite IH; [|exact Hy|].
  - rewrite andb_true_r. destruct (is_space c) eqn:Ec; [|reflexivity].
    apply andb_true_iff in Hc. destruct Hc as [Hc Hd]. rewrite Hc.
    destruct y as [|d y]; [|exact Hd].
    specialize (Hlast [] c eq_refl). congruence.
  - intros y' d ->. apply (Hlast (c :: y') d). reflexivity.
Qed.

Lemma trim_collapsed (s : jsstring) :
  collapsed s = true -> single_spaced (trim s) = true.
Proof.
  intros Hs. apply collapsed_single_spaced.
  - destruct (trim_gen_slice (fun c : N => c) s) as [n [m Hnm]].
    unfold trim. rewrite Hnm.
    rewrite <- (firstn_skipn n s) in Hs. apply collapsed_tail in Hs.
    rewrite <- (firstn_skipn m (skipn n s)) in Hs.
    now apply collapsed_front in Hs.
  - apply (trim_last (fun c : N => c)).
Qed.

Lemma single_spaced_no_terminator (s : jsstring) :
  single_spaced s = true ->
  Forall (fun c => is_line_terminator c = false) s.
Proof.
  induction s as [|c s IH]; intros H; [constructor|].
  cbn [single_spaced] in H. apply andb_true_iff in H. destruct H as [Hc Hs].
  constructor; [|now apply IH].
  destruct (is_space c) eqn:Ec.
  - apply andb_true_iff in Hc. destruct Hc as [Hc _].
    apply N.eqb_eq in Hc. now subst c.
  - now apply not_space_not_terminator.
Qed.

(** X10.  Whatever the text, the result has its white space normalised:
    every white space character of the result is one space (U+0020)
    between two characters that are not white space, so that the result
    neither starts nor ends with white space and has no line terminator,
    also inside a code block. *)
Theorem format_spacing (text : jsstring) :
  single_spaced (format text) = true
  /\ (forall c rest, format text = c :: rest -> is_space c = false)
  /\ Forall (fun c => is_line_terminator c = false) (format text).
Proof.
  assert (single_spaced (format text) = true) as Hss.
  { destruct text as [|c s]; [reflexivity|].
    rewrite format_nonempty.
    change stages with (firstn 17 stages ++ skipn 17 stages).
    rewrite fold_left_app. cbn [skipn stages fold_left].
    rewrite run_stage_plain. apply trim_collapsed.
    change (replace flags_g re_spaces [TLit (js " ")] ?s)
      with (scan flags_g re_spaces [TLit (js " ")] 0 None s).
    now apply collapsed_scan with (n := List.length
      (fold_left (run_stage (fun c => c) (fun c => c)) (firstn 17 stages)
                 (c :: s))). }
  split; [exact Hss|]. split.
  - intros c rest H. destruct text as [|c0 s]; [discriminate|].
    rewrite format_nonempty in H.
    pose proof (trim_head (fun c : N => c)
                  (fold_left (run_stage (fun c => c) (fun c => c)) stages
                             (c0 :: s))) as Hh.
    unfold trim in H. now rewrite H in Hh.
  - now apply single_spaced_no_terminator.
Qed.

End SpacingFacts.

(** ** The three escapes *)

Module EscapeFacts.
Import StringFacts MatchFacts ReplaceFacts FormatterFacts LinkFacts Further.

Local Open Scope string_scope.
Local Open Scope list_scope.

Local Arguments N.eqb : simpl never.

Lemma flat_map_flat_map A B C (f : A -> list B) (g : B -> list C) (l : list A) :
  flat_map g (flat_map f l) = flat_map (fun x => flat_map g (f x)) l.
Proof.
  induction l as [|x l IH]; [reflexivity|].
  simpl. now rewrite flat_map_app, IH.
Qed.

Lemma escape_unit_steps (x : N) :
  flat_map (fun x => if N.eqb x (chr ">") then js "&gt;" else [x])
    (flat_map (fun x => if N.eqb x (chr "<") then js "&lt;" else [x])
       (if N.eqb x (chr "&") then js "&amp;" else [x]))
  = escape_unit x.
Proof.
  unfold escape_unit.
  destruct (N.eqb_spec x (chr "&")) as [->|H1]; [reflexivity|].
  cbn [flat_map].
  destruct (N.eqb_spec x (chr "<")) as [->|H2]; [reflexivity|].
  cbn [flat_map app].
  destruct (N.eqb_spec x (chr ">")) as [->|H3]; reflexivity.
Qed.

(** The first three stages together. *)
Lemma escape_stages (s : jsstring) :
  fold_left (run_stage (fun c => c) (fun c => c)) (firstn 3 stages) s
  = escape_html s.
Proof.
  unfold stages. cbn [firstn fold_left]. rewrite !run_stage_plain.
  unfold replace, re_amp, re_lt, re_gt. rewrite !replace_char.
  rewrite !flat_map_flat_map. unfold escape_html.
  apply flat_map_ext. intros x. rewrite !map_id.
  rewrite <- flat_map_flat_map. apply escape_unit_steps.
Qed.

Lemma escape_unit_clean (x c : N) :
  In c (escape_unit x) -> c <> chr "<" /\ c <> chr ">".
Proof.
  unfold escape_unit.
  destruct (N.eqb_spec x (chr "&")) as [->|H1];
    [|destruct (N.eqb_spec x (chr "<")) as [->|H2];
      [|destruct (N.eqb_spec x (chr ">")) as [->|H3]]];
    simpl; intros H; repeat (destruct H as [<- | H]; [split; discriminate|]);
      try contradiction.
  destruct H as [<- | []]. split; assumption.
Qed.

(** X12.  The three escapes act as one pass over the text: each [&], [<]
    and [>] of the text becomes its entity and every other character is
    kept, so that the ampersand of an entity made for [<] or [>] is not
    escaped again; after them the text has no [<] and no [>]. *)
Theorem escapes_are_one_pass (s : jsstring) :
  fold_left (run_stage (fun c => c) (fun c => c)) (firstn 3 stages) s
  = flat_map escape_unit s
  /\ ~ In (chr "<") (flat_map escape_unit s)
  /\ ~ In (chr ">") (flat_map escape_unit s).
Proof.
  split; [apply escape_stages|]. split.
  - intros H. apply in_flat_map in H. destruct H as [x [_ H]].
    apply escape_unit_clean in H. now destruct H.
  - intros H. apply in_flat_map in H. destruct H as [x [_ H]].
    apply escape_unit_clean in H. now destruct H.
Qed.

End EscapeFacts.

(** ** Lines of plain text *)

Module ParagraphFacts.
Import StringFacts MatchFacts ReplaceFacts FormatterFacts LinkFacts Further
       EscapeFacts.

Local Open Scope string_scope.
Local Open Scope list_scope.

Local Arguments N.eqb : simpl never.
Local Arguments is_space : simpl never.
Local Arguments is_line_terminator : simpl never.
Local Arguments is_digit : simpl never.

Lemma mild_facts (x : N) :
  mild x = true ->
  is_line_terminator x = false
  /\ N.eqb x (chr "*") = false /\ N.eqb x (chr "`") = false
  /\ N.eqb x (chr "[") = false /\ N.eqb x 10 = false.
Proof.
  unfold mild. rewrite andb_true_iff, !negb_true_iff. intros [Hl Hm].
  pose proof (inb_false _ _ Hm) as H.
  repeat split; try assumption; try (apply H; simpl; tauto).
  destruct (N.eqb_spec x 10) as [->|]; [discriminate | reflexivity].
Qed.

Lemma opener_facts (x : N) :
  opener x = true ->
  mild x = true /\ is_space x = false /\ is_digit x = false
  /\ N.eqb x (chr "#") = false /\ N.eqb x (chr "-") = false.
Proof.
  unfold opener. rewrite !andb_true_iff, !negb_true_iff.
  intros [[[Hm Hs] Hd] Hi]. pose proof (inb_false _ _ Hi) as H.
  repeat split; try assumption; apply H; simpl; tauto.
Qed.

Lemma line_stages_inert :
  Forall (fun st => line_inert (stage_flags st) (stage_regex st)) line_stages.
Proof.
  unfold line_stages, stages. cbn [firstn skipn app].
  repeat (apply Forall_cons; [ | ]).
  all: try apply Forall_nil.
  all: unfold stage_flags, stage_regex, line_inert, can_start; cbn [fst snd].
  all: repeat split.
  all: try (intros x Hx;
            destruct (opener_facts x Hx) as [Hm [Hs [Hd [H6 H7]]]];
            destruct (mild_facts x Hm) as [Hl [H1 [H2 [H3 H4]]]];
            cbn in H1, H2, H3, H6, H7; cbn;
            rewrite ?Hs, ?Hd, ?Hl, ?H1, ?H2, ?H3, ?H4, ?H6, ?H7; reflexivity).
  all: try (intros c x Hc Hm;
            destruct (mild_facts x Hm) as [Hl [H1 [H2 [H3 H4]]]];
            cbn in H1, H2, H3; cbn;
            rewrite ?Hc, ?Hl, ?H1, ?H2, ?H3, ?H4; reflexivity).
  all: try (intros c Hc; cbn; rewrite ?Hc; reflexivity).
Qed.

Lemma quiet_mild fl r (w : jsstring) :
  line_inert fl r ->
  forall c0,
    is_line_terminator c0 = false -> forallb mild w = true ->
    quiet fl r (Some c0) w = true.
Proof.
  intros [_ [_ [Hr _]]]. induction w as [|x w IH]; intros c0 Hc Hw; [reflexivity|].
  simpl in Hw. apply andb_true_iff in Hw. destruct Hw as [Hx Hw].
  cbn [quiet]. rewrite (Hr c0 x Hc Hx). simpl. apply IH; [|exact Hw].
  now destruct (mild_facts x Hx) as [Hl _].
Qed.

Lemma prev_after_mild (X : jsstring) (x : N) :
  forallb mild (x :: X) = true ->
  exists c, prev_after (Some x) X = Some c /\ is_line_terminator c = false.
Proof.
  intros H. destruct (prev_after_in X x) as [c [Hc Hin]].
  exists c. split; [exact Hc|].
  rewrite forallb_forall in H. now destruct (mild_facts c (H c Hin)).
Qed.

(** A line after the start of the text or after a line feed. *)
Lemma quiet_line fl r (prev : option N) (e : jsstring) :
  line_inert fl r ->
  prev = None \/ prev = Some 10%N ->
  starts_open e = true -> forallb mild e = true ->
  quiet fl r prev e = true
  /\ exists c, prev_after prev e = Some c /\ is_line_terminator c = false.
Proof.
  intros Hr Hprev Ho Hm. destruct e as [|x X]; [discriminate|].
  simpl in Ho. split.
  - cbn [quiet]. destruct (opener_facts x Ho) as [Hx _].
    destruct (mild_facts x Hx) as [Hl _].
    simpl in Hm. apply andb_true_iff in Hm. destruct Hm as [_ Hm].
    rewrite (@quiet_mild fl r X Hr x Hl Hm), andb_true_r.
    apply negb_true_iff.
    destruct Hr as [Ha [Hb _]]. destruct Hprev as [-> | ->]; auto.
  - cbn [prev_after]. now apply prev_after_mild.
Qed.

Lemma quiet_lines fl r (E : list jsstring) :
  line_inert fl r ->
  E <> [] ->
  Forall (fun e => starts_open e = true /\ forallb mild e = true) E ->
  forall prev,
    prev = None \/ prev = Some 10%N ->
    quiet fl r prev (unlines [10%N] E) = true
    /\ exists c, prev_after prev (unlines [10%N] E) = Some c
                 /\ is_line_terminator c = false.
Proof.
  intros Hr Hne HE. induction HE as [|e E [Ho Hm] HE IH]; [congruence|].
  intros prev Hprev.
  destruct (@quiet_line fl r prev e Hr Hprev Ho Hm) as [Hq [c [Hc Hl]]].
  destruct E as [|e' E'].
  - simpl. split; [exact Hq|]. now exists c.
  - change (unlines [10%N] (e :: e' :: E'))
      with (e ++ [10%N] ++ unlines [10%N] (e' :: E')).
    destruct (IH ltac:(discriminate) (Some 10%N) (or_intror eq_refl))
      as [Hq' [c' [Hc' Hl']]].
    split.
    + rewrite quiet_app, Hq, Hc. cbn [app quiet andb]. rewrite Hq', andb_true_r.
      apply negb_true_iff. now apply Hr.
    + exists c'. rewrite prev_after_app, Hc. cbn [app prev_after].
      now split.
Qed.

(** A stage of [line_stages] leaves lines of plain text as they are. *)
Lemma line_stage_same (st : flags * regex * template) (E : list jsstring) :
  In st line_stages ->
  E <> [] ->
  Forall (fun e => starts_open e = true /\ forallb mild e = true) E ->
  run_stage (fun c => c) (fun c => c) (unlines [10%N] E) st = unlines [10%N] E.
Proof.
  intros Hin Hne HE. pose proof line_stages_inert as Hr.
  rewrite Forall_forall in Hr. specialize (Hr st Hin).
  destruct st as [[fl r] t]. unfold stage_flags, stage_regex in Hr. simpl in Hr.
  rewrite run_stage_plain.
  destruct (@quiet_lines fl r E Hr Hne HE None (or_introl eq_refl))
    as [Hq [c [Hc Hl]]].
  apply replace_quiet; [exact Hq|]. rewrite Hc. now apply Hr.
Qed.

(** The same for one line whose first character the stage cannot start
    at. *)
Lemma line_same_from (st : flags * regex * template) (x : N) (X : jsstring) :
  In st line_stages ->
  can_start (stage_flags st) (stage_regex st) None (Some x) = false ->
  forallb mild (x :: X) = true ->
  run_stage (fun c => c) (fun c => c) (x :: X) st = x :: X.
Proof.
  intros Hin Hstart Hm.
  pose proof line_stages_inert as Hr. rewrite Forall_forall in Hr.
  specialize (Hr st Hin).
  destruct st as [[fl r] t]. unfold stage_flags, stage_regex in *.
  simpl in Hstart, Hr. rewrite run_stage_plain.
  pose proof Hm as Hm'.
  simpl in Hm. apply andb_true_iff in Hm. destruct Hm as [Hmx HmX].
  destruct (mild_facts x Hmx) as [Hl _].
  apply replace_quiet.
  - cbn [quiet]. rewrite Hstart. cbn [negb andb].
    now apply quiet_mild.
  - cbn [prev_after].
    destruct (@prev_after_mild X x Hm') as [c [-> Hc]].
    now apply Hr.
Qed.

(** *** The stage of the line feeds *)

Lemma flat_map_unlines (f : N -> jsstring) (sep : jsstring) (E : list jsstring) :
  flat_map f (unlines sep E) = unlines (flat_map f sep) (map (flat_map f) E).
Proof.
  induction E as [|e E IH]; [reflexivity|].
  destruct E as [|e' E']; [reflexivity|].
  change (unlines sep (e :: e' :: E')) with (e ++ sep ++ unlines sep (e' :: E')).
  rewrite !flat_map_app, IH. reflexivity.
Qed.

Lemma flat_map_keep (f : N -> jsstring) (e : jsstring) :
  (forall x, In x e -> f x = [x]) -> flat_map f e = e.
Proof.
  induction e as [|x e IH]; intros H; [reflexivity|].
  simpl. rewrite (H x) by now left. simpl. f_equal. apply IH.
  intros y Hy. apply H. now right.
Qed.

Lemma newline_stage (E : list jsstring) :
  Forall (fun e => forallb mild e = true) E ->
  replace flags_g re_newline [TLit (js "<br>")] (unlines [10%N] E)
  = unlines (js "<br>") E.
Proof.
  intros HE. unfold replace, re_newline. rewrite replace_char, flat_map_unlines.
  f_equal. rewrite <- (map_id E) at 2. apply map_ext_in.
  intros e He. rewrite Forall_forall in HE. specialize (HE e He).
  apply flat_map_keep. intros x Hx. rewrite forallb_forall in HE.
  destruct (mild_facts x (HE x Hx)) as [_ [_ [_ [_ H10]]]]. now rewrite H10.
Qed.

(** *** The runs of items *)

Lemma items_can_end (prev : option N) :
  can_start flags_gms re_items prev None = false.
Proof. reflexivity. Qed.

Lemma items_exec_other (prev : option N) (c : N) (rest : jsstring) :
  N.eqb c (chr "<") = false ->
  exec flags_gms re_items prev (c :: rest) = None.
Proof.
  intros Hc. apply cannot_start. unfold can_start. cbn in Hc. cbn.
  now rewrite Hc.
Qed.

Lemma items_exec_break (prev : option N) (c d : N) (rest : jsstring) :
  N.eqb d (chr "l") = false ->
  exec flags_gms re_items prev (c :: d :: rest) = None.
Proof.
  intros Hd. unfold exec, re_items. cbn in Hd. cbn [RSeqs RLit js].
  rewrite matches_group, matches_seq.
  cbn. destruct (N.eqb c 60); cbn; rewrite ?Hd; reflexivity.
Qed.

Lemma items_same (t : template) (s : jsstring) :
  no_item s = true ->
  forall prev, scan flags_gms re_items t 0 prev s = s.
Proof.
  induction s as [|c s IH]; intros Hs prev.
  - apply scan_end. apply items_can_end.
  - cbn [no_item] in Hs. apply andb_true_iff in Hs. destruct Hs as [Hc Hs].
    rewrite scan_no_match; [f_equal; now apply IH|].
    apply orb_true_iff in Hc. destruct Hc as [Hc | Hc].
    + apply items_exec_other. now apply negb_true_iff.
    + destruct s as [|d s]; [discriminate|].
      apply items_exec_break. now apply negb_true_iff.
Qed.

Lemma no_item_app (a b : jsstring) :
  Forall (fun c => N.eqb c (chr "<") = false) a ->
  no_item (a ++ b) = no_item b.
Proof.
  induction 1 as [|c a Hc Ha IH]; [reflexivity|].
  simpl app. cbn [no_item]. now rewrite Hc, IH.
Qed.

Lemma no_item_lines (E : list jsstring) :
  Forall (fun e => Forall (fun c => N.eqb c (chr "<") = false) e) E ->
  no_item (unlines (js "<br>") E) = true.
Proof.
  induction 1 as [|e E He HE IH]; [reflexivity|].
  destruct E as [|e' E'].
  - simpl. rewrite <- (app_nil_r e). now rewrite no_item_app.
  - change (unlines (js "<br>") (e :: e' :: E'))
      with (e ++ js "<br>" ++ unlines (js "<br>") (e' :: E')).
    rewrite (@no_item_app e _ He).
    change (js "<br>" ++ ?x) with (chr "<" :: chr "b" :: chr "r" :: chr ">" :: x).
    cbn [no_item]. rewrite IH. reflexivity.
Qed.

(** *** The lines after the escapes *)

Lemma escape_unit_cases (x : N) :
  escape_unit x = js "&amp;" \/ escape_unit x = js "&lt;"
  \/ escape_unit x = js "&gt;"
  \/ (escape_unit x = [x] /\ N.eqb x (chr "<") = false).
Proof.
  unfold escape_unit.
  destruct (N.eqb x (chr "&")); [tauto|].
  destruct (N.eqb x (chr "<")); [tauto|].
  destruct (N.eqb x (chr ">")); tauto.
Qed.

Lemma escape_unit_space (x : N) : is_space x = true -> escape_unit x = [x].
Proof.
  intros Hx. unfold escape_unit.
  destruct (N.eqb_spec x (chr "&")) as [->|_]; [discriminate|].
  destruct (N.eqb_spec x (chr "<")) as [->|_]; [discriminate|].
  destruct (N.eqb_spec x (chr ">")) as [->|_]; [discriminate|].
  reflexivity.
Qed.

(** The text of a character has a first character; it keeps what the
    stages look at. *)
Lemma escape_unit_head (x : N) :
  exists y Y,
    escape_unit x = y :: Y
    /\ (opener x = true -> opener y = true)
    /\ (mild x = true -> forallb mild (y :: Y) = true)
    /\ (is_space x = false -> Forall (fun c => is_space c = false) (y :: Y))
    /\ Forall (fun c => N.eqb c (chr "<") = false) (y :: Y).
Proof.
  destruct (escape_unit_cases x) as [-> | [-> | [-> | [-> Hx]]]].
  - eexists _, _. split; [reflexivity|].
    repeat split; intros; try reflexivity; repeat constructor.
  - eexists _, _. split; [reflexivity|].
    repeat split; intros; try reflexivity; repeat constructor.
  - eexists _, _. split; [reflexivity|].
    repeat split; intros; try reflexivity; repeat constructor.
  - exists x, []. split; [reflexivity|].
    repeat split; intros; try assumption; try (now repeat constructor).
    simpl. now rewrite H.
Qed.

Lemma escape_html_cons (x : N) (X : jsstring) :
  escape_html (x :: X) = escape_unit x ++ escape_html X.
Proof. reflexivity. Qed.

Lemma escape_mild (l : jsstring) :
  forallb mild l = true -> forallb mild (escape_html l) = true.
Proof.
  induction l as [|x l IH]; intros H; [reflexivity|].
  simpl in H. apply andb_true_iff in H. destruct H as [Hx Hl].
  rewrite escape_html_cons, forallb_app, (IH Hl), andb_true_r.
  destruct (escape_unit_head x) as [y [Y [-> [_ [Hm _]]]]]. now apply Hm.
Qed.

Lemma escape_clean (l : jsstring) :
  Forall (fun c => N.eqb c (chr "<") = false) (escape_html l).
Proof.
  induction l as [|x l IH]; [constructor|].
  rewrite escape_html_cons. apply Forall_app. split; [|exact IH].
  now destruct (escape_unit_head x) as [y [Y [-> [_ [_ [_ H]]]]]].
Qed.

Lemma escape_starts_open (l : jsstring) :
  starts_open l = true -> starts_open (escape_html l) = true.
Proof.
  destruct l as [|x l]; [discriminate|]. simpl. intros H.
  destruct (escape_unit_head x) as [y [Y [-> [Ho _]]]]. simpl. now apply Ho.
Qed.

Lemma escape_single_spaced (l : jsstring) :
  single_spaced l = true -> single_spaced (escape_html l) = true.
Proof.
  induction l as [|x l IH]; intros H; [reflexivity|].
  cbn [single_spaced] in H. apply andb_true_iff in H. destruct H as [Hx Hl].
  rewrite escape_html_cons. destruct (is_space x) eqn:Ex.
  - rewrite (escape_unit_space x Ex). simpl app. cbn [single_spaced].
    rewrite Ex, (IH Hl), andb_true_r.
    apply andb_true_iff in Hx. destruct Hx as [Hx Hd]. rewrite Hx.
    destruct l as [|d l]; [discriminate|].
    apply negb_true_iff in Hd. rewrite escape_html_cons.
    destruct (escape_unit_head d) as [y [Y [-> [_ [_ [Hs _]]]]]].
    specialize (Hs Hd). inversion Hs as [|? ? Hy _]; subst.
    simpl. now rewrite Hy.
  - rewrite single_spaced_app; [now apply IH|].
    apply single_spaced_no_space.
    destruct (escape_unit_head x) as [y [Y [-> [_ [_ [Hs _]]]]]]. now apply Hs.
Qed.

(** *** The lines with [<br>] between them *)

Lemma unlines_Forall (P : N -> Prop) (sep : jsstring) (E : list jsstring) :
  Forall P sep -> Forall (Forall P) E -> Forall P (unlines sep E).
Proof.
  intros Hsep. induction 1 as [|e E He HE IH]; [constructor|].
  destruct E as [|e' E']; [exact He|].
  change (unlines sep (e :: e' :: E')) with (e ++ sep ++ unlines sep (e' :: E')).
  repeat (apply Forall_app; split); assumption.
Qed.

Lemma unlines_starts_open (sep : jsstring) (e : jsstring) (E : list jsstring) :
  starts_open e = true -> starts_open (unlines sep (e :: E)) = true.
Proof.
  destruct e as [|x X]; [discriminate|]. intros H.
  destruct E; exact H.
Qed.

Lemma unlines_hd (sep e : jsstring) (E : list jsstring) :
  e <> [] -> hd_error (unlines sep (e :: E)) = hd_error e.
Proof.
  destruct e as [|x X]; [congruence|]. intros _. now destruct E.
Qed.

Lemma unlines_single_spaced (E : list jsstring) :
  Forall (fun e => single_spaced e = true) E ->
  single_spaced (unlines (js "<br>") E) = true.
Proof.
  induction 1 as [|e E He HE IH]; [reflexivity|].
  destruct E as [|e' E']; [exact He|].
  change (unlines (js "<br>") (e :: e' :: E'))
    with (e ++ js "<br>" ++ unlines (js "<br>") (e' :: E')).
  rewrite (@single_spaced_app e _ He).
  rewrite single_spaced_app by reflexivity. exact IH.
Qed.

(** X11.  A text of lines of plain text becomes one paragraph: the lines
    with their [&], [<] and [>] escaped, [<br>] between them, and nothing
    else changed.  A line of plain text is not empty, starts with none of
    white space, a digit, [#] and [-], holds no line terminator, star,
    backtick or opening bracket, and is single spaced. *)
Theorem plain_lines_make_one_paragraph (l : jsstring) (ls : list jsstring) :
  forallb plain_line (l :: ls) = true ->
  format (unlines [10%N] (l :: ls))
  = js "<p>" ++ unlines (js "<br>") (map escape_html (l :: ls)) ++ js "</p>".
Proof.
  intros Hall. rewrite forallb_forall in Hall.
  assert (forall e, In e (l :: ls) ->
                    starts_open e = true /\ forallb mild e = true
                    /\ single_spaced e = true) as Hlines.
  { intros e He. specialize (Hall e He). unfold plain_line in Hall.
    apply andb_true_iff in Hall. destruct Hall as [Hall H3].
    apply andb_true_iff in Hall. tauto. }
  clear Hall.
  set (E := map escape_html (l :: ls)).
  assert (E <> []) as HEne by discriminate.
  assert (forall e, In e E ->
                    starts_open e = true /\ forallb mild e = true
                    /\ single_spaced e = true
                    /\ Forall (fun c => N.eqb c (chr "<") = false) e) as HE.
  { intros e He. apply in_map_iff in He. destruct He as [e0 [<- He0]].
    destruct (Hlines e0 He0) as [H1 [H2 H3]].
    repeat split; [now apply escape_starts_open | now apply escape_mild
                   | now apply escape_single_spaced | apply escape_clean]. }
  assert (Forall (fun e => starts_open e = true /\ forallb mild e = true) E)
    as HE1.
  { apply Forall_forall. intros e He. destruct (HE e He) as [H1 [H2 _]].
    now split. }
  assert (Forall (fun e => forallb mild e = true) E) as HE2.
  { apply Forall_forall. intros e He. now destruct (HE e He) as [_ [H2 _]]. }
  set (T2 := unlines (js "<br>") E).
  assert (starts_open T2 = true) as Hopen.
  { unfold T2, E. cbn [map]. apply unlines_starts_open.
    apply escape_starts_open. now destruct (Hlines l (or_introl eq_refl)). }
  assert (Forall (fun c => mild c = true) T2) as Hmild.
  { apply unlines_Forall; [repeat constructor|].
    apply Forall_forall. intros e He. apply Forall_forall.
    apply forallb_forall. rewrite Forall_forall in HE2. now apply HE2. }
  assert (forallb mild T2 = true) as Hmildb.
  { apply forallb_forall. now apply Forall_forall. }
  assert (no_item T2 = true) as Hitem.
  { apply no_item_lines. apply Forall_forall. intros e He.
    now destruct (HE e He) as [_ [_ [_ H4]]]. }
  assert (single_spaced T2 = true) as Hss.
  { apply unlines_single_spaced. apply Forall_forall. intros e He.
    now destruct (HE e He) as [_ [_ [H3 _]]]. }
  assert (exists c s, unlines [10%N] (l :: ls) = c :: s) as [c [s Hcs]].
  { destruct (Hlines l (or_introl eq_refl)) as [H1 _].
    destruct l as [|x X]; [discriminate|].
    destruct ls; eexists _, _; reflexivity. }
  rewrite Hcs, format_nonempty, <- Hcs. clear c s Hcs.
  change stages
    with (firstn 3 stages
          ++ firstn 7 (skipn 3 stages)
          ++ firstn 1 (skipn 10 stages)
          ++ firstn 5 (skipn 11 stages)
          ++ skipn 16 stages).
  rewrite !fold_left_app.
  rewrite escape_stages. unfold escape_html at 1.
  rewrite flat_map_unlines.
  change (flat_map escape_unit [10%N]) with [10%N].
  change (map (flat_map escape_unit) (l :: ls)) with E.
  assert (fold_left (run_stage (fun c => c) (fun c => c))
                    (firstn 7 (skipn 3 stages)) (unlines [10%N] E)
          = unlines [10%N] E) as ->.
  { apply (fold_stages_invariant (fun c : N => c) (fun c : N => c)
             (fun s => s = unlines [10%N] E)); [|reflexivity].
    intros st s0 Hin ->. apply line_stage_same; try assumption.
    unfold line_stages. apply in_or_app. now left. }
  cbn [skipn firstn stages fold_left]. rewrite !run_stage_plain.
  rewrite (newline_stage HE2). fold T2.
  destruct T2 as [|x X] eqn:ET2; [discriminate|].
  assert (forall st, In st line_stages ->
                     run_stage (fun c => c) (fun c => c) (x :: X) st = x :: X)
    as Hsame.
  { intros st Hin.
    apply (@line_stage_same st [x :: X] Hin); [discriminate|].
    constructor; [|constructor]. now split. }
  assert (forall t, replace flags_gms re_items t (x :: X) = x :: X) as Hitems.
  { intros t. now apply items_same. }
  rewrite <- !run_stage_plain.
  rewrite (Hsame (flags_gm, re_bullet, wrap "li"))
    by (unfold line_stages; cbn; tauto).
  rewrite (run_stage_plain (x :: X) flags_gms re_items (wrap "ul")), Hitems.
  rewrite (Hsame (flags_gm, re_numbered, wrap "li"))
    by (unfold line_stages; cbn; tauto).
  rewrite (run_stage_plain (x :: X) flags_gms re_items (wrap "ol")), Hitems.
  rewrite (Hsame (flags_g, re_link, tpl_link))
    by (unfold line_stages; cbn; tauto).
  apply (@late_stages x X).
  - apply Forall_forall. intros c Hc. rewrite Forall_forall in Hmild.
    now destruct (mild_facts c (Hmild c Hc)).
  - apply matches_cannot_start.
    assert (N.eqb x (chr "<") = false) as Hx.
    { pose proof (escape_clean l) as Hclean.
      pose proof (@unlines_hd (js "<br>") (escape_html l)
                    (map escape_html ls)) as Hhd.
      change (unlines (js "<br>") (escape_html l :: map escape_html ls))
        with T2 in Hhd.
      rewrite ET2 in Hhd. simpl in Hhd.
      destruct (escape_html l) as [|y Y] eqn:El.
      - destruct (Hlines l (or_introl eq_refl)) as [H1 _].
        apply escape_starts_open in H1. rewrite El in H1. discriminate.
      - specialize (Hhd ltac:(discriminate)). injection Hhd as ->.
        now inversion Hclean. }
    unfold can_start. cbn in Hx. cbn. now rewrite Hx.
  - exact Hss.
Qed.

Lemma plain_lines_make_one_paragraph_witness :
  forallb plain_line [js "a < b & c"; js "second line"] = true
  /\ format (unlines [10%N] [js "a < b & c"; js "second line"])
     = js "<p>"
       ++ unlines (js "<br>") (map escape_html [js "a < b & c"; js "second line"])
       ++ js "</p>".
Proof.
  split; [vm_compute; reflexivity|].
  apply (@plain_lines_make_one_paragraph (js "a < b & c") [js "second line"]).
  vm_compute. reflexivity.
Defined.

End ParagraphFacts.

(** ** Code blocks *)

Module FenceFacts.
Import StringFacts MatchFacts ReplaceFacts FormatterFacts LinkFacts Further.

Local Open Scope string_scope.
Local Open Scope list_scope.

Local Arguments N.eqb : simpl never.
Local Arguments is_space : simpl never.
Local Arguments is_line_terminator : simpl never.

Lemma closing_split (s : jsstring) :
  forall n,
    closing s = Some n ->
    exists w rest,
      s = w ++ backtick :: rest /\ List.length w = n
      /\ Forall (fun d => N.eqb d backtick = false) w.
Proof.
  induction s as [|d s IH]; intros n H; [discriminate|].
  cbn [closing] in H. destruct (N.eqb_spec d backtick) as [->|Hd].
  - injection H as <-. exists [], s. repeat split. constructor.
  - destruct (is_line_terminator d); [discriminate|].
    destruct (closing s) as [m|]; [|discriminate].
    injection H as <-. destruct (IH m eq_refl) as [w [rest [-> [Hlen Hw]]]].
    exists (d :: w), rest. repeat split.
    + simpl. now rewrite Hlen.
    + constructor; [|exact Hw]. now apply N.eqb_neq.
Qed.

Lemma closing_none (d : N) (s : jsstring) :
  closing (d :: s) = None -> N.eqb d backtick = false.
Proof.
  cbn [closing]. destruct (N.eqb d backtick); [discriminate | reflexivity].
Qed.

(** The lazy run of the pattern of inline code stops at the first
    backtick of the line. *)
Lemma code_close (p0 : nat) (s : jsstring) :
  forall p b cs,
    match flat_map (matches flags_g (RClass (CChar backtick)))
                   (map (set_cap 1 p0) (star_states flags_g CDot p b s cs)) with
    | st :: _ => Some (pos st, caps st)
    | [] => None
    end
    = option_map (fun n => (S (n + p), (1, (p0, n + p - p0)) :: cs)) (closing s).
Proof.
  induction s as [|d s IH]; intros p b cs; [reflexivity|].
  cbn [star_states map flat_map closing].
  cbn [matches set_cap input pos before caps class_mem].
  destruct (N.eqb d backtick) eqn:Ed.
  - reflexivity.
  - cbn [app class_mem dotAll flags_g orb].
    destruct (is_line_terminator d); cbn [negb]; [reflexivity|].
    rewrite IH. destruct (closing s) as [n|]; [|reflexivity].
    cbn [option_map]. replace (n + S p) with (S n + p) by lia. reflexivity.
Qed.

Lemma code_exec (prev : option N) (s : jsstring) :
  exec flags_g re_code prev (backtick :: s)
  = option_map (fun n => (S (S n), [(1, (1, n))])) (closing s).
Proof.
  unfold exec, re_code, RChar. cbn [RSeqs]. change (chr "`") with backtick.
  rewrite matches_seq.
  rewrite (@matches_class flags_g (CChar backtick)
             {| pos := 0; before := prev; input := backtick :: s; caps := [] |}
             backtick s eq_refl eq_refl).
  cbn [flat_map]. rewrite app_nil_r, matches_seq, matches_group.
  cbn [matches adv pos before input caps List.length prev_after Nat.add].
  etransitivity; [exact (code_close 1 s 1 (Some backtick) [])|].
  destruct (closing s) as [n|]; [|reflexivity].
  cbn [option_map]. replace (n + 1) with (S n) by lia.
  replace (S n - 1) with n by lia. reflexivity.
Qed.

Lemma code_exec_other (prev : option N) (c : N) (s : jsstring) :
  N.eqb c backtick = false -> exec flags_g re_code prev (c :: s) = None.
Proof.
  intros Hc. apply cannot_start. unfold can_start, backtick in *.
  cbn in Hc. cbn. now rewrite Hc.
Qed.

Lemma code_can_end (prev : option N) :
  can_start flags_g re_code prev None = false.
Proof. reflexivity. Qed.

Lemma no_pair_app (u v : jsstring) :
  Forall (fun d => N.eqb d backtick = false) u ->
  no_pair (u ++ v) = no_pair v.
Proof.
  induction 1 as [|c u Hc Hu IH]; [reflexivity|].
  simpl app. cbn [no_pair]. now rewrite Hc, IH.
Qed.

(** What the stage of inline code returns has no two backticks in a
    row. *)
Lemma code_scan_no_pair (n : nat) :
  forall s prev,
    List.length s <= n ->
    no_pair (scan flags_g re_code (wrap "code") 0 prev s) = true.
Proof.
  induction n as [|n IH]; intros s prev Hn.
  - destruct s; [|simpl in Hn; lia]. now rewrite scan_end.
  - destruct s as [|c s]; [now rewrite scan_end|].
    simpl in Hn. destruct (N.eqb_spec c backtick) as [->|Hc].
    + destruct (closing s) as [k|] eqn:Ek.
      * destruct (closing_split s Ek) as [w [rest [-> [Hlen Hw]]]].
        rewrite (@scan_match flags_g re_code (wrap "code") prev backtick
                   (w ++ backtick :: rest) (S k) [(1, (1, k))]).
        2:{ rewrite code_exec, Ek. reflexivity. }
        replace (w ++ backtick :: rest) with ((w ++ [backtick]) ++ rest)
          by now rewrite <- app_assoc.
        replace (S k) with (List.length (w ++ [backtick]))
          by (rewrite length_app; simpl; lia).
        rewrite scan_skip.
        change (wrap "code")
          with [TLit (js "<code>"); TCap 1; TLit (js "</code>")].
        cbn [expand cap_lookup Nat.eqb]. rewrite !map_id.
        unfold slice. cbn [skipn]. rewrite <- (app_assoc w [backtick] rest).
        rewrite <- Hlen, firstn_app, firstn_all, Nat.sub_diag. cbn [firstn].
        rewrite !app_nil_r, <- !app_assoc.
        rewrite (@no_pair_app (js "<code>") _) by (repeat constructor).
        rewrite (@no_pair_app w _ Hw).
        rewrite (@no_pair_app (js "</code>") _) by (repeat constructor).
        apply IH. rewrite length_app in Hn. simpl in Hn. lia.
      * rewrite scan_no_match by (rewrite code_exec, Ek; reflexivity).
        destruct s as [|d s]; [now rewrite scan_end|].
        pose proof (closing_none _ _ Ek) as Hd.
        pose proof (IH (d :: s) (Some backtick) ltac:(simpl in *; lia)) as H.
        rewrite (@scan_no_match flags_g re_code (wrap "code") _ _ _
                   (@code_exec_other _ d s Hd)) in H |- *.
        cbn [no_pair] in H |- *. rewrite Hd in *.
        rewrite andb_false_r. exact H.
    + apply N.eqb_neq in Hc.
      rewrite (@scan_no_match flags_g re_code (wrap "code") _ _ _
                 (@code_exec_other prev c s Hc)).
      cbn [no_pair]. rewrite Hc. apply IH. lia.
Qed.

(** *** The stage of the code blocks *)

Lemma fence_exec_other (prev : option N) (c : N) (s : jsstring) :
  N.eqb c backtick = false -> exec flags_g re_fence prev (c :: s) = None.
Proof.
  intros Hc. apply cannot_start. unfold can_start, backtick in *.
  cbn in Hc. cbn. now rewrite Hc.
Qed.

Lemma fence_exec_single (prev : option N) (c : N) (s : jsstring) :
  match s with d :: _ => N.eqb d backtick = false | [] => True end ->
  exec flags_g re_fence prev (c :: s) = None.
Proof.
  intros Hs. unfold exec, re_fence. cbn [RSeqs].
  rewrite matches_seq.
  assert (matches flags_g (RLit (js "```"))
                  {| pos := 0; before := prev; input := c :: s; caps := [] |}
          = []) as ->; [|reflexivity].
  change (RLit (js "```"))
    with (RSeq (RClass (CChar backtick))
               (RSeq (RClass (CChar backtick)) (RClass (CChar backtick)))).
  rewrite matches_seq.
  destruct (N.eqb c backtick) eqn:Ec.
  - rewrite (@matches_class flags_g (CChar backtick)
               {| pos := 0; before := prev; input := c :: s; caps := [] |}
               c s eq_refl Ec).
    cbn [flat_map]. rewrite app_nil_r, matches_seq.
    destruct s as [|d s]; [reflexivity|].
    now rewrite (@matches_class_miss flags_g (CChar backtick)
                   (adv {| pos := 0; before := prev; input := c :: d :: s;
                           caps := [] |} [c] (d :: s))
                   d s eq_refl Hs).
  - now rewrite (@matches_class_miss flags_g (CChar backtick)
                   {| pos := 0; before := prev; input := c :: s; caps := [] |}
                   c s eq_refl Ec).
Qed.

Lemma fence_can_end (prev : option N) :
  can_start flags_g re_fence prev None = false.
Proof. reflexivity. Qed.

Lemma fence_same (s : jsstring) :
  no_pair s = true ->
  forall prev, scan flags_g re_fence tpl_fence 0 prev s = s.
Proof.
  induction s as [|c s IH]; intros Hs prev.
  - apply scan_end. apply fence_can_end.
  - cbn [no_pair] in Hs. apply andb_true_iff in Hs. destruct Hs as [Hc Hs].
    rewrite scan_no_match; [f_equal; now apply IH|].
    apply negb_true_iff, andb_false_iff in Hc. destruct Hc as [Hc | Hc].
    + now apply fence_exec_other.
    + apply fence_exec_single. destruct s; [exact I | exact Hc].
Qed.

Lemma fence_stage_idle (text : jsstring) :
  fold_left (run_stage (fun c => c) (fun c => c)) (firstn 10 stages) text
  = fold_left (run_stage (fun c => c) (fun c => c)) (firstn 9 stages) text.
Proof.
  change (firstn 10 stages)
    with (firstn 9 stages ++ [(flags_g, re_fence, tpl_fence)]).
  rewrite fold_left_app. cbn [fold_left]. rewrite run_stage_plain.
  change (firstn 9 stages)
    with (firstn 8 stages ++ [(flags_g, re_code, wrap "code")]).
  rewrite fold_left_app. cbn [fold_left]. rewrite run_stage_plain.
  change (replace flags_g re_fence tpl_fence ?x)
    with (scan flags_g re_fence tpl_fence 0 None x).
  apply fence_same.
  now apply code_scan_no_pair
    with (n := List.length
                 (fold_left (run_stage (fun c => c) (fun c => c))
                            (firstn 8 stages) text)).
Qed.

(** Every replacement pattern but that of the code blocks keeps [<pre]
    out. *)
Lemma other_templates_ok :
  forallb (fun st => tmpl_ok pre_word false (stage_template st))
          (skipn 2 (firstn 9 stages) ++ skipn 10 stages) = true.
Proof. vm_compute. reflexivity. Qed.

(** X14.  The stage of the code blocks never replaces anything: whatever
    the text, the stage of inline code before it leaves no two backticks in
    a row, so that three backticks are never found, and no result of the
    formatter holds the tag [pre]. *)
Theorem code_blocks_are_never_made (text : jsstring) :
  fold_left (run_stage (fun c => c) (fun c => c)) (firstn 10 stages) text
  = fold_left (run_stage (fun c => c) (fun c => c)) (firstn 9 stages) text
  /\ no_pair (fold_left (run_stage (fun c => c) (fun c => c))
                        (firstn 9 stages) text) = true
  /\ ~ occurs pre_word (format text).
Proof.
  split; [apply fence_stage_idle|]. split.
  { change (firstn 9 stages)
      with (firstn 8 stages ++ [(flags_g, re_code, wrap "code")]).
    rewrite fold_left_app. cbn [fold_left]. rewrite run_stage_plain.
    now apply code_scan_no_pair
      with (n := List.length
                   (fold_left (run_stage (fun c => c) (fun c => c))
                              (firstn 8 stages) text)). }
  assert (forall st s, In st (skipn 2 (firstn 9 stages) ++ skipn 10 stages) ->
                       ~ occurs pre_word s ->
                       ~ occurs pre_word
                           (run_stage (fun c => c) (fun c => c) s st)) as Hstep.
  { intros [[fl r] t] s Hin Hs. rewrite run_stage_plain.
    apply replace_avoid; [|exact Hs].
    pose proof other_templates_ok as Hall.
    rewrite forallb_forall in Hall. apply (Hall _ Hin). }
  unfold format, format_gen. destruct text as [|c text].
  - intros H. apply includes_occurs in H. discriminate.
  - destruct (trim_gen_slice (fun c : N => c)
                (fold_left (run_stage (fun c => c) (fun c => c)) stages
                           (c :: text))) as [n [m ->]].
    intros H. apply occurs_firstn, occurs_skipn in H. revert H.
    change stages with (firstn 10 stages ++ skipn 10 stages).
    rewrite fold_left_app. apply fold_stages_invariant.
    + intros st s Hin. apply Hstep. apply in_or_app. now right.
    + rewrite fence_stage_idle.
      change (firstn 9 stages)
        with (firstn 2 stages ++ skipn 2 (firstn 9 stages)).
      rewrite fold_left_app. apply fold_stages_invariant.
      * intros st s Hin. apply Hstep. apply in_or_app. now left.
      * change (firstn 2 stages)
          with [ (flags_g, re_amp, [TLit (js "&amp;")]);
                 (flags_g, re_lt, [TLit (js "&lt;")]) ].
        cbn [fold_left]. rewrite !run_stage_plain. intros H.
        apply (@escape_lt_removes
                 (replace flags_g re_amp [TLit (js "&amp;")] (c :: text))).
        apply (occurs_head (chr "<") H). now left.
Qed.

End FenceFacts.

(** ** Bold, italics and inline code *)

Module InlineFacts.
Import StringFacts TrimFacts MatchFacts ReplaceFacts FormatterFacts LinkFacts
       Further EscapeFacts ParagraphFacts SpacingFacts.

Local Open Scope string_scope.
Local Open Scope list_scope.

Local Arguments N.eqb : simpl never.
Local Arguments is_space : simpl never.
Local Arguments is_line_terminator : simpl never.
Local Arguments is_digit : simpl never.

(** *** A delimited stretch *)

Section Delimited.
Variable fl : flags.

(** The states of a run over [w], then those from the end of [w] on. *)
Lemma star_states_app (k : cclass) (w tail : jsstring) :
  Forall (fun c => class_mem fl k c = true) w ->
  forall p b cs,
  exists inter,
    star_states fl k p b (w ++ tail) cs
    = inter ++ star_states fl k (List.length w + p) (prev_after b w) tail cs
    /\ forall st, In st inter ->
                  exists d rest, input st = d :: rest /\ In d w.
Proof.
  intros Hw. induction Hw as [|c w Hc Hw IH]; intros p b cs.
  - exists []. split; [reflexivity | intros st []].
  - destruct (IH (S p) (Some c) cs) as [inter [Heq Hin]].
    exists ({| pos := p; before := b; input := (c :: w) ++ tail; caps := cs |}
              :: inter).
    split.
    + simpl. rewrite Hc, Heq. simpl. repeat f_equal. lia.
    + intros st [<- | Hst].
      * exists c, (w ++ tail). simpl. auto.
      * destruct (Hin st Hst) as [d [rest [Hi Hd]]].
        exists d, rest. simpl. auto.
Qed.

Lemma star_states_first (k : cclass) p b (inp : jsstring) cs :
  exists more,
    star_states fl k p b inp cs
    = {| pos := p; before := b; input := inp; caps := cs |} :: more.
Proof. destruct inp; simpl; eauto. Qed.

Lemma matches_lit_miss (d0 : N) (D : jsstring) (st : mstate) (d : N)
      (rest : jsstring) :
  input st = d :: rest -> N.eqb d d0 = false ->
  matches fl (RLit (d0 :: D)) st = [].
Proof.
  intros Hi Hd. destruct D as [|d1 D].
  - now apply matches_class_miss with d rest.
  - change (RLit (d0 :: d1 :: D)) with (RSeq (RChar d0) (RLit (d1 :: D))).
    rewrite matches_seq. unfold RChar.
    now rewrite (@matches_class_miss fl (CChar d0) st d rest Hi Hd).
Qed.

Lemma delimited_exec (d0 : N) (D : jsstring) (prev : option N)
      (b rest : jsstring) :
  Forall (fun y => class_mem fl CDot y = true) b ->
  Forall (fun y => N.eqb y d0 = false) b ->
  exec fl (delimited (d0 :: D)) prev
       ((d0 :: D) ++ b ++ (d0 :: D) ++ rest)
  = Some (List.length (d0 :: D) + List.length b + List.length (d0 :: D),
          [(1, (List.length (d0 :: D), List.length b))]).
Proof.
  intros Hdot Hb. unfold exec, delimited. cbn [RSeqs].
  rewrite matches_seq.
  rewrite (@matches_lit fl (d0 :: D)
             {| pos := 0; before := prev;
                input := (d0 :: D) ++ b ++ (d0 :: D) ++ rest; caps := [] |}
             (b ++ (d0 :: D) ++ rest) eq_refl).
  cbn [flat_map]. rewrite app_nil_r, matches_seq, matches_group.
  cbn [matches]. unfold adv.
  cbn [pos before input caps].
  destruct (@star_states_app CDot b ((d0 :: D) ++ rest) Hdot
              (List.length (d0 :: D) + 0)
              (prev_after prev (d0 :: D)) []) as [inter [Heq Hin]].
  rewrite Heq.
  destruct (star_states_first CDot
              (List.length b + (List.length (d0 :: D) + 0))
              (prev_after (prev_after prev (d0 :: D)) b)
              ((d0 :: D) ++ rest) []) as [more ->].
  rewrite map_app, flat_map_app. cbn [map flat_map].
  rewrite flat_map_nil.
  - rewrite app_nil_l.
    rewrite (@matches_lit fl (d0 :: D)
               (set_cap 1 (List.length (d0 :: D) + 0)
                  {| pos := List.length b + (List.length (d0 :: D) + 0);
                     before := prev_after (prev_after prev (d0 :: D)) b;
                     input := (d0 :: D) ++ rest; caps := [] |})
               rest eq_refl).
    cbn [app adv set_cap pos caps]. f_equal. f_equal; [lia|].
    repeat f_equal; lia.
  - intros st Hst. apply in_map_iff in Hst. destruct Hst as [st0 [<- Hst0]].
    destruct (Hin st0 Hst0) as [d [r [Hi Hd]]].
    rewrite Forall_forall in Hb.
    apply (@matches_lit_miss d0 D (set_cap 1 _ st0) d r); [exact Hi | auto].
Qed.
End Delimited.

Lemma quiet_free fl r (x : N) (w : jsstring) :
  (forall prev y, N.eqb y x = false -> can_start fl r prev (Some y) = false) ->
  Forall (fun y => N.eqb y x = false) w ->
  forall prev, quiet fl r prev w = true.
Proof.
  intros Hr. induction 1 as [|y w Hy Hw IH]; intros prev; [reflexivity|].
  cbn [quiet]. now rewrite (Hr prev y Hy), IH.
Qed.

Lemma free_same fl r t (x : N) (s : jsstring) :
  (forall prev y, N.eqb y x = false -> can_start fl r prev (Some y) = false) ->
  (forall prev, can_start fl r prev None = false) ->
  Forall (fun y => N.eqb y x = false) s ->
  replace fl r t s = s.
Proof.
  intros Hr He Hs. apply replace_quiet; [|apply He].
  now apply quiet_free with x.
Qed.

Lemma delimited_stage (d0 : N) (D L R a b c : jsstring) :
  (forall prev y, N.eqb y d0 = false ->
                  can_start flags_g (delimited (d0 :: D)) prev (Some y) = false) ->
  (forall prev, can_start flags_g (delimited (d0 :: D)) prev None = false) ->
  Forall (fun y => N.eqb y d0 = false) a ->
  Forall (fun y => N.eqb y d0 = false) b ->
  Forall (fun y => is_line_terminator y = false) b ->
  Forall (fun y => N.eqb y d0 = false) c ->
  replace flags_g (delimited (d0 :: D)) [TLit L; TCap 1; TLit R]
          (a ++ (d0 :: D) ++ b ++ (d0 :: D) ++ c)
  = a ++ L ++ b ++ R ++ c.
Proof.
  intros Hr He Ha Hb Hlt Hc.
  change (replace flags_g ?r ?t ?s) with (scan flags_g r t 0 None s).
  rewrite (@scan_quiet flags_g (delimited (d0 :: D)) [TLit L; TCap 1; TLit R]
             a None _ (@quiet_free flags_g _ d0 a Hr Ha None)).
  f_equal.
  assert (Forall (fun y => class_mem flags_g CDot y = true) b) as Hdot.
  { apply Forall_forall. intros y Hy. rewrite Forall_forall in Hlt.
    simpl. now rewrite (Hlt y Hy). }
  pose proof (@delimited_exec flags_g d0 D (prev_after None a) b c Hdot Hb)
    as Hexec.
  change ((d0 :: D) ++ b ++ (d0 :: D) ++ c)
    with (d0 :: (D ++ b ++ (d0 :: D) ++ c)) in Hexec |- *.
  cbn [List.length Nat.add] in Hexec.
  rewrite (@scan_match flags_g (delimited (d0 :: D)) [TLit L; TCap 1; TLit R]
             _ _ _ _ _ Hexec).
  cbn [expand cap_lookup Nat.eqb]. rewrite !map_id, app_nil_r.
  change (d0 :: (D ++ b ++ (d0 :: D) ++ c))
    with ((d0 :: D) ++ b ++ (d0 :: D) ++ c).
  change (S (List.length D)) with (List.length (d0 :: D)) at 1.
  rewrite slice_middle. rewrite <- !app_assoc. do 3 f_equal.
  replace (D ++ b ++ (d0 :: D) ++ c) with ((D ++ b ++ (d0 :: D)) ++ c)
    by now rewrite <- !app_assoc.
  replace (List.length D + List.length b + S (List.length D))
    with (List.length (D ++ b ++ (d0 :: D)))
    by (rewrite !length_app; simpl; lia).
  rewrite scan_skip.
  apply scan_quiet_all; [now apply quiet_free with d0 | apply He].
Qed.

(** *** The stages before the markup *)

Lemma quiet_anchored fl r (w : jsstring) :
  anchored fl r ->
  Forall (fun y => is_line_terminator y = false) w ->
  forall c0, is_line_terminator c0 = false -> quiet fl r (Some c0) w = true.
Proof.
  intros [Hr _]. induction 1 as [|y w Hy Hw IH]; intros c0 Hc; [reflexivity|].
  cbn [quiet]. now rewrite (Hr c0 y Hc), IH.
Qed.

(** A pattern that is anchored and does not match at the start leaves one
    line as it is. *)
Lemma anchored_same fl r t (x : N) (X : jsstring) :
  anchored fl r ->
  exec fl r None (x :: X) = None ->
  Forall (fun y => is_line_terminator y = false) (x :: X) ->
  replace fl r t (x :: X) = x :: X.
Proof.
  intros Hr Hstart Hall. inversion Hall as [|? ? Hx HX]; subst.
  change (replace fl r t ?s) with (scan fl r t 0 None s).
  rewrite (@scan_no_match fl r t _ _ _ Hstart). f_equal.
  apply scan_quiet_all; [now apply quiet_anchored|].
  destruct (prev_after_in X x) as [c [-> Hc]].
  rewrite Forall_forall in Hall. apply Hr. now apply Hall.
Qed.

Lemma headings_anchored :
  Forall (fun st =>
            anchored (stage_flags st) (stage_regex st)
            /\ forall x, N.eqb x (chr "#") = false ->
                         can_start (stage_flags st) (stage_regex st) None
                                   (Some x) = false)
         (firstn 3 (skipn 3 stages)).
Proof.
  unfold stages. cbn [firstn skipn].
  repeat (apply Forall_cons; [ | ]); try apply Forall_nil.
  all: unfold stage_flags, stage_regex, anchored, can_start; cbn [fst snd].
  all: repeat split.
  all: try (intros c y Hc; cbn; rewrite ?Hc; reflexivity).
  all: try (intros c Hc; cbn; rewrite ?Hc; reflexivity).
  all: intros x Hx; cbn in Hx; cbn; rewrite ?Hx; reflexivity.
Qed.

Lemma paragraph_anchored : anchored flags_gm re_paragraph.
Proof.
  unfold anchored, can_start. split.
  - intros c y Hc. cbn. now rewrite Hc.
  - intros c Hc. cbn. now rewrite Hc.
Qed.

Lemma headings_same (x : N) (X : jsstring) :
  N.eqb x (chr "#") = false ->
  Forall (fun y => is_line_terminator y = false) (x :: X) ->
  fold_left (run_stage (fun c => c) (fun c => c)) (firstn 3 (skipn 3 stages))
            (x :: X)
  = x :: X.
Proof.
  intros Hx Hall.
  apply (fold_stages_invariant (fun c : N => c) (fun c : N => c)
           (fun s => s = x :: X)); [|reflexivity].
  intros [[fl r] t] s Hin ->. rewrite run_stage_plain.
  pose proof headings_anchored as H. rewrite Forall_forall in H.
  destruct (H _ Hin) as [Ha Hs]. unfold stage_flags, stage_regex in Ha, Hs.
  simpl in Ha, Hs.
  apply anchored_same; [exact Ha | | exact Hall].
  apply cannot_start. now apply Hs.
Qed.

(** *** Stars that stand alone *)

Lemma bold_exec_other (prev : option N) (c : N) (s : jsstring) :
  N.eqb c (chr "*") = false -> exec flags_g re_bold prev (c :: s) = None.
Proof.
  intros Hc. apply cannot_start. unfold can_start.
  cbn in Hc. cbn. now rewrite Hc.
Qed.

Lemma bold_exec_single (prev : option N) (c : N) (s : jsstring) :
  match s with d :: _ => N.eqb d (chr "*") = false | [] => True end ->
  exec flags_g re_bold prev (c :: s) = None.
Proof.
  intros Hs. unfold exec, re_bold. cbn [RSeqs].
  rewrite matches_seq.
  assert (matches flags_g (RLit (js "**"))
                  {| pos := 0; before := prev; input := c :: s; caps := [] |}
          = []) as ->; [|reflexivity].
  change (RLit (js "**"))
    with (RSeq (RClass (CChar (chr "*"))) (RClass (CChar (chr "*")))).
  rewrite matches_seq.
  destruct (N.eqb c (chr "*")) eqn:Ec.
  - rewrite (@matches_class flags_g (CChar (chr "*"))
               {| pos := 0; before := prev; input := c :: s; caps := [] |}
               c s eq_refl Ec).
    cbn [flat_map]. rewrite app_nil_r.
    destruct s as [|d s]; [reflexivity|].
    now rewrite (@matches_class_miss flags_g (CChar (chr "*"))
                   (adv {| pos := 0; before := prev; input := c :: d :: s;
                           caps := [] |} [c] (d :: s))
                   d s eq_refl Hs).
  - now rewrite (@matches_class_miss flags_g (CChar (chr "*"))
                   {| pos := 0; before := prev; input := c :: s; caps := [] |}
                   c s eq_refl Ec).
Qed.

Lemma bold_same (t : template) (s : jsstring) :
  no_double (chr "*") s = true ->
  forall prev, scan flags_g re_bold t 0 prev s = s.
Proof.
  induction s as [|c s IH]; intros Hs prev.
  - apply scan_end. reflexivity.
  - cbn [no_double] in Hs. apply andb_true_iff in Hs. destruct Hs as [Hc Hs].
    rewrite scan_no_match; [f_equal; now apply IH|].
    apply negb_true_iff, andb_false_iff in Hc. destruct Hc as [Hc | Hc].
    + now apply bold_exec_other.
    + apply bold_exec_single. destruct s; [exact I | exact Hc].
Qed.

Lemma no_double_app (x : N) (u v : jsstring) :
  Forall (fun d => N.eqb d x = false) u ->
  no_double x (u ++ v) = no_double x v.
Proof.
  induction 1 as [|c u Hc Hu IH]; [reflexivity|].
  simpl app. cbn [no_double]. now rewrite Hc, IH.
Qed.

Lemma no_double_single (x : N) (u : jsstring) :
  Forall (fun d => N.eqb d x = false) u ->
  no_double x (x :: u) = true.
Proof.
  intros Hu. cbn [no_double].
  rewrite <- (app_nil_r u) at 2. rewrite (@no_double_app x u [] Hu).
  destruct Hu as [|d u Hd _]; [now rewrite andb_false_r|].
  now rewrite Hd, andb_false_r.
Qed.

(** *** The stages after the markup *)

Lemma texty_facts (y : N) :
  texty y = true ->
  mild y = true /\ is_line_terminator y = false
  /\ N.eqb y (chr "&") = false /\ N.eqb y (chr "<") = false
  /\ N.eqb y (chr ">") = false /\ N.eqb y (chr "*") = false
  /\ N.eqb y (chr "`") = false.
Proof.
  unfold texty, mild. rewrite andb_true_iff, !negb_true_iff. intros [Hl Hm].
  pose proof (inb_false _ _ Hm) as H. rewrite Hl.
  repeat split; try (apply H; simpl; tauto).
  cbn [negb andb]. apply negb_true_iff.
  destruct (inb y (js "*`[")) eqn:E; [|reflexivity].
  apply inb_In in E. exfalso.
  assert (In y (js "&<>*`[")) as Hin by (simpl in *; tauto).
  apply inb_In in Hin. congruence.
Qed.

Lemma texty_all (P : N -> Prop) (w : jsstring) :
  (forall y, texty y = true -> P y) -> forallb texty w = true -> Forall P w.
Proof.
  intros HP Hw. apply Forall_forall. intros y Hy.
  rewrite forallb_forall in Hw. auto.
Qed.

(** A line of mild characters that starts with an opener and holds no
    start of an item is left as it is by every stage from bold to the
    links. *)
Lemma mild_line_same (x : N) (X : jsstring) :
  opener x = true -> forallb mild (x :: X) = true ->
  no_item (x :: X) = true ->
  forall st, In st (skipn 6 (firstn 16 stages)) ->
             run_stage (fun c => c) (fun c => c) (x :: X) st = x :: X.
Proof.
  intros Ho Hm Hi.
  assert (forall st, In st line_stages ->
                     run_stage (fun c => c) (fun c => c) (x :: X) st = x :: X)
    as Hline.
  { intros st Hin.
    apply (@line_stage_same st [x :: X] Hin); [discriminate|].
    constructor; [|constructor]. now split. }
  assert (forall t, replace flags_gms re_items t (x :: X) = x :: X) as Hitems.
  { intros t. now apply items_same. }
  intros st Hin. unfold stages in Hin. cbn [firstn skipn] in Hin.
  repeat (destruct Hin as [<- | Hin];
          [ first [ apply Hline; unfold line_stages; cbn; tauto
                  | rewrite run_stage_plain; apply Hitems
                  | idtac ] | ]); try contradiction.
  rewrite run_stage_plain.
  change (x :: X) with (unlines [10%N] [x :: X]) at 1.
  rewrite newline_stage; [reflexivity|]. now constructor.
Qed.

(** *** The end of the formatter *)

Lemma paragraph_blocked (x : N) (X : jsstring) :
  Forall (fun y => is_line_terminator y = false) (x :: X) ->
  matches flags_gm block_starts
          {| pos := 0; before := None; input := x :: X; caps := [] |} <> [] ->
  replace flags_gm re_paragraph (wrap "p") (x :: X) = x :: X.
Proof.
  intros Hall Hlook.
  apply anchored_same; [apply paragraph_anchored | | exact Hall].
  unfold exec, re_paragraph. cbn [RSeqs].
  rewrite matches_seq, matches_bol_start. cbn [flat_map].
  rewrite app_nil_r, matches_seq.
  cbn [matches].
  destruct (matches flags_gm block_starts _) as [|st l]; [congruence|].
  reflexivity.
Qed.

Lemma trim_end_single_spaced (s : jsstring) :
  single_spaced s = true -> trim_end (fun c : N => c) s = s.
Proof.
  induction s as [|c s IH]; intros H; [reflexivity|].
  cbn [single_spaced] in H. apply andb_true_iff in H. destruct H as [Hc Hs].
  rewrite trim_end_cons, (IH Hs).
  destruct s as [|d s]; [|reflexivity].
  destruct (is_space c); [|reflexivity].
  apply andb_true_iff in Hc. destruct Hc as [_ Hc]. discriminate.
Qed.

Lemma trim_single_spaced (x : N) (X : jsstring) :
  is_space x = false -> single_spaced (x :: X) = true ->
  trim (x :: X) = x :: X.
Proof.
  intros Hx Hs. unfold trim, trim_gen. cbn [trim_start]. rewrite Hx.
  now apply trim_end_single_spaced.
Qed.

Lemma collapsed_then (u v : jsstring) :
  collapsed u = true ->
  match v with d :: _ => is_space d = false | [] => False end ->
  single_spaced (u ++ v) = single_spaced v.
Proof.
  induction u as [|c u IH]; intros Hu Hv; [reflexivity|].
  cbn [collapsed] in Hu. apply andb_true_iff in Hu. destruct Hu as [Hc Hu].
  simpl app. cbn [single_spaced]. rewrite (IH Hu Hv).
  destruct (is_space c); [|reflexivity].
  apply andb_true_iff in Hc. destruct Hc as [Hc Hd]. rewrite Hc.
  destruct u as [|d u].
  - destruct v as [|d v]; [contradiction|]. simpl. now rewrite Hv.
  - simpl. now rewrite Hd.
Qed.

(** The last two stages and [trim] on one line that starts with a tag of
    the lookahead. *)
Lemma late_stages_blocked (x : N) (X : jsstring) :
  Forall (fun y => is_line_terminator y = false) (x :: X) ->
  matches flags_gm block_starts
          {| pos := 0; before := None; input := x :: X; caps := [] |} <> [] ->
  is_space x = false ->
  single_spaced (x :: X) = true ->
  trim (fold_left (run_stage (fun c => c) (fun c => c))
                  [ (flags_gm, re_paragraph, wrap "p");
                    (flags_g, re_spaces, [TLit (js " ")]) ] (x :: X))
  = x :: X.
Proof.
  intros Hall Hlook Hx Hss. cbn [fold_left]. rewrite !run_stage_plain.
  rewrite (paragraph_blocked Hall Hlook).
  change (replace flags_g re_spaces [TLit (js " ")] ?s)
    with (scan flags_g re_spaces [TLit (js " ")] 0 None s).
  rewrite (spaces_same _ Hss). now apply trim_single_spaced.
Qed.

(** *** The three patterns *)

Lemma bold_free :
  (forall prev y, N.eqb y (chr "*") = false ->
                  can_start flags_g re_bold prev (Some y) = false)
  /\ (forall prev, can_start flags_g re_bold prev None = false).
Proof.
  split; [|reflexivity]. intros prev y Hy. unfold can_start.
  cbn in Hy. cbn. now rewrite Hy.
Qed.

Lemma italic_free :
  (forall prev y, N.eqb y (chr "*") = false ->
                  can_start flags_g re_italic prev (Some y) = false)
  /\ (forall prev, can_start flags_g re_italic prev None = false).
Proof.
  split; [|reflexivity]. intros prev y Hy. unfold can_start.
  cbn in Hy. cbn. now rewrite Hy.
Qed.

Lemma code_free :
  (forall prev y, N.eqb y (chr "`") = false ->
                  can_start flags_g re_code prev (Some y) = false)
  /\ (forall prev, can_start flags_g re_code prev None = false).
Proof.
  split; [|reflexivity]. intros prev y Hy. unfold can_start.
  cbn in Hy. cbn. now rewrite Hy.
Qed.

Lemma no_item_tags (k : inline) (rest : jsstring) :
  no_item (opening k ++ rest) = no_item rest
  /\ no_item (closing_tag k ++ rest) = no_item rest.
Proof. destruct k; split; reflexivity. Qed.

Section Line.
Variable k : inline.
Variables a b c : jsstring.
Hypothesis Ha : forallb texty a = true.
Hypothesis Hb : forallb texty b = true.
Hypothesis Hc : forallb texty c = true.
Hypothesis Hopen : a = [] \/ starts_open a = true.
Hypothesis Hsa : collapsed a = true.
Hypothesis Hsb : collapsed b = true.
Hypothesis Hsc : single_spaced c = true.

(** The line after the markup has been replaced. *)
Lemma inline_line :
  exists x X,
    a ++ opening k ++ b ++ closing_tag k ++ c = x :: X
    /\ opener x = true
    /\ forallb mild (x :: X) = true
    /\ no_item (x :: X) = true
    /\ Forall (fun y => is_line_terminator y = false) (x :: X)
    /\ single_spaced (x :: X) = true
    /\ match a with
       | [] => matches flags_gm block_starts
                       {| pos := 0; before := None; input := x :: X;
                          caps := [] |} <> []
       | _ :: _ => matches flags_gm block_starts
                           {| pos := 0; before := None; input := x :: X;
                              caps := [] |} = []
       end.
Proof.
  assert (forall w, forallb texty w = true -> forallb mild w = true) as Hmild.
  { intros w Hw. apply forallb_forall. intros y Hy.
    rewrite forallb_forall in Hw. now destruct (texty_facts y (Hw y Hy)). }
  assert (forall w, forallb texty w = true ->
                    Forall (fun y => N.eqb y (chr "<") = false) w) as Hclean.
  { intros w Hw. apply (texty_all _ w); [|exact Hw].
    intros y Hy. now destruct (texty_facts y Hy) as [_ [_ [_ [H _]]]]. }
  assert (forallb mild (a ++ opening k ++ b ++ closing_tag k ++ c) = true)
    as HmT.
  { rewrite !forallb_app, (Hmild a Ha), (Hmild b Hb), (Hmild c Hc).
    destruct k; reflexivity. }
  assert (no_item (a ++ opening k ++ b ++ closing_tag k ++ c) = true) as HiT.
  { rewrite (no_item_app _ (Hclean a Ha)).
    rewrite (proj1 (no_item_tags k _)), (no_item_app _ (Hclean b Hb)).
    rewrite (proj2 (no_item_tags k _)).
    rewrite <- (app_nil_r c). now rewrite (no_item_app _ (Hclean c Hc)). }
  assert (single_spaced (a ++ opening k ++ b ++ closing_tag k ++ c) = true)
    as HsT.
  { rewrite (collapsed_then a _ Hsa) by (destruct k; reflexivity).
    rewrite (@single_spaced_app (opening k) _) by (destruct k; reflexivity).
    rewrite (collapsed_then b _ Hsb) by (destruct k; reflexivity).
    rewrite (@single_spaced_app (closing_tag k) _) by (destruct k; reflexivity).
    exact Hsc. }
  assert (Forall (fun y => is_line_terminator y = false)
                 (a ++ opening k ++ b ++ closing_tag k ++ c)) as HlT.
  { apply Forall_forall. intros y Hy. rewrite forallb_forall in HmT.
    now destruct (mild_facts y (HmT y Hy)). }
  destruct a as [|y a'].
  - assert (exists X, opening k ++ b ++ closing_tag k ++ c = chr "<" :: X)
      as [X EX] by (destruct k; eexists; reflexivity).
    exists (chr "<"), X. simpl app in *. rewrite EX in *.
    repeat split; try assumption.
    rewrite <- EX. destruct k; discriminate.
  - exists y, (a' ++ opening k ++ b ++ closing_tag k ++ c).
    destruct Hopen as [|Ho]; [discriminate|]. simpl in Ho.
    repeat split; try assumption.
    apply matches_cannot_start.
    simpl in Ha. apply andb_true_iff in Ha. destruct Ha as [Hy _].
    destruct (texty_facts y Hy) as [_ [_ [_ [H _]]]].
    unfold can_start. cbn in H. cbn. now rewrite H.
Qed.
End Line.

Lemma texty_keeps (w : jsstring) (x : N) :
  In x (js "&<>*`") ->
  forallb texty w = true -> Forall (fun y => N.eqb y x = false) w.
Proof.
  intros Hx Hw. apply (texty_all _ w); [|exact Hw]. intros y Hy.
  destruct (texty_facts y Hy) as [_ [_ [H1 [H2 [H3 [H4 H5]]]]]].
  simpl in Hx. cbn in H1, H2, H3, H4, H5.
  destruct Hx as [<- | [<- | [<- | [<- | [<- | []]]]]]; assumption.
Qed.

(** The three stages of inline markup on a line with one stretch. *)
Lemma inline_stages (k : inline) (a b c : jsstring) (x : N) (X : jsstring) :
  forallb texty a = true -> forallb texty b = true -> forallb texty c = true ->
  (k = Italic -> b <> []) ->
  a ++ opening k ++ b ++ closing_tag k ++ c = x :: X ->
  opener x = true -> forallb mild (x :: X) = true ->
  no_item (x :: X) = true ->
  fold_left (run_stage (fun c => c) (fun c => c)) (firstn 3 (skipn 6 stages))
            (a ++ delimiter k ++ b ++ delimiter k ++ c)
  = x :: X.
Proof.
  intros Ha Hb Hc Hne ET Ho Hm Hi.
  pose proof (@mild_line_same x X Ho Hm Hi) as Hsame.
  assert (Forall (fun y => is_line_terminator y = false) b) as Hlt.
  { apply (texty_all _ b); [|exact Hb]. intros y Hy.
    now destruct (texty_facts y Hy). }
  assert (In (chr "*") (js "&<>*`")) as Hstar by (simpl; tauto).
  assert (In (chr "`") (js "&<>*`")) as Htick by (simpl; tauto).
  change (firstn 3 (skipn 6 stages))
    with [ (flags_g, re_bold, wrap "strong");
           (flags_g, re_italic, wrap "em");
           (flags_g, re_code, wrap "code") ].
  cbn [fold_left]. destruct k.
  - assert (run_stage (fun c => c) (fun c => c)
              (a ++ delimiter Bold ++ b ++ delimiter Bold ++ c)
              (flags_g, re_bold, wrap "strong") = x :: X) as ->.
    { rewrite <- ET.
      exact (@delimited_stage (chr "*") [chr "*"] (js "<strong>")
               (js "</strong>") a b c (proj1 bold_free) (proj2 bold_free)
               (@texty_keeps _ _ Hstar Ha) (@texty_keeps _ _ Hstar Hb) Hlt
               (@texty_keeps _ _ Hstar Hc)). }
    rewrite !Hsame; [reflexivity | |]; unfold stages; cbn; tauto.
  - assert (run_stage (fun c => c) (fun c => c)
              (a ++ delimiter Italic ++ b ++ delimiter Italic ++ c)
              (flags_g, re_bold, wrap "strong")
            = a ++ delimiter Italic ++ b ++ delimiter Italic ++ c) as ->.
    { rewrite run_stage_plain.
      change (replace flags_g re_bold ?t ?s)
        with (scan flags_g re_bold t 0 None s).
      apply bold_same.
      rewrite (@no_double_app _ _ _ (@texty_keeps _ _ Hstar Ha)).
      destruct b as [|b0 b']; [now destruct (Hne eq_refl)|].
      pose proof (@texty_keeps _ _ Hstar Hb) as Hb'.
      inversion Hb' as [|? ? Hb0 _]; subst.
      change (delimiter Italic ++ (b0 :: b') ++ delimiter Italic ++ c)
        with (chr "*" :: (b0 :: b') ++ chr "*" :: c).
      cbn [no_double]. cbn [app]. rewrite Hb0, andb_false_r. cbn [negb andb].
      change (b0 :: b' ++ chr "*" :: c) with ((b0 :: b') ++ chr "*" :: c).
      rewrite (@no_double_app _ _ _ Hb').
      apply no_double_single. exact (@texty_keeps _ _ Hstar Hc). }
    assert (run_stage (fun c => c) (fun c => c)
              (a ++ delimiter Italic ++ b ++ delimiter Italic ++ c)
              (flags_g, re_italic, wrap "em") = x :: X) as ->.
    { rewrite <- ET.
      exact (@delimited_stage (chr "*") [] (js "<em>")
               (js "</em>") a b c (proj1 italic_free) (proj2 italic_free)
               (@texty_keeps _ _ Hstar Ha) (@texty_keeps _ _ Hstar Hb) Hlt
               (@texty_keeps _ _ Hstar Hc)). }
    rewrite !Hsame; [reflexivity |]; unfold stages; cbn; tauto.
  - assert (Forall (fun y => N.eqb y (chr "*") = false)
                   (a ++ delimiter Code ++ b ++ delimiter Code ++ c)) as Hfree.
    { repeat (apply Forall_app; split);
        try (now apply texty_keeps); repeat constructor. }
    rewrite !run_stage_plain.
    rewrite (@free_same flags_g re_bold (wrap "strong") (chr "*") _
               (proj1 bold_free) (proj2 bold_free) Hfree).
    rewrite (@free_same flags_g re_italic (wrap "em") (chr "*") _
               (proj1 italic_free) (proj2 italic_free) Hfree).
    rewrite <- ET.
    exact (@delimited_stage (chr "`") [] (js "<code>")
             (js "</code>") a b c (proj1 code_free) (proj2 code_free)
             (@texty_keeps _ _ Htick Ha) (@texty_keeps _ _ Htick Hb) Hlt
             (@texty_keeps _ _ Htick Hc)).
Qed.

(** X15.  One stretch of bold, italics or inline code in a line of running
    text, where the text before the stretch is empty or starts with none
    of white space, a digit, [#] and [-] (a line that starts with one of
    these can be a heading or an item of a list): the text between the
    delimiters is put into the element, the text around it is kept, and
    the line becomes a paragraph, unless it starts with the stretch: then
    the line starts with [<strong>], [<em>] or [<code>], which the
    lookahead of the paragraphs lists, and it is not wrapped.  Running text
    holds no line terminator and none of [&], [<], [>], star, backtick and
    opening bracket; its white space is single spaces, and the text after
    the stretch does not end with one; the text of a stretch of italics is
    not empty. *)
Theorem inline_markup (k : inline) (a b c : jsstring) :
  forallb texty a = true -> forallb texty b = true -> forallb texty c = true ->
  a = [] \/ starts_open a = true ->
  (k = Italic -> b <> []) ->
  collapsed a = true -> collapsed b = true -> single_spaced c = true ->
  format (a ++ delimiter k ++ b ++ delimiter k ++ c)
  = match a with
    | [] => opening k ++ b ++ closing_tag k ++ c
    | _ :: _ =>
        js "<p>" ++ a ++ opening k ++ b ++ closing_tag k ++ c ++ js "</p>"
    end.
Proof.
  intros Ha Hb Hc Hopen Hne Hsa Hsb Hsc.
  destruct (@inline_line k a b c Ha Hb Hc Hopen Hsa Hsb Hsc)
    as [x [X [ET [Ho [Hm [Hi [Hl [Hs Hlook]]]]]]]].
  set (T0 := a ++ delimiter k ++ b ++ delimiter k ++ c).
  assert (exists x0 X0, T0 = x0 :: X0 /\ N.eqb x0 (chr "#") = false)
    as [x0 [X0 [ET0 Hx0]]].
  { unfold T0. destruct a as [|y a'].
    - destruct k; eexists _, _; split; reflexivity.
    - exists y, (a' ++ delimiter k ++ b ++ delimiter k ++ c).
      split; [reflexivity|]. destruct Hopen as [|Hy]; [discriminate|].
      simpl in Hy. now destruct (opener_facts y Hy) as [_ [_ [_ [H _]]]]. }
  assert (Forall (fun y => texty y = true \/ In y (js "*`")) T0) as Hchars.
  { assert (forall w, forallb texty w = true ->
                      Forall (fun y => texty y = true \/ In y (js "*`")) w)
      as Htexty.
    { intros w Hw. apply (texty_all _ w); [|exact Hw]. now left. }
    assert (Forall (fun y => texty y = true \/ In y (js "*`")) (delimiter k))
      as Hdelim.
    { apply Forall_forall. intros y Hy. right.
      destruct k; simpl in Hy |- *; tauto. }
    unfold T0. repeat (apply Forall_app; split); auto. }
  assert (Forall (fun y => is_line_terminator y = false) T0) as Hl0.
  { apply Forall_forall. intros y Hy. rewrite Forall_forall in Hchars.
    destruct (Hchars y Hy) as [H | H].
    - now destruct (texty_facts y H).
    - simpl in H. destruct H as [<- | [<- | []]]; reflexivity. }
  assert (escape_html T0 = T0) as Hesc.
  { apply flat_map_keep. intros y Hy. rewrite Forall_forall in Hchars.
    unfold escape_unit. destruct (Hchars y Hy) as [H | H].
    - destruct (texty_facts y H) as [_ [_ [H1 [H2 [H3 _]]]]].
      now rewrite H1, H2, H3.
    - simpl in H. destruct H as [<- | [<- | []]]; reflexivity. }
  rewrite ET0, format_nonempty, <- ET0.
  change stages
    with (firstn 3 stages
          ++ firstn 3 (skipn 3 stages)
          ++ firstn 3 (skipn 6 stages)
          ++ skipn 9 (firstn 16 stages)
          ++ skipn 16 stages).
  rewrite !fold_left_app.
  rewrite escape_stages, Hesc.
  rewrite ET0, (headings_same Hx0) by (rewrite <- ET0; exact Hl0).
  rewrite <- ET0. unfold T0.
  rewrite (@inline_stages k a b c x X Ha Hb Hc Hne ET Ho Hm Hi).
  assert (fold_left (run_stage (fun c => c) (fun c => c))
                    (skipn 9 (firstn 16 stages)) (x :: X) = x :: X) as ->.
  { apply (fold_stages_invariant (fun c : N => c) (fun c : N => c)
             (fun s => s = x :: X)); [|reflexivity].
    intros st s Hin ->. apply mild_line_same; try assumption.
    unfold stages in Hin |- *. cbn [firstn skipn] in Hin |- *.
    simpl in Hin |- *. tauto. }
  change (skipn 16 stages)
    with [ (flags_gm, re_paragraph, wrap "p");
           (flags_g, re_spaces, [TLit (js " ")]) ].
  destruct a as [|y a'].
  - rewrite (late_stages_blocked Hl Hlook); [symmetry; exact ET | | exact Hs].
    now destruct (opener_facts x Ho) as [_ [H _]].
  - rewrite (late_stages Hl Hlook Hs), <- ET.
    repeat (rewrite <- app_assoc || rewrite <- app_comm_cons). reflexivity.
Qed.

Lemma inline_markup_witness :
  format (js "say " ++ delimiter Bold ++ js "hello you" ++ delimiter Bold
             ++ js " now")
  = js "<p>" ++ js "say " ++ opening Bold ++ js "hello you" ++ closing_tag Bold
    ++ js " now" ++ js "</p>".
Proof.
  apply (@inline_markup Bold (js "say ") (js "hello you") (js " now"));
    try (vm_compute; reflexivity).
  - right. vm_compute. reflexivity.
  - discriminate.
Defined.

End InlineFacts.

(** ** Numbered items *)

Module NumberedFacts.
Import StringFacts TrimFacts MatchFacts ReplaceFacts FormatterFacts LinkFacts
       Further EscapeFacts ParagraphFacts SpacingFacts InlineFacts.

Local Open Scope string_scope.
Local Open Scope list_scope.

Local Arguments N.eqb : simpl never.
Local Arguments is_space : simpl never.
Local Arguments is_line_terminator : simpl never.
Local Arguments is_digit : simpl never.

Lemma digit_facts (x : N) :
  is_digit x = true ->
  is_space x = false /\ is_line_terminator x = false
  /\ mild x = true
  /\ forall k, In k (js "&<>*`[#-.") -> N.eqb x k = false.
Proof.
  unfold is_digit. rewrite andb_true_iff, !N.leb_le. intros [H1 H2].
  assert (is_space x = false) as Hs.
  { unfold is_space, inb. cbn [existsb].
    repeat match goal with
           | |- context [N.eqb x ?k] =>
               destruct (N.eqb_spec x k) as [?|_]; [lia|]
           end.
    destruct (N.leb_spec 8192 x); [lia | reflexivity]. }
  assert (forall k, In k (js "&<>*`[#-.") -> N.eqb x k = false) as Hk.
  { intros k Hk. apply N.eqb_neq. simpl in Hk.
    repeat (destruct Hk as [<- | Hk]; [lia|]). contradiction. }
  assert (is_line_terminator x = false) as Hl
      by now apply not_space_not_terminator.
  repeat split; try assumption.
  unfold mild. rewrite Hl. cbn [negb andb]. apply negb_true_iff.
  destruct (inb x (js "*`[")) eqn:E; [|reflexivity].
  apply inb_In in E.
  assert (In x (js "&<>*`[#-.")) as Hin by (simpl in *; tauto).
  specialize (Hk x Hin). now rewrite N.eqb_refl in Hk.
Qed.

(** *** The stages that a digit at the start does not concern *)

Lemma digit_start_stages :
  Forall (fun st =>
            forall x, is_digit x = true ->
                      can_start (stage_flags st) (stage_regex st) None (Some x)
                      = false)
         (firstn 4 (skipn 6 stages) ++ firstn 1 (skipn 11 stages)
          ++ firstn 1 (skipn 15 stages)).
Proof.
  unfold stages. cbn [firstn skipn app].
  repeat (apply Forall_cons; [ | ]); try apply Forall_nil.
  all: intros x Hx; destruct (digit_facts x Hx) as [Hs [Hl [_ Hk]]].
  all: pose proof (Hk (chr "*") ltac:(simpl; tauto)) as H1.
  all: pose proof (Hk (chr "`") ltac:(simpl; tauto)) as H2.
  all: pose proof (Hk (chr "[") ltac:(simpl; tauto)) as H3.
  all: pose proof (Hk (chr "-") ltac:(simpl; tauto)) as H4.
  all: unfold stage_flags, stage_regex, can_start; cbn [fst snd].
  all: cbn in H1, H2, H3, H4; cbn; rewrite ?Hs, ?H1, ?H2, ?H3, ?H4.
  all: reflexivity.
Qed.

Lemma digit_start_same (st : flags * regex * template) (x : N) (X : jsstring) :
  In st (firstn 4 (skipn 6 stages) ++ firstn 1 (skipn 11 stages)
         ++ firstn 1 (skipn 15 stages)) ->
  is_digit x = true -> forallb mild (x :: X) = true ->
  run_stage (fun c => c) (fun c => c) (x :: X) st = x :: X.
Proof.
  intros Hin Hx Hm.
  pose proof digit_start_stages as Hstart. rewrite Forall_forall in Hstart.
  specialize (Hstart st Hin x Hx).
  assert (In st line_stages) as Hline.
  { unfold line_stages, stages in *. cbn [firstn skipn app] in *.
    simpl in Hin |- *. tauto. }
  pose proof line_stages_inert as Hr. rewrite Forall_forall in Hr.
  specialize (Hr st Hline).
  destruct st as [[fl r] t]. unfold stage_flags, stage_regex in *.
  simpl in Hstart, Hr. rewrite run_stage_plain.
  destruct (digit_facts x Hx) as [_ [Hl _]].
  simpl in Hm. apply andb_true_iff in Hm. destruct Hm as [Hmx HmX].
  apply replace_quiet.
  - cbn [quiet]. rewrite Hstart. cbn [negb andb].
    now apply quiet_mild.
  - cbn [prev_after].
    destruct (@prev_after_mild X x) as [c [-> Hc]].
    + simpl. now rewrite Hmx.
    + now apply Hr.
Qed.

(** *** The pattern of the numbered items on one item *)

Lemma numbered_anchored : anchored flags_gm re_numbered.
Proof.
  unfold anchored, can_start. split.
  - intros c y Hc. cbn. now rewrite Hc.
  - intros c Hc. cbn. now rewrite Hc.
Qed.

Lemma numbered_exec (d0 : N) (n body : jsstring) :
  is_digit d0 = true ->
  Forall (fun d => is_digit d = true) n ->
  Forall (fun y => is_line_terminator y = false) body ->
  match body with [] => True | y :: _ => is_space y = false end ->
  exec flags_gm re_numbered None ((d0 :: n) ++ js ". " ++ body)
  = Some (List.length ((d0 :: n) ++ js ". " ++ body),
          [(1, (List.length (d0 :: n) + 2, List.length body))]).
Proof.
  intros Hd0 Hn Hbody Hhead.
  destruct (digit_facts d0 Hd0) as [Hs0 _].
  unfold exec, re_numbered. cbn [RSeqs].
  rewrite matches_seq, matches_bol_start. cbn [flat_map].
  rewrite app_nil_r, matches_seq, matches_star.
  cbn [pos before input caps app star_states class_mem].
  rewrite Hs0. cbn [rev app flat_map]. rewrite app_nil_r.
  rewrite matches_seq.
  rewrite (@plus_run flags_gm CDigit _ d0 n (js ". " ++ body));
    [ | reflexivity | exact Hd0 | exact Hn | reflexivity | ].
  2:{ intros st' [d [rest [Hi [Hd _]]]]. apply matches_cannot_start.
      rewrite Forall_forall in Hn.
      destruct (digit_facts d (Hn d Hd)) as [_ [_ [_ Hk]]].
      pose proof (Hk (chr ".") ltac:(simpl; tauto)) as H.
      unfold can_start. rewrite Hi. cbn in H. cbn. now rewrite H. }
  rewrite matches_seq. unfold RChar.
  erewrite matches_class; [|reflexivity|reflexivity].
  cbn [flat_map]. rewrite app_nil_r, matches_seq.
  rewrite (@plus_run flags_gm CSpace _ 32%N [] body);
    [ | reflexivity | reflexivity | constructor | exact Hhead | ].
  2:{ intros st' [d [rest [_ [[] _]]]]. }
  rewrite matches_seq, matches_group, matches_star.
  assert (Forall (fun y => class_mem flags_gm CDot y = true) body) as Hdot.
  { apply Forall_forall. intros y Hy. rewrite Forall_forall in Hbody.
    simpl. now rewrite (Hbody y Hy). }
  unfold adv. cbn [pos before input caps List.length prev_after].
  match goal with
  | |- context [star_states flags_gm CDot ?p ?b body ?cs] =>
      rewrite <- (app_nil_r body) at 1;
      destruct (@star_states_run flags_gm CDot body [] Hdot I p b cs)
        as [inter [Heq _]]
  end.
  rewrite Heq, rev_app_distr. cbn [rev app map flat_map matches].
  unfold at_eol. cbn [set_cap input pos caps app].
  assert (List.length (n ++ js ". " ++ body)
          = List.length n + 2 + List.length body) as ->
      by (rewrite !length_app; simpl; lia).
  match goal with
  | |- Some (?u, [(1, (?p, ?q))]) = Some (?u', [(1, (?p', ?q'))]) =>
      assert (q = q') as -> by lia;
      assert (u = u') as -> by lia;
      assert (p = p') as -> by lia
  end.
  reflexivity.
Qed.

Lemma numbered_stage (d0 : N) (n body : jsstring) :
  is_digit d0 = true ->
  Forall (fun d => is_digit d = true) n ->
  Forall (fun y => is_line_terminator y = false) body ->
  match body with [] => True | y :: _ => is_space y = false end ->
  replace flags_gm re_numbered (wrap "li") ((d0 :: n) ++ js ". " ++ body)
  = js "<li>" ++ body ++ js "</li>".
Proof.
  intros Hd0 Hn Hbody Hhead.
  pose proof (@numbered_exec d0 n body Hd0 Hn Hbody Hhead) as Hexec.
  change (replace flags_gm re_numbered (wrap "li") ?s)
    with (scan flags_gm re_numbered (wrap "li") 0 None s).
  change ((d0 :: n) ++ js ". " ++ body)
    with (d0 :: (n ++ js ". " ++ body)) in Hexec |- *.
  cbn [List.length] in Hexec.
  rewrite (@scan_match flags_gm re_numbered (wrap "li") _ _ _ _ _ Hexec).
  rewrite scan_skip_all, scan_end.
  - rewrite app_nil_r.
    change (wrap "li") with [TLit (js "<li>"); TCap 1; TLit (js "</li>")].
    cbn [expand cap_lookup Nat.eqb]. rewrite !map_id, app_nil_r.
    f_equal. f_equal.
    replace (d0 :: n ++ js ". " ++ body)
      with (((d0 :: n) ++ js ". ") ++ body ++ [])
      by (rewrite app_nil_r, <- app_assoc; reflexivity).
    replace (S (List.length n) + 2) with (List.length ((d0 :: n) ++ js ". "))
      by (rewrite length_app; reflexivity).
    apply slice_middle.
  - assert (Forall (fun y => is_line_terminator y = false)
                   (d0 :: n ++ js ". " ++ body)) as Hall.
    { constructor; [now destruct (digit_facts d0 Hd0) as [_ [H _]]|].
      repeat (apply Forall_app; split); try assumption;
        [|repeat constructor].
      apply Forall_forall. intros d Hd. rewrite Forall_forall in Hn.
      now destruct (digit_facts d (Hn d Hd)) as [_ [H _]]. }
    destruct (prev_after_in (n ++ js ". " ++ body) d0) as [c [-> Hc]].
    rewrite Forall_forall in Hall. apply numbered_anchored. now apply Hall.
Qed.

(** *** The pattern of the runs of items on one item *)

Section Greedy.
Variable fl : flags.

Lemma matches_lit_short (lit : jsstring) :
  forall st,
    List.length (input st) < List.length lit -> matches fl (RLit lit) st = [].
Proof.
  induction lit as [|c lit IH]; intros st Hlen; [simpl in Hlen; lia|].
  destruct lit as [|d lit].
  - destruct st as [p b inp cs]. destruct inp; [reflexivity|].
    simpl in Hlen. lia.
  - change (RLit (c :: d :: lit)) with (RSeq (RChar c) (RLit (d :: lit))).
    rewrite matches_seq. unfold RChar. cbn [matches].
    destruct (input st) as [|x rest] eqn:Hi; [reflexivity|].
    destruct (class_mem fl (CChar c) x); [|reflexivity].
    cbn [flat_map]. rewrite app_nil_r. apply IH.
    simpl in Hlen |- *. lia.
Qed.

(** The states of a run after the first are further on in the input. *)
Lemma star_states_later (k : cclass) (inp : jsstring) :
  forall p b cs,
  exists more,
    star_states fl k p b inp cs
    = {| pos := p; before := b; input := inp; caps := cs |} :: more
    /\ forall st, In st more -> List.length (input st) < List.length inp.
Proof.
  induction inp as [|c inp IH]; intros p b cs.
  - exists []. split; [reflexivity | intros st []].
  - cbn [star_states]. destruct (class_mem fl k c).
    + destruct (IH (S p) (Some c) cs) as [more [-> Hmore]].
      eexists. split; [reflexivity|].
      intros st [<- | Hst]; simpl; [lia|].
      specialize (Hmore st Hst). lia.
    + exists []. split; [reflexivity | intros st []].
Qed.

(** A greedy run and then a literal, on a text that ends with the
    literal: the match goes to the end of the text. *)
Lemma greedy_to_last (k : cclass) (lit w : jsstring) (st : mstate) :
  lit <> [] ->
  input st = w ++ lit ->
  Forall (fun c => class_mem fl k c = true) w ->
  exists others,
    flat_map (matches fl (RLit lit)) (matches fl (RStar true k) st)
    = adv st (w ++ lit) [] :: others.
Proof.
  intros Hne Hi Hw. rewrite matches_star, Hi.
  destruct (@star_states_app fl k w lit Hw (pos st) (before st) (caps st))
    as [inter [-> _]].
  destruct (star_states_later k lit (List.length w + pos st)
              (prev_after (before st) w) (caps st)) as [more [-> Hmore]].
  rewrite rev_app_distr. cbn [rev]. rewrite !flat_map_app.
  rewrite flat_map_nil.
  - cbn [flat_map app].
    rewrite (@matches_lit fl lit
               {| pos := List.length w + pos st;
                  before := prev_after (before st) w;
                  input := lit; caps := caps st |} []
               (eq_sym (app_nil_r lit))).
    cbn [app]. eexists. f_equal.
    unfold adv. cbn [pos before input caps]. f_equal.
    + rewrite length_app. lia.
    + now rewrite prev_after_app.
  - intros x Hx. apply in_rev in Hx. apply matches_lit_short. now apply Hmore.
Qed.
End Greedy.

Lemma items_exec_whole (prev : option N) (body : jsstring) :
  exec flags_gms re_items prev (js "<li>" ++ body ++ js "</li>")
  = Some (List.length (js "<li>" ++ body ++ js "</li>"),
          [(1, (0, List.length (js "<li>" ++ body ++ js "</li>")))]).
Proof.
  unfold exec, re_items. cbn [RSeqs]. rewrite matches_group, matches_seq.
  rewrite (@matches_lit flags_gms (js "<li>")
             {| pos := 0; before := prev;
                input := js "<li>" ++ body ++ js "</li>"; caps := [] |}
             (body ++ js "</li>") eq_refl).
  cbn [flat_map]. rewrite app_nil_r, matches_seq.
  destruct (@greedy_to_last flags_gms CDot (js "</li>") body
              (adv {| pos := 0; before := prev;
                      input := js "<li>" ++ body ++ js "</li>"; caps := [] |}
                   (js "<li>") (body ++ js "</li>")))
    as [others ->]; [discriminate | reflexivity | now apply Forall_forall |].
  cbn [map set_cap adv pos before input caps].
  rewrite !length_app. cbn [List.length js map list_ascii_of_string].
  replace (List.length body + 5 + (4 + 0) - 0)
    with (4 + (List.length body + 5)) by lia.
  replace (List.length body + 5 + (4 + 0))
    with (4 + (List.length body + 5)) by lia.
  reflexivity.
Qed.

Lemma items_stage_whole (tag : string) (body : jsstring) :
  replace flags_gms re_items (wrap tag) (js "<li>" ++ body ++ js "</li>")
  = js ("<" ++ tag ++ ">") ++ (js "<li>" ++ body ++ js "</li>")
    ++ js ("</" ++ tag ++ ">").
Proof.
  pose proof (items_exec_whole None body) as Hexec.
  change (replace flags_gms re_items (wrap tag) ?s)
    with (scan flags_gms re_items (wrap tag) 0 None s).
  change (js "<li>" ++ body ++ js "</li>")
    with (chr "<" :: (js "li>" ++ body ++ js "</li>")) in Hexec |- *.
  cbn [List.length] in Hexec.
  rewrite (@scan_match flags_gms re_items (wrap tag) _ _ _ _ _ Hexec).
  rewrite scan_skip_all, scan_end by apply items_can_end.
  rewrite app_nil_r. unfold wrap.
  cbn [expand cap_lookup Nat.eqb]. rewrite !map_id, app_nil_r.
  unfold slice. cbn [skipn].
  change (S (List.length (js "li>" ++ body ++ js "</li>")))
    with (List.length (chr "<" :: (js "li>" ++ body ++ js "</li>"))).
  now rewrite firstn_all.
Qed.

(** X16.  One numbered line, digits, a dot, one space and running text
    that does not start with white space, becomes an ordered list with one
    item that holds the text; the list is not wrapped in a paragraph. *)
Theorem numbered_item (n body : jsstring) :
  n <> [] ->
  forallb is_digit n = true ->
  forallb texty body = true ->
  single_spaced body = true ->
  match body with [] => True | y :: _ => is_space y = false end ->
  format (n ++ js ". " ++ body) = js "<ol><li>" ++ body ++ js "</li></ol>".
Proof.
  intros Hne Hdig Hbody Hss Hhead.
  destruct n as [|d0 n]; [congruence|]. clear Hne.
  simpl in Hdig. apply andb_true_iff in Hdig. destruct Hdig as [Hd0 Hn].
  assert (Forall (fun d => is_digit d = true) n) as Hn'
      by (apply Forall_forall; now apply forallb_forall).
  assert (Forall (fun y => is_line_terminator y = false) body) as Hlb.
  { apply (texty_all _ body); [|exact Hbody]. intros y Hy.
    now destruct (texty_facts y Hy). }
  assert (forallb mild body = true) as Hmb.
  { apply forallb_forall. intros y Hy. rewrite forallb_forall in Hbody.
    now destruct (texty_facts y (Hbody y Hy)). }
  set (X0 := n ++ js ". " ++ body).
  change ((d0 :: n) ++ js ". " ++ body) with (d0 :: X0).
  assert (Forall (fun y => (N.eqb y (chr "&") = false
                            /\ N.eqb y (chr "<") = false
                            /\ N.eqb y (chr ">") = false)
                           /\ mild y = true) (d0 :: X0)) as Hchars.
  { assert (forall d, is_digit d = true ->
                      (N.eqb d (chr "&") = false /\ N.eqb d (chr "<") = false
                       /\ N.eqb d (chr ">") = false) /\ mild d = true) as Hdg.
    { intros d Hd. destruct (digit_facts d Hd) as [_ [_ [Hm Hk]]].
      repeat split; try assumption; apply Hk; simpl; tauto. }
    constructor; [now apply Hdg|]. unfold X0.
    repeat (apply Forall_app; split).
    - apply Forall_forall. intros d Hd. apply Hdg.
      rewrite forallb_forall in Hn. now apply Hn.
    - repeat constructor.
    - apply (texty_all _ body); [|exact Hbody]. intros y Hy.
      destruct (texty_facts y Hy) as [Hm [_ [H1 [H2 [H3 _]]]]].
      repeat split; assumption. }
  assert (forallb mild (d0 :: X0) = true) as Hm0.
  { apply forallb_forall. intros y Hy. rewrite Forall_forall in Hchars.
    now destruct (Hchars y Hy). }
  assert (Forall (fun y => is_line_terminator y = false) (d0 :: X0)) as Hl0.
  { apply Forall_forall. intros y Hy. rewrite forallb_forall in Hm0.
    now destruct (mild_facts y (Hm0 y Hy)). }
  assert (no_item (d0 :: X0) = true) as Hi0.
  { rewrite <- (app_nil_r (d0 :: X0)). rewrite no_item_app; [reflexivity|].
    apply Forall_forall. intros y Hy. rewrite Forall_forall in Hchars.
    now destruct (Hchars y Hy) as [[_ [H _]] _]. }
  assert (escape_html (d0 :: X0) = d0 :: X0) as Hesc.
  { apply flat_map_keep. intros y Hy. rewrite Forall_forall in Hchars.
    destruct (Hchars y Hy) as [[H1 [H2 H3]] _].
    unfold escape_unit. now rewrite H1, H2, H3. }
  assert (N.eqb d0 (chr "#") = false) as Hhash.
  { destruct (digit_facts d0 Hd0) as [_ [_ [_ Hk]]]. apply Hk. simpl. tauto. }
  rewrite format_nonempty.
  change stages
    with (firstn 3 stages
          ++ firstn 3 (skipn 3 stages)
          ++ skipn 6 (firstn 16 stages)
          ++ [ (flags_gm, re_paragraph, wrap "p");
               (flags_g, re_spaces, [TLit (js " ")]) ]).
  rewrite !fold_left_app.
  rewrite escape_stages, Hesc, (headings_same Hhash Hl0).
  assert (forall st,
             In st (firstn 4 (skipn 6 stages) ++ firstn 1 (skipn 11 stages)
                    ++ firstn 1 (skipn 15 stages)) ->
             run_stage (fun c => c) (fun c => c) (d0 :: X0) st = d0 :: X0)
    as Hsame.
  { intros st Hin. now apply digit_start_same. }
  assert (fold_left (run_stage (fun c => c) (fun c => c))
                    (skipn 6 (firstn 16 stages)) (d0 :: X0)
          = js "<ol><li>" ++ body ++ js "</li></ol>") as ->.
  { unfold stages. cbn [firstn skipn fold_left].
    rewrite !(Hsame _) by (unfold stages; cbn; tauto).
    rewrite !run_stage_plain.
    assert (replace flags_g re_newline [TLit (js "<br>")] (d0 :: X0)
            = d0 :: X0) as ->.
    { change (d0 :: X0) with (unlines [10%N] [d0 :: X0]) at 1.
      rewrite newline_stage; [reflexivity|]. now constructor. }
    rewrite <- !run_stage_plain.
    rewrite !(Hsame _) by (unfold stages; cbn; tauto).
    rewrite !run_stage_plain.
    change (replace flags_gms re_items (wrap "ul") (d0 :: X0))
      with (scan flags_gms re_items (wrap "ul") 0 None (d0 :: X0)).
    rewrite (items_same _ _ Hi0).
    unfold X0. change (d0 :: n ++ js ". " ++ body)
      with ((d0 :: n) ++ js ". " ++ body).
    rewrite (numbered_stage _ Hd0 Hn' Hlb Hhead).
    rewrite items_stage_whole, <- !app_assoc.
    change (js ("<" ++ "ol" ++ ">") ++ js "<li>" ++ body ++ js "</li>"
            ++ js ("</" ++ "ol" ++ ">"))
      with (chr "<" :: js "ol><li>" ++ body ++ js "</li>" ++ js "</ol>").
    rewrite <- run_stage_plain.
    etransitivity;
      [ apply (@line_stage_same (flags_g, re_link, tpl_link)
                 [chr "<" :: js "ol><li>" ++ body ++ js "</li>" ++ js "</ol>"])
      | ].
    - unfold line_stages, stages. cbn. tauto.
    - discriminate.
    - constructor; [|constructor]. split; [reflexivity|].
      change (chr "<" :: js "ol><li>" ++ body ++ js "</li>" ++ js "</ol>")
        with (js "<ol><li>" ++ body ++ js "</li>" ++ js "</ol>").
      now rewrite !forallb_app, Hmb.
    - reflexivity. }
  change (js "<ol><li>" ++ body ++ js "</li></ol>")
    with (chr "<" :: js "ol><li>" ++ body ++ js "</li></ol>").
  apply late_stages_blocked.
  - change (chr "<" :: js "ol><li>" ++ body ++ js "</li></ol>")
      with (js "<ol><li>" ++ body ++ js "</li></ol>").
    repeat (apply Forall_app; split); try assumption; repeat constructor.
  - discriminate.
  - reflexivity.
  - change (chr "<" :: js "ol><li>" ++ body ++ js "</li></ol>")
      with (js "<ol><li>" ++ body ++ js "</li></ol>").
    rewrite (@single_spaced_app (js "<ol><li>") _) by reflexivity.
    now rewrite (@single_spaced_app body _ Hss).
Qed.

Lemma numbered_item_witness :
  format (js "12" ++ js ". " ++ js "first point")
  = js "<ol><li>" ++ js "first point" ++ js "</li></ol>".
Proof.
  apply (@numbered_item (js "12") (js "first point")).
  - discriminate.
  - vm_compute. reflexivity.
  - vm_compute. reflexivity.
  - vm_compute. reflexivity.
  - vm_compute. reflexivity.
Defined.

End NumberedFacts.

(** ** Headings *)

Module HeadingFacts.
Import StringFacts TrimFacts MatchFacts ReplaceFacts FormatterFacts LinkFacts
       Further EscapeFacts ParagraphFacts SpacingFacts InlineFacts.

Local Open Scope string_scope.
Local Open Scope list_scope.

Local Arguments N.eqb : simpl never.
Local Arguments is_space : simpl never.
Local Arguments is_line_terminator : simpl never.
Local Arguments is_digit : simpl never.

Lemma heading_anchored (hashes : string) :
  anchored flags_gm (re_heading hashes).
Proof.
  unfold anchored, can_start, re_heading. cbn [RSeqs]. split.
  - intros c y Hc. cbn. now rewrite Hc.
  - intros c Hc. cbn. now rewrite Hc.
Qed.

(** The pattern of a heading on a line that starts with its hashes and a
    space. *)
Lemma heading_exec (hashes : string) (title : jsstring) :
  Forall (fun y => is_line_terminator y = false) title ->
  exec flags_gm (re_heading hashes) None (js hashes ++ js " " ++ title)
  = Some (List.length (js hashes ++ js " " ++ title),
          [(1, (List.length (js hashes) + 1, List.length title))]).
Proof.
  intros Htitle. unfold exec, re_heading. cbn [RSeqs].
  rewrite matches_seq, matches_bol_start. cbn [flat_map].
  rewrite app_nil_r, matches_seq.
  erewrite matches_lit; [|reflexivity].
  cbn [flat_map]. rewrite app_nil_r, matches_seq. unfold RChar.
  erewrite matches_class; [|reflexivity|reflexivity].
  cbn [flat_map]. rewrite app_nil_r, matches_seq, matches_group, matches_star.
  assert (Forall (fun y => class_mem flags_gm CDot y = true) title) as Hdot.
  { apply Forall_forall. intros y Hy. rewrite Forall_forall in Htitle.
    simpl. now rewrite (Htitle y Hy). }
  unfold adv. cbn [pos before input caps List.length prev_after].
  match goal with
  | |- context [star_states flags_gm CDot ?p ?b title ?cs] =>
      rewrite <- (app_nil_r title) at 1;
      destruct (@star_states_run flags_gm CDot title [] Hdot I p b cs)
        as [inter [Heq _]]
  end.
  rewrite Heq, rev_app_distr. cbn [rev app map flat_map matches].
  unfold at_eol. cbn [set_cap input pos caps app].
  assert (List.length (js hashes ++ js " " ++ title)
          = List.length (js hashes) + 1 + List.length title) as ->
      by (rewrite !length_app; simpl; lia).
  match goal with
  | |- Some (?u, [(1, (?p, ?q))]) = Some (?u', [(1, (?p', ?q'))]) =>
      assert (q = q') as -> by lia;
      assert (u = u') as -> by lia;
      assert (p = p') as -> by lia
  end.
  reflexivity.
Qed.

Lemma heading_stage (hashes tag : string) (title : jsstring) :
  hashes <> EmptyString ->
  Forall (fun y => is_line_terminator y = false) (js hashes) ->
  Forall (fun y => is_line_terminator y = false) title ->
  replace flags_gm (re_heading hashes) (wrap tag)
          (js hashes ++ js " " ++ title)
  = js ("<" ++ tag ++ ">") ++ title ++ js ("</" ++ tag ++ ">").
Proof.
  intros Hne Hhashes Htitle. pose proof (heading_exec hashes Htitle) as Hexec.
  change (replace flags_gm ?r ?t ?s) with (scan flags_gm r t 0 None s).
  destruct hashes as [|h hashes]; [congruence|].
  change (js (String h hashes) ++ js " " ++ title)
    with (N_of_ascii h :: (js hashes ++ js " " ++ title)) in Hexec |- *.
  cbn [List.length] in Hexec.
  rewrite (@scan_match flags_gm (re_heading (String h hashes)) (wrap tag)
             _ _ _ _ _ Hexec).
  rewrite scan_skip_all, scan_end.
  - rewrite app_nil_r. unfold wrap.
    cbn [expand cap_lookup Nat.eqb]. rewrite !map_id, app_nil_r.
    f_equal. f_equal.
    replace (N_of_ascii h :: js hashes ++ js " " ++ title)
      with ((js (String h hashes) ++ js " ") ++ title ++ [])
      by (rewrite app_nil_r, <- app_assoc; reflexivity).
    replace (List.length (js (String h hashes)) + 1)
      with (List.length (js (String h hashes) ++ js " "))
      by (rewrite length_app; reflexivity).
    apply slice_middle.
  - destruct (prev_after_in (js hashes ++ js " " ++ title) (N_of_ascii h))
      as [c [-> Hc]].
    apply heading_anchored.
    assert (Forall (fun y => is_line_terminator y = false)
                   (js (String h hashes) ++ js " " ++ title)) as Hall.
    { repeat (apply Forall_app; split); try assumption. repeat constructor. }
    rewrite Forall_forall in Hall. now apply Hall.
Qed.

(** A pattern of a heading with more hashes than the line has, and a
    pattern of a heading on a line that starts with a tag, match
    nothing. *)
Lemma heading_stage_idle (hashes : string) (t : template) (x : N)
      (X : jsstring) :
  exec flags_gm (re_heading hashes) None (x :: X) = None ->
  Forall (fun y => is_line_terminator y = false) (x :: X) ->
  replace flags_gm (re_heading hashes) t (x :: X) = x :: X.
Proof.
  intros Hexec Hall. apply anchored_same; try assumption.
  apply heading_anchored.
Qed.

Lemma heading_stages (l : level) (title : jsstring) :
  Forall (fun y => is_line_terminator y = false) title ->
  fold_left (run_stage (fun c => c) (fun c => c)) (firstn 3 (skipn 3 stages))
            (js (marker l) ++ js " " ++ title)
  = heading_open l ++ title ++ heading_close l.
Proof.
  intros Htitle.
  change (firstn 3 (skipn 3 stages))
    with [ (flags_gm, re_heading "###", wrap "h3");
           (flags_gm, re_heading "##", wrap "h2");
           (flags_gm, re_heading "#", wrap "h1") ].
  cbn [fold_left]. rewrite !run_stage_plain.
  assert (forall w : jsstring,
             Forall (fun y => is_line_terminator y = false) w ->
             Forall (fun y => is_line_terminator y = false)
                    (w ++ title)) as Hall.
  { intros w Hw. now apply Forall_app. }
  destruct l; cbn [marker heading_open heading_close].
  - change (js "#" ++ js " " ++ title) with (chr "#" :: js " " ++ title).
    rewrite (@heading_stage_idle "###" (wrap "h3") (chr "#")
               (js " " ++ title)); [|reflexivity|].
    2:{ apply (Hall (js "# ")). repeat constructor. }
    rewrite (@heading_stage_idle "##" (wrap "h2") (chr "#")
               (js " " ++ title)); [|reflexivity|].
    2:{ apply (Hall (js "# ")). repeat constructor. }
    apply (@heading_stage "#" "h1" title); [discriminate | | exact Htitle].
    repeat constructor.
  - change (js "##" ++ js " " ++ title) with (chr "#" :: js "# " ++ title).
    rewrite (@heading_stage_idle "###" (wrap "h3") (chr "#")
               (js "# " ++ title)); [|reflexivity|].
    2:{ apply (Hall (js "## ")). repeat constructor. }
    change (chr "#" :: js "# " ++ title) with (js "##" ++ js " " ++ title).
    rewrite (@heading_stage "##" "h2" title);
      [ | discriminate | repeat constructor | exact Htitle].
    apply (@heading_stage_idle "#" (wrap "h1") (chr "<")
             (js "h2>" ++ title ++ js "</h2>")); [reflexivity|].
    change (chr "<" :: js "h2>" ++ title ++ js "</h2>")
      with (js "<h2>" ++ title ++ js "</h2>").
    repeat (apply Forall_app; split); try assumption; repeat constructor.
  - change (js "###" ++ js " " ++ title) with (js "###" ++ js " " ++ title).
    rewrite (@heading_stage "###" "h3" title);
      [ | discriminate | repeat constructor | exact Htitle].
    assert (Forall (fun y => is_line_terminator y = false)
                   (chr "<" :: js "h3>" ++ title ++ js "</h3>")) as H3.
    { change (chr "<" :: js "h3>" ++ title ++ js "</h3>")
        with (js "<h3>" ++ title ++ js "</h3>").
      repeat (apply Forall_app; split); try assumption; repeat constructor. }
    change (js ("<" ++ "h3" ++ ">") ++ title ++ js ("</" ++ "h3" ++ ">"))
      with (chr "<" :: js "h3>" ++ title ++ js "</h3>").
    rewrite (@heading_stage_idle "##" (wrap "h2") (chr "<")
               (js "h3>" ++ title ++ js "</h3>") eq_refl H3).
    apply (@heading_stage_idle "#" (wrap "h1") (chr "<")
             (js "h3>" ++ title ++ js "</h3>") eq_refl H3).
Qed.

(** X17.  A line of one to three hashes, a space and running text becomes
    the heading element of that level around the text, and the paragraph
    stage then wraps the heading in [<p>]: the tags of the headings are not
    in the lookahead of its pattern. *)
Theorem heading_line (l : level) (title : jsstring) :
  forallb texty title = true ->
  collapsed title = true ->
  format (js (marker l) ++ js " " ++ title)
  = js "<p>" ++ heading_open l ++ title ++ heading_close l ++ js "</p>".
Proof.
  intros Htitle Hsp.
  assert (Forall (fun y => is_line_terminator y = false) title) as Hlt.
  { apply (texty_all _ title); [|exact Htitle]. intros y Hy.
    now destruct (texty_facts y Hy). }
  assert (forallb mild title = true) as Hmt.
  { apply forallb_forall. intros y Hy. rewrite forallb_forall in Htitle.
    now destruct (texty_facts y (Htitle y Hy)). }
  assert (Forall (fun y => N.eqb y (chr "<") = false) title) as Hclean.
  { apply (texty_all _ title); [|exact Htitle]. intros y Hy.
    now destruct (texty_facts y Hy) as [_ [_ [_ [H _]]]]. }
  assert (exists X0, js (marker l) ++ js " " ++ title = chr "#" :: X0)
    as [X0 ET0] by (destruct l; eexists; reflexivity).
  assert (escape_html (js (marker l) ++ js " " ++ title)
          = js (marker l) ++ js " " ++ title) as Hesc.
  { unfold escape_html. rewrite !flat_map_app.
    rewrite (@flat_map_keep escape_unit title).
    - destruct l; reflexivity.
    - intros y Hy. rewrite forallb_forall in Htitle.
      destruct (texty_facts y (Htitle y Hy)) as [_ [_ [H1 [H2 [H3 _]]]]].
      unfold escape_unit. now rewrite H1, H2, H3. }
  assert (exists X, heading_open l ++ title ++ heading_close l = chr "<" :: X)
    as [X ET] by (destruct l; eexists; reflexivity).
  assert (forallb mild (chr "<" :: X) = true) as Hm.
  { rewrite <- ET, !forallb_app, Hmt. destruct l; reflexivity. }
  assert (no_item (chr "<" :: X) = true) as Hi.
  { rewrite <- ET.
    assert (forall r, no_item (heading_open l ++ r) = no_item r) as Ho
        by (intros r; destruct l; reflexivity).
    rewrite Ho, (no_item_app _ Hclean). destruct l; reflexivity. }
  assert (single_spaced (chr "<" :: X) = true) as Hs.
  { rewrite <- ET.
    rewrite (@single_spaced_app (heading_open l) _) by (destruct l; reflexivity).
    rewrite (collapsed_then title _ Hsp) by (destruct l; reflexivity).
    destruct l; reflexivity. }
  assert (Forall (fun y => is_line_terminator y = false) (chr "<" :: X)) as Hl.
  { apply Forall_forall. intros y Hy. rewrite forallb_forall in Hm.
    now destruct (mild_facts y (Hm y Hy)). }
  rewrite ET0, format_nonempty, <- ET0.
  change stages
    with (firstn 3 stages
          ++ firstn 3 (skipn 3 stages)
          ++ skipn 6 (firstn 16 stages)
          ++ [ (flags_gm, re_paragraph, wrap "p");
               (flags_g, re_spaces, [TLit (js " ")]) ]).
  rewrite !fold_left_app.
  rewrite escape_stages, Hesc, (heading_stages l Hlt), ET.
  assert (fold_left (run_stage (fun c => c) (fun c => c))
                    (skipn 6 (firstn 16 stages)) (chr "<" :: X)
          = chr "<" :: X) as ->.
  { apply (fold_stages_invariant (fun c : N => c) (fun c : N => c)
             (fun s => s = chr "<" :: X)); [|reflexivity].
    intros st s Hin ->. now apply mild_line_same. }
  rewrite (late_stages Hl); [ | | exact Hs].
  - rewrite <- ET. repeat (rewrite <- app_assoc || rewrite <- app_comm_cons).
    reflexivity.
  - rewrite <- ET. destruct l; reflexivity.
Qed.

Lemma heading_line_witness :
  format (js (marker H2) ++ js " " ++ js "Next steps")
  = js "<p>" ++ heading_open H2 ++ js "Next steps" ++ heading_close H2
    ++ js "</p>".
Proof.
  apply (@heading_line H2 (js "Next steps")).
  - vm_compute. reflexivity.
  - vm_compute. reflexivity.
Defined.

End HeadingFacts.

(** ** Bulleted items *)

Module BulletFacts.
Import StringFacts TrimFacts MatchFacts ReplaceFacts FormatterFacts LinkFacts
       Further EscapeFacts ParagraphFacts SpacingFacts InlineFacts
       NumberedFacts.

Local Open Scope string_scope.
Local Open Scope list_scope.

Local Arguments N.eqb : simpl never.
Local Arguments is_space : simpl never.
Local Arguments is_line_terminator : simpl never.
Local Arguments is_digit : simpl never.

Lemma bullet_anchored : anchored flags_gm re_bullet.
Proof.
  unfold anchored, can_start. split.
  - intros c y Hc. cbn. now rewrite Hc.
  - intros c Hc. cbn. now rewrite Hc.
Qed.

Lemma bullet_exec (body : jsstring) :
  Forall (fun y => is_line_terminator y = false) body ->
  match body with [] => True | y :: _ => is_space y = false end ->
  exec flags_gm re_bullet None (js "- " ++ body)
  = Some (List.length (js "- " ++ body), [(1, (2, List.length body))]).
Proof.
  intros Hbody Hhead.
  unfold exec, re_bullet. cbn [RSeqs].
  rewrite matches_seq, matches_bol_start. cbn [flat_map].
  rewrite app_nil_r, matches_seq, matches_star.
  cbn [pos before input caps app star_states class_mem js map
       list_ascii_of_string].
  change (is_space (N_of_ascii "-")) with false.
  cbn [rev app flat_map]. rewrite app_nil_r.
  rewrite matches_seq.
  erewrite matches_class; [|reflexivity|reflexivity].
  cbn [flat_map]. rewrite app_nil_r, matches_seq.
  rewrite (@plus_run flags_gm CSpace _ 32%N [] body);
    [ | reflexivity | reflexivity | constructor | exact Hhead | ].
  2:{ intros st' [d [rest [_ [[] _]]]]. }
  rewrite matches_seq, matches_group, matches_star.
  assert (Forall (fun y => class_mem flags_gm CDot y = true) body) as Hdot.
  { apply Forall_forall. intros y Hy. rewrite Forall_forall in Hbody.
    simpl. now rewrite (Hbody y Hy). }
  unfold adv. cbn [pos before input caps List.length prev_after].
  match goal with
  | |- context [star_states flags_gm CDot ?p ?b body ?cs] =>
      rewrite <- (app_nil_r body) at 1;
      destruct (@star_states_run flags_gm CDot body [] Hdot I p b cs)
        as [inter [Heq _]]
  end.
  rewrite Heq, rev_app_distr. cbn [rev app map flat_map matches].
  unfold at_eol. cbn [set_cap input pos caps app].
  match goal with
  | |- Some (?u, [(1, (?p, ?q))]) = Some (?u', [(1, (?p', ?q'))]) =>
      assert (q = q') as -> by lia;
      assert (u = u') as -> by (simpl; lia)
  end.
  reflexivity.
Qed.

Lemma bullet_stage (body : jsstring) :
  Forall (fun y => is_line_terminator y = false) body ->
  match body with [] => True | y :: _ => is_space y = false end ->
  replace flags_gm re_bullet (wrap "li") (js "- " ++ body)
  = js "<li>" ++ body ++ js "</li>".
Proof.
  intros Hbody Hhead.
  pose proof (bullet_exec Hbody Hhead) as Hexec.
  change (replace flags_gm re_bullet (wrap "li") ?s)
    with (scan flags_gm re_bullet (wrap "li") 0 None s).
  change (js "- " ++ body) with (chr "-" :: chr " " :: body) in Hexec |- *.
  cbn [List.length] in Hexec.
  rewrite (@scan_match flags_gm re_bullet (wrap "li") _ _ _ _ _ Hexec).
  change (S (List.length body)) with (List.length (chr " " :: body)).
  rewrite scan_skip_all, scan_end.
  - rewrite app_nil_r.
    change (wrap "li") with [TLit (js "<li>"); TCap 1; TLit (js "</li>")].
    cbn [expand cap_lookup Nat.eqb]. rewrite !map_id, app_nil_r.
    f_equal. f_equal. unfold slice. cbn [skipn]. apply firstn_all.
  - destruct (prev_after_in body (chr " ")) as [c [Hc Hin]].
    cbn [prev_after]. rewrite Hc. apply bullet_anchored.
    destruct Hin as [<- | Hin]; [reflexivity|].
    rewrite Forall_forall in Hbody. now apply Hbody.
Qed.

(** *** The second run of the pattern of the items *)

(** A greedy run and then a literal, on a text where the literal is
    found once more and not after that: the match ends with that
    literal. *)
Lemma greedy_to_lit fl (k : cclass) (lit w tail : jsstring) (st : mstate) :
  input st = w ++ lit ++ tail ->
  Forall (fun c => class_mem fl k c = true) w ->
  (forall st',
      In st' (tl (star_states fl k (List.length w + pos st)
                              (prev_after (before st) w) (lit ++ tail)
                              (caps st))) ->
      matches fl (RLit lit) st' = []) ->
  exists others,
    flat_map (matches fl (RLit lit)) (matches fl (RStar true k) st)
    = adv st (w ++ lit) tail :: others.
Proof.
  intros Hi Hw Hlater. rewrite matches_star, Hi.
  destruct (@star_states_app fl k w (lit ++ tail) Hw (pos st) (before st)
              (caps st)) as [inter [-> _]].
  destruct (star_states_later fl k (lit ++ tail) (List.length w + pos st)
              (prev_after (before st) w) (caps st)) as [more [Hmore _]].
  rewrite Hmore in Hlater |- *. cbn [tl] in Hlater.
  rewrite rev_app_distr. cbn [rev]. rewrite !flat_map_app.
  rewrite flat_map_nil.
  - cbn [flat_map app].
    rewrite (@matches_lit fl lit
               {| pos := List.length w + pos st;
                  before := prev_after (before st) w;
                  input := lit ++ tail; caps := caps st |} tail eq_refl).
    cbn [app]. eexists. f_equal.
    unfold adv. cbn [pos before input caps]. f_equal.
    + rewrite length_app. lia.
    + now rewrite prev_after_app.
  - intros x Hx. apply in_rev in Hx. now apply Hlater.
Qed.

Lemma items_exec_inner (prev : option N) (body : jsstring) :
  exec flags_gms re_items prev
       (js "<li>" ++ body ++ js "</li>" ++ js "</ul>")
  = Some (List.length (js "<li>" ++ body ++ js "</li>"),
          [(1, (0, List.length (js "<li>" ++ body ++ js "</li>")))]).
Proof.
  unfold exec, re_items. cbn [RSeqs]. rewrite matches_group, matches_seq.
  rewrite (@matches_lit flags_gms (js "<li>")
             {| pos := 0; before := prev;
                input := js "<li>" ++ body ++ js "</li>" ++ js "</ul>";
                caps := [] |}
             (body ++ js "</li>" ++ js "</ul>") eq_refl).
  cbn [flat_map]. rewrite app_nil_r, matches_seq.
  destruct (@greedy_to_lit flags_gms CDot (js "</li>") body (js "</ul>")
              (adv {| pos := 0; before := prev;
                      input := js "<li>" ++ body ++ js "</li>" ++ js "</ul>";
                      caps := [] |}
                   (js "<li>") (body ++ js "</li>" ++ js "</ul>")))
    as [others ->]; [reflexivity | now apply Forall_forall | |].
  { intros st' Hin. cbn in Hin.
    repeat (destruct Hin as [<- | Hin]; [reflexivity|]). contradiction. }
  cbn [map set_cap adv pos before input caps].
  rewrite !length_app. cbn [List.length js map list_ascii_of_string].
  replace (List.length body + 5 + (4 + 0) - 0)
    with (4 + (List.length body + 5)) by lia.
  replace (List.length body + 5 + (4 + 0))
    with (4 + (List.length body + 5)) by lia.
  reflexivity.
Qed.

(** The pattern of the items on a list: the item inside is wrapped once
    more. *)
Lemma items_stage_inner (tag : string) (body : jsstring) :
  replace flags_gms re_items (wrap tag)
          (js "<ul>" ++ js "<li>" ++ body ++ js "</li>" ++ js "</ul>")
  = js "<ul>" ++ js ("<" ++ tag ++ ">") ++ js "<li>" ++ body ++ js "</li>"
    ++ js ("</" ++ tag ++ ">") ++ js "</ul>".
Proof.
  change (replace flags_gms re_items (wrap tag) ?s)
    with (scan flags_gms re_items (wrap tag) 0 None s).
  change (js "<ul>" ++ ?s) with (chr "<" :: chr "u" :: chr "l" :: chr ">" :: s).
  rewrite scan_no_match by (now apply items_exec_break).
  rewrite scan_no_match by (now apply items_exec_other).
  rewrite scan_no_match by (now apply items_exec_other).
  rewrite scan_no_match by (now apply items_exec_other).
  do 4 f_equal.
  pose proof (items_exec_inner (Some (chr ">")) body) as Hexec.
  change (js "<li>" ++ body ++ js "</li>" ++ js "</ul>")
    with (chr "<" :: (js "li>" ++ body ++ js "</li>" ++ js "</ul>"))
    in Hexec |- *.
  change (js "<li>" ++ body ++ js "</li>")
    with (chr "<" :: (js "li>" ++ body ++ js "</li>")) in Hexec |- *.
  cbn [List.length] in Hexec.
  rewrite (@scan_match flags_gms re_items (wrap tag) _ _ _ _ _ Hexec).
  unfold wrap. cbn [expand cap_lookup Nat.eqb]. rewrite !map_id, app_nil_r.
  unfold slice. cbn [skipn].
  replace (chr "<" :: js "li>" ++ body ++ js "</li>" ++ js "</ul>")
    with ((chr "<" :: js "li>" ++ body ++ js "</li>") ++ js "</ul>")
    by (simpl; now rewrite <- !app_assoc).
  change (S (List.length (js "li>" ++ body ++ js "</li>")))
    with (List.length (chr "<" :: js "li>" ++ body ++ js "</li>")).
  rewrite firstn_app, firstn_all, Nat.sub_diag. cbn [firstn].
  rewrite app_nil_r, <- !app_assoc. f_equal.
  cbn [app]. do 1 f_equal.
  replace (js "li>" ++ body ++ js "</li>" ++ js "</ul>")
    with ((js "li>" ++ body ++ js "</li>") ++ js "</ul>")
    by now rewrite <- !app_assoc.
  rewrite scan_skip.
  change (js "</ul>")
    with (chr "<" :: chr "/" :: chr "u" :: chr "l" :: [chr ">"]).
  rewrite scan_no_match by (now apply items_exec_break).
  rewrite scan_no_match by (now apply items_exec_other).
  rewrite scan_no_match by (now apply items_exec_other).
  rewrite scan_no_match by (now apply items_exec_other).
  rewrite scan_no_match by (now apply items_exec_other).
  rewrite scan_end by apply items_can_end.
  rewrite <- !app_assoc. reflexivity.
Qed.

(** X18.  One bulleted line, a hyphen, one space and running text that
    does not start with white space, becomes a list item in [<ul>]; the
    stage that wraps the numbered items then finds the same item and wraps
    it once more, in [<ol>] inside the [<ul>].  The list is not wrapped in
    a paragraph. *)
Theorem bullet_item (body : jsstring) :
  forallb texty body = true ->
  single_spaced body = true ->
  match body with [] => True | y :: _ => is_space y = false end ->
  format (js "- " ++ body) = js "<ul><ol><li>" ++ body ++ js "</li></ol></ul>".
Proof.
  intros Hbody Hss Hhead.
  assert (Forall (fun y => is_line_terminator y = false) body) as Hlb.
  { apply (texty_all _ body); [|exact Hbody]. intros y Hy.
    now destruct (texty_facts y Hy). }
  assert (forallb mild body = true) as Hmb.
  { apply forallb_forall. intros y Hy. rewrite forallb_forall in Hbody.
    now destruct (texty_facts y (Hbody y Hy)). }
  set (X0 := chr " " :: body).
  change (js "- " ++ body) with (chr "-" :: X0).
  assert (forallb mild (chr "-" :: X0) = true) as Hm0.
  { unfold X0. cbn [forallb]. now rewrite Hmb. }
  assert (Forall (fun y => is_line_terminator y = false) (chr "-" :: X0))
    as Hl0.
  { unfold X0. repeat constructor. exact Hlb. }
  assert (escape_html (chr "-" :: X0) = chr "-" :: X0) as Hesc.
  { apply flat_map_keep. intros y Hy. unfold X0 in Hy.
    destruct Hy as [<- | [<- | Hy]]; [reflexivity | reflexivity |].
    rewrite forallb_forall in Hbody.
    destruct (texty_facts y (Hbody y Hy)) as [_ [_ [H1 [H2 [H3 _]]]]].
    unfold escape_unit. now rewrite H1, H2, H3. }
  rewrite format_nonempty.
  change stages
    with (firstn 3 stages
          ++ firstn 3 (skipn 3 stages)
          ++ skipn 6 (firstn 16 stages)
          ++ [ (flags_gm, re_paragraph, wrap "p");
               (flags_g, re_spaces, [TLit (js " ")]) ]).
  rewrite !fold_left_app.
  rewrite escape_stages, Hesc, (@headings_same (chr "-") X0 eq_refl Hl0).
  assert (forall st,
             In st (firstn 4 (skipn 6 stages)) ->
             run_stage (fun c => c) (fun c => c) (chr "-" :: X0) st
             = chr "-" :: X0) as Hsame.
  { intros st Hin. apply line_same_from; [ | | exact Hm0].
    - unfold line_stages, stages in *. cbn [firstn skipn app] in *.
      simpl in Hin |- *. tauto.
    - unfold stages in Hin. cbn [firstn skipn] in Hin.
      repeat (destruct Hin as [<- | Hin]; [reflexivity|]). contradiction. }
  assert (fold_left (run_stage (fun c => c) (fun c => c))
                    (skipn 6 (firstn 16 stages)) (chr "-" :: X0)
          = js "<ul><ol><li>" ++ body ++ js "</li></ol></ul>") as ->.
  { unfold stages. cbn [firstn skipn fold_left].
    rewrite !(Hsame _) by (unfold stages; cbn; tauto).
    rewrite !run_stage_plain.
    assert (replace flags_g re_newline [TLit (js "<br>")] (chr "-" :: X0)
            = chr "-" :: X0) as ->.
    { change (chr "-" :: X0) with (unlines [10%N] [chr "-" :: X0]) at 1.
      rewrite newline_stage; [reflexivity|]. now constructor. }
    unfold X0. change (chr "-" :: chr " " :: body) with (js "- " ++ body).
    rewrite (bullet_stage Hlb Hhead), items_stage_whole, <- !app_assoc.
    change (js ("<" ++ "ul" ++ ">") ++ js "<li>" ++ body ++ js "</li>"
            ++ js ("</" ++ "ul" ++ ">"))
      with (chr "<" :: js "ul><li>" ++ body ++ js "</li>" ++ js "</ul>").
    assert (forallb mild (chr "<" :: js "ul><li>" ++ body ++ js "</li>"
                          ++ js "</ul>") = true) as Hm1.
    { change (chr "<" :: js "ul><li>" ++ body ++ js "</li>" ++ js "</ul>")
        with (js "<ul><li>" ++ body ++ js "</li>" ++ js "</ul>").
      now rewrite !forallb_app, Hmb. }
    rewrite <- (run_stage_plain _ flags_gm re_numbered (wrap "li")).
    rewrite line_same_from;
      [ | unfold line_stages, stages; cbn; tauto | reflexivity | exact Hm1 ].
    change (chr "<" :: js "ul><li>" ++ body ++ js "</li>" ++ js "</ul>")
      with (js "<ul>" ++ js "<li>" ++ body ++ js "</li>" ++ js "</ul>").
    rewrite items_stage_inner.
    change (js "<ul>" ++ js ("<" ++ "ol" ++ ">") ++ js "<li>" ++ body
            ++ js "</li>" ++ js ("</" ++ "ol" ++ ">") ++ js "</ul>")
      with (chr "<" :: js "ul><ol><li>" ++ body ++ js "</li></ol></ul>").
    rewrite <- run_stage_plain.
    apply line_same_from;
      [ unfold line_stages, stages; cbn; tauto | reflexivity | ].
    change (chr "<" :: js "ul><ol><li>" ++ body ++ js "</li></ol></ul>")
      with (js "<ul><ol><li>" ++ body ++ js "</li></ol></ul>").
    now rewrite !forallb_app, Hmb. }
  change (js "<ul><ol><li>" ++ body ++ js "</li></ol></ul>")
    with (chr "<" :: js "ul><ol><li>" ++ body ++ js "</li></ol></ul>").
  apply late_stages_blocked.
  - change (chr "<" :: js "ul><ol><li>" ++ body ++ js "</li></ol></ul>")
      with (js "<ul><ol><li>" ++ body ++ js "</li></ol></ul>").
    repeat (apply Forall_app; split); try assumption; repeat constructor.
  - discriminate.
  - reflexivity.
  - change (chr "<" :: js "ul><ol><li>" ++ body ++ js "</li></ol></ul>")
      with (js "<ul><ol><li>" ++ body ++ js "</li></ol></ul>").
    rewrite (@single_spaced_app (js "<ul><ol><li>") _) by reflexivity.
    now rewrite (@single_spaced_app body _ Hss).
Qed.

Lemma bullet_item_witness :
  format (js "- " ++ js "milk and eggs")
  = js "<ul><ol><li>" ++ js "milk and eggs" ++ js "</li></ol></ul>".
Proof.
  apply (@bullet_item (js "milk and eggs")).
  - vm_compute. reflexivity.
  - vm_compute. reflexivity.
  - vm_compute. reflexivity.
Defined.

End BulletFacts.

(** ** A span in a line of text *)

Module SpanFacts.
Import StringFacts TrimFacts MatchFacts ReplaceFacts FormatterFacts LinkFacts
       Further EscapeFacts ParagraphFacts SpacingFacts InlineFacts.

Local Open Scope string_scope.
Local Open Scope list_scope.

Local Arguments N.eqb : simpl never.
Local Arguments is_space : simpl never.
Local Arguments is_line_terminator : simpl never.
Local Arguments is_digit : simpl never.

(** *** The escapes on the parts of the line *)

Lemma escape_app (u v : jsstring) :
  escape_html (u ++ v) = escape_html u ++ escape_html v.
Proof. apply flat_map_app. Qed.

Lemma escape_Forall (P : N -> Prop) (w : jsstring) :
  Forall P (js "&amp;&lt;&gt;") ->
  Forall P w -> Forall P (escape_html w).
Proof.
  intros Hent. induction 1 as [|x w Hx Hw IH]; [constructor|].
  rewrite escape_html_cons. apply Forall_app. split; [|exact IH].
  rewrite Forall_forall in Hent.
  destruct (escape_unit_cases x) as [-> | [-> | [-> | [-> _]]]];
    try (apply Forall_forall; intros y Hy; apply Hent; simpl in Hy |- *; tauto).
  now constructor.
Qed.

Lemma escape_nil (w : jsstring) : escape_html w = [] <-> w = [].
Proof.
  split; [|now intros ->]. destruct w as [|x w]; [reflexivity|].
  rewrite escape_html_cons.
  destruct (escape_unit_head x) as [y [Y [-> _]]]. discriminate.
Qed.

Lemma escape_collapsed (l : jsstring) :
  collapsed l = true -> collapsed (escape_html l) = true.
Proof.
  induction l as [|x l IH]; intros H; [reflexivity|].
  cbn [collapsed] in H. apply andb_true_iff in H. destruct H as [Hx Hl].
  rewrite escape_html_cons. destruct (is_space x) eqn:Ex.
  - rewrite (escape_unit_space x Ex). simpl app. cbn [collapsed].
    rewrite Ex, (IH Hl), andb_true_r.
    apply andb_true_iff in Hx. destruct Hx as [Hx Hd]. rewrite Hx.
    destruct l as [|d l]; [reflexivity|].
    apply negb_true_iff in Hd. rewrite escape_html_cons.
    destruct (escape_unit_head d) as [y [Y [-> [_ [_ [Hs _]]]]]].
    specialize (Hs Hd). inversion Hs as [|? ? Hy _]; subst.
    simpl. now rewrite Hy.
  - destruct (escape_unit_head x) as [y [Y [-> [_ [_ [Hs _]]]]]].
    specialize (Hs Ex). clear Hx.
    induction Hs as [|z Z Hz HZ IHZ]; [now apply IH|].
    simpl app. cbn [collapsed]. now rewrite Hz, IHZ.
Qed.

(** A prefix of the escaped text that holds none of the three characters
    is a prefix of the text. *)
Lemma escape_prefix (pre : jsstring) :
  Forall (fun c => escape_unit c = [c]) pre ->
  forall url r',
    escape_html url = pre ++ r' ->
    exists rest, url = pre ++ rest /\ escape_html rest = r'.
Proof.
  induction 1 as [|c pre Hc Hpre IH]; intros url r' H.
  - exists url. now split.
  - destruct url as [|u url]; [discriminate|].
    rewrite escape_html_cons in H.
    destruct (escape_unit_cases u) as [E | [E | [E | [E _]]]]; rewrite E in H;
      simpl in H; injection H as Hhead H.
    1-3: subst c; vm_compute in Hc; discriminate.
    subst u. destruct (IH url r' H) as [rest [-> Hrest]].
    exists rest. now split.
Qed.

Lemma escape_web_url (url : jsstring) :
  web_url (escape_html url) <-> web_url url.
Proof.
  split.
  - intros [r' [Hne [H | H]]];
      apply escape_prefix in H; try (repeat constructor);
      destruct H as [rest [-> Hrest]]; exists rest;
      (split; [intros ->; now apply Hne | tauto]).
  - intros [rest [Hne [-> | ->]]]; exists (escape_html rest);
      (split; [now rewrite escape_nil|]); rewrite escape_app; tauto.
Qed.

Lemma escape_span (a label url c : jsstring) :
  escape_html (a ++ span label url ++ c)
  = escape_html a ++ span (escape_html label) (escape_html url)
    ++ escape_html c.
Proof.
  unfold span. rewrite !escape_app. rewrite <- !app_assoc. reflexivity.
Qed.

(** *** The stages from bold to the numbered items *)

Lemma bland_facts (x : N) :
  bland x = true ->
  is_line_terminator x = false
  /\ N.eqb x (chr "*") = false /\ N.eqb x (chr "`") = false
  /\ N.eqb x 10 = false.
Proof.
  unfold bland. rewrite orb_true_iff. intros [H | H].
  - destruct (mild_facts x H) as [H1 [H2 [H3 [_ H5]]]]. tauto.
  - apply N.eqb_eq in H. subst. repeat split.
Qed.

Lemma span_stages_inert :
  Forall (fun st => span_inert (stage_flags st) (stage_regex st)) span_stages.
Proof.
  unfold span_stages, stages. cbn [firstn skipn app].
  repeat (apply Forall_cons; [ | ]).
  all: try apply Forall_nil.
  all: unfold stage_flags, stage_regex, span_inert, can_start; cbn [fst snd].
  all: repeat split.
  all: try (intros x [Hx | ->];
            [ destruct (opener_facts x Hx) as [Hm [Hs [Hd [H6 H7]]]];
              destruct (mild_facts x Hm) as [Hl [H1 [H2 [H3 H4]]]];
              cbn in H1, H2, H3, H6, H7; cbn;
              rewrite ?Hs, ?Hd, ?Hl, ?H1, ?H2, ?H3, ?H4, ?H6, ?H7; reflexivity
            | reflexivity ]).
  all: try (intros c x Hc Hb;
            destruct (bland_facts x Hb) as [Hl [H1 [H2 H4]]];
            cbn in H1, H2; cbn;
            rewrite ?Hc, ?Hl, ?H1, ?H2, ?H4; reflexivity).
  all: try (intros c Hc; cbn; rewrite ?Hc; reflexivity).
Qed.

Lemma quiet_bland fl r (w : jsstring) :
  span_inert fl r ->
  forall c0,
    is_line_terminator c0 = false -> forallb bland w = true ->
    quiet fl r (Some c0) w = true.
Proof.
  intros [_ [Hr _]]. induction w as [|x w IH]; intros c0 Hc Hw; [reflexivity|].
  simpl in Hw. apply andb_true_iff in Hw. destruct Hw as [Hx Hw].
  cbn [quiet]. rewrite (Hr c0 x Hc Hx). simpl. apply IH; [|exact Hw].
  now destruct (bland_facts x Hx) as [Hl _].
Qed.

(** A stage of [span_stages] leaves a line of bland characters as it is. *)
Lemma bland_same (st : flags * regex * template) (x : N) (X : jsstring) :
  In st span_stages ->
  opener x = true \/ x = chr "[" ->
  forallb bland (x :: X) = true ->
  run_stage (fun c => c) (fun c => c) (x :: X) st = x :: X.
Proof.
  intros Hin Hx Hb.
  pose proof span_stages_inert as Hr. rewrite Forall_forall in Hr.
  specialize (Hr st Hin).
  destruct st as [[fl r] t]. unfold stage_flags, stage_regex in Hr.
  simpl in Hr. rewrite run_stage_plain.
  pose proof Hb as Hb'. rewrite forallb_forall in Hb'.
  simpl in Hb. apply andb_true_iff in Hb. destruct Hb as [Hbx HbX].
  destruct (bland_facts x Hbx) as [Hl _].
  apply replace_quiet.
  - cbn [quiet]. rewrite (proj1 Hr x Hx). cbn [negb andb].
    now apply quiet_bland.
  - cbn [prev_after]. destruct (prev_after_in X x) as [c [-> Hc]].
    apply Hr. now destruct (bland_facts c (Hb' c Hc)).
Qed.

(** Every stage from bold to the items of the numbered lists leaves such
    a line as it is, when it holds no [<]. *)
Lemma middle_stages_same (x : N) (X : jsstring) :
  opener x = true \/ x = chr "[" ->
  forallb bland (x :: X) = true ->
  Forall (fun y => N.eqb y (chr "<") = false) (x :: X) ->
  fold_left (run_stage (fun c => c) (fun c => c)) (skipn 6 (firstn 15 stages))
            (x :: X)
  = x :: X.
Proof.
  intros Hx Hb Hclean.
  apply (fold_stages_invariant (fun c : N => c) (fun c : N => c)
           (fun s => s = x :: X)); [|reflexivity].
  intros st s Hin ->.
  assert (forall t, replace flags_gms re_items t (x :: X) = x :: X) as Hitems.
  { intros t. apply items_same.
    rewrite <- (app_nil_r (x :: X)). now rewrite (no_item_app _ Hclean). }
  unfold stages in Hin. cbn [firstn skipn] in Hin.
  repeat (destruct Hin as [<- | Hin];
          [ first [ apply bland_same;
                    [unfold span_stages, stages; cbn; tauto | exact Hx | exact Hb]
                  | rewrite run_stage_plain; apply Hitems
                  | idtac ] | ]); try contradiction.
  rewrite run_stage_plain. unfold replace, re_newline.
  rewrite replace_char. apply flat_map_keep.
  intros y Hy. rewrite forallb_forall in Hb.
  destruct (bland_facts y (Hb y Hy)) as [_ [_ [_ H10]]]. now rewrite H10.
Qed.

(** *** The stage of the links on a span in a line *)

Lemma link_exec_tail (prev : option N) (l0 : N) (L : jsstring) (secure : bool)
      (v : N) (V tail : jsstring) :
  Forall (fun c => N.eqb c (chr "]") = false) (l0 :: L) ->
  Forall (fun c => is_space c = false /\ N.eqb c (chr ")") = false) (v :: V) ->
  exec flags_g re_link prev (span (l0 :: L) (scheme secure ++ v :: V) ++ tail)
  = Some (List.length (span (l0 :: L) (scheme secure ++ v :: V)),
          [ (2, (List.length L + 4, List.length (scheme secure ++ v :: V)));
            (1, (1, S (List.length L))) ]).
Proof.
  intros HL HV. unfold exec.
  replace (span (l0 :: L) (scheme secure ++ v :: V) ++ tail)
    with (js "[" ++ (l0 :: L) ++ js "](" ++ (scheme secure ++ v :: V)
             ++ js ")" ++ tail)
    by (unfold span; now rewrite <- !app_assoc).
  now rewrite (link_matches prev secure tail HL HV).
Qed.

Lemma link_stage_text_anchor (A : jsstring) (l0 : N) (L : jsstring)
      (secure : bool) (v : N) (V C : jsstring) :
  ~ In (chr "[") A -> ~ In (chr "[") C ->
  Forall (fun c => N.eqb c (chr "]") = false) (l0 :: L) ->
  Forall (fun c => is_space c = false /\ N.eqb c (chr ")") = false) (v :: V) ->
  replace flags_g re_link tpl_link
          (A ++ span (l0 :: L) (scheme secure ++ v :: V) ++ C)
  = A ++ anchor (l0 :: L) (scheme secure ++ v :: V) ++ C.
Proof.
  intros HA HC HL HV.
  change (replace flags_g re_link tpl_link ?s)
    with (scan flags_g re_link tpl_link 0 None s).
  rewrite (@scan_quiet flags_g re_link tpl_link A None _ (@link_quiet A HA None)).
  f_equal.
  pose proof (@link_exec_tail (prev_after None A) l0 L secure v V C HL HV)
    as Hexec.
  set (U := scheme secure ++ v :: V) in *.
  set (W := (l0 :: L) ++ js "](" ++ U ++ js ")").
  assert (span (l0 :: L) U ++ C = chr "[" :: (W ++ C)) as Hspan.
  { unfold span, W. now rewrite <- !app_assoc. }
  assert (List.length (span (l0 :: L) U) = S (List.length W)) as Hlen
      by reflexivity.
  rewrite Hspan, Hlen in Hexec. rewrite Hspan.
  rewrite (@scan_match flags_g re_link tpl_link _ _ _ _ _ Hexec).
  rewrite scan_skip.
  rewrite (@scan_quiet_all flags_g re_link tpl_link C _ (@link_quiet C HC _)
             (link_cannot_end _)).
  unfold tpl_link. cbn [expand cap_lookup Nat.eqb].
  rewrite !map_id.
  replace (slice (List.length L + 4) (List.length U) (chr "[" :: W ++ C))
    with U.
  2:{ rewrite <- (slice_middle (js "[" ++ (l0 :: L) ++ js "](") U
                               (js ")" ++ C)) at 1.
      f_equal.
      - rewrite !length_app. simpl. lia.
      - unfold W. now rewrite <- !app_assoc. }
  replace (slice 1 (S (List.length L)) (chr "[" :: W ++ C))
    with (l0 :: L).
  2:{ rewrite <- (slice_middle (js "[") (l0 :: L)
                               (js "](" ++ U ++ js ")" ++ C)) at 1.
      f_equal. unfold W. now rewrite <- !app_assoc. }
  rewrite app_nil_r. unfold anchor. now rewrite <- !app_assoc.
Qed.

(** No match of the pattern of the links at the start of a span without a
    label or without a web address, whatever follows the span. *)
Lemma link_exec_none_tail (prev : option N) (label url tail : jsstring) :
  ~ In (chr "]") label -> ~ In (chr ")") url ->
  ~ (label <> [] /\ web_url url) ->
  exec flags_g re_link prev (span label url ++ tail) = None.
Proof.
  intros Hl Hu Hbad.
  destruct (exec flags_g re_link prev (span label url ++ tail))
    as [[n cs]|] eqn:E; [|reflexivity].
  exfalso. apply Hbad.
  apply exec_lang in E. destruct E as [w [rest [Hw Hlang]]].
  apply link_lang in Hlang.
  destruct Hlang as [c1 [w1 [secure [c2 [w2 [-> [H1 H2]]]]]]].
  assert (label ++ chr "]" :: (chr "(" :: url ++ chr ")" :: tail)
          = (c1 :: w1) ++ chr "]"
              :: (chr "(" :: (scheme secure ++ c2 :: w2) ++ chr ")" :: rest))
    as Hw'.
  { unfold span in Hw. rewrite <- !app_assoc in Hw. injection Hw as Hw.
    apply (eq_trans Hw). unfold scheme.
    destruct secure; simpl; repeat (rewrite <- app_assoc; simpl); reflexivity. }
  clear Hw. apply split_unique in Hw';
    [ | exact Hl | now apply Forall_eqb_not_In ].
  destruct Hw' as [-> Hw]. injection Hw as Hw.
  apply (@split_unique (chr ")") url (scheme secure ++ c2 :: w2) tail rest)
    in Hw; [ | exact Hu | ].
  - destruct Hw as [-> _]. split; [discriminate | apply scheme_web_url].
  - apply Forall_eqb_not_In.
    apply Forall_app. split.
    + destruct secure; repeat constructor.
    + eapply Forall_impl; [|exact H2]. now intros a [_ Ha].
Qed.

Lemma link_stage_text_same (A label url C : jsstring) :
  ~ In (chr "[") A -> ~ In (chr "[") label -> ~ In (chr "[") url ->
  ~ In (chr "[") C ->
  ~ In (chr "]") label -> ~ In (chr ")") url ->
  ~ (label <> [] /\ web_url url) ->
  replace flags_g re_link tpl_link (A ++ span label url ++ C)
  = A ++ span label url ++ C.
Proof.
  intros HA Hl2 Hu2 HC Hl1 Hu1 Hbad.
  change (replace flags_g re_link tpl_link ?s)
    with (scan flags_g re_link tpl_link 0 None s).
  rewrite (@scan_quiet flags_g re_link tpl_link A None _
             (@link_quiet A HA None)).
  f_equal.
  pose proof (@link_exec_none_tail (prev_after None A) label url C Hl1 Hu1
                Hbad) as Hexec.
  assert (span label url ++ C
          = chr "[" :: (label ++ js "](" ++ url ++ js ")" ++ C)) as Hspan.
  { unfold span. now rewrite <- !app_assoc. }
  rewrite Hspan in *.
  rewrite (@scan_no_match flags_g re_link tpl_link _ _ _ Hexec). f_equal.
  apply scan_quiet_all; [|apply link_cannot_end].
  apply link_quiet. intros H.
  apply in_app_or in H. destruct H as [H | H]; [now apply Hl2|].
  simpl in H. destruct H as [H | [H | H]]; try discriminate.
  apply in_app_or in H. destruct H as [H | H]; [now apply Hu2|].
  simpl in H. destruct H as [H | H]; [discriminate | now apply HC].
Qed.

(** *** The end of the formatter *)

(** The last two stages and [trim] on one line that does not start with a
    tag of the lookahead and whose white space is single spaces: the line
    in a paragraph. *)
Lemma late_stages_line (x : N) (X : jsstring) :
  Forall (fun y => is_line_terminator y = false) (x :: X) ->
  matches flags_gm block_starts
          {| pos := 0; before := None; input := x :: X; caps := [] |} = [] ->
  single_spaced ((x :: X) ++ js "</p>") = true ->
  trim (fold_left (run_stage (fun c => c) (fun c => c))
                  [ (flags_gm, re_paragraph, wrap "p");
                    (flags_g, re_spaces, [TLit (js " ")]) ] (x :: X))
  = js "<p>" ++ (x :: X) ++ js "</p>".
Proof.
  intros Hall Hlook Hss. cbn [fold_left]. rewrite !run_stage_plain.
  rewrite (paragraph_wraps Hall Hlook).
  change (replace flags_g re_spaces [TLit (js " ")] ?s)
    with (scan flags_g re_spaces [TLit (js " ")] 0 None s).
  rewrite spaces_same.
  - replace (js "<p>" ++ (x :: X) ++ js "</p>")
      with ((chr "<" :: js "p>" ++ (x :: X) ++ js "</p") ++ [chr ">"]).
    + now apply trim_wrapped.
    + simpl. now rewrite <- app_assoc.
  - rewrite single_spaced_app by reflexivity. exact Hss.
Qed.

(** *** The parts of the line *)

Lemma mild_all (P : N -> Prop) (w : jsstring) :
  (forall y, mild y = true -> P y) -> forallb mild w = true -> Forall P w.
Proof.
  intros HP Hw. apply Forall_forall. intros y Hy.
  rewrite forallb_forall in Hw. auto.
Qed.

Lemma mild_bland (w : jsstring) :
  forallb mild w = true -> forallb bland w = true.
Proof.
  intros Hw. apply forallb_forall. intros y Hy.
  rewrite forallb_forall in Hw. unfold bland. now rewrite (Hw y Hy).
Qed.

Lemma mild_no_bracket (w : jsstring) :
  forallb mild w = true -> ~ In (chr "[") w.
Proof.
  intros Hw. apply Forall_eqb_not_In. apply (mild_all _ w); [|exact Hw].
  intros y Hy. now destruct (mild_facts y Hy) as [_ [_ [_ [H _]]]].
Qed.

Lemma mild_no_terminator (w : jsstring) :
  forallb mild w = true -> Forall (fun y => is_line_terminator y = false) w.
Proof.
  intros Hw. apply (mild_all _ w); [|exact Hw].
  intros y Hy. now destruct (mild_facts y Hy).
Qed.

Lemma label_facts (label : jsstring) :
  forallb label_char label = true ->
  forallb mild label = true
  /\ Forall (fun y => N.eqb y (chr "]") = false) (escape_html label).
Proof.
  intros Hl. rewrite forallb_forall in Hl. split.
  - apply forallb_forall. intros y Hy. specialize (Hl y Hy).
    unfold label_char in Hl. apply andb_true_iff in Hl. tauto.
  - apply escape_Forall; [repeat constructor|].
    apply Forall_forall. intros y Hy. specialize (Hl y Hy).
    unfold label_char in Hl. apply andb_true_iff in Hl.
    destruct Hl as [_ Hl]. now apply negb_true_iff in Hl.
Qed.

Lemma url_facts (url : jsstring) :
  forallb url_char url = true ->
  forallb mild url = true
  /\ Forall (fun y => is_space y = false /\ N.eqb y (chr ")") = false)
            (escape_html url)
  /\ Forall (fun y => is_space y = false) (escape_html url)
  /\ ~ In 34%N (escape_html url).
Proof.
  intros Hu. rewrite forallb_forall in Hu.
  assert (forall y, In y url ->
                    mild y = true /\ is_space y = false
                    /\ N.eqb y (chr ")") = false /\ N.eqb y 34 = false) as H.
  { intros y Hy. specialize (Hu y Hy). unfold url_char in Hu.
    rewrite !andb_true_iff, !negb_true_iff in Hu.
    destruct Hu as [[Hm Hs] Hi]. pose proof (inb_false _ _ Hi) as Hk.
    repeat split; try assumption; apply Hk; simpl; tauto. }
  split; [|split; [|split]].
  - apply forallb_forall. intros y Hy. now destruct (H y Hy).
  - apply escape_Forall; [repeat constructor|].
    apply Forall_forall. intros y Hy. destruct (H y Hy) as [_ [H1 [H2 _]]].
    now split.
  - apply escape_Forall; [repeat constructor|].
    apply Forall_forall. intros y Hy. now destruct (H y Hy) as [_ [H1 _]].
  - apply Forall_eqb_not_In.
    apply escape_Forall; [repeat constructor|].
    apply Forall_forall. intros y Hy. now destruct (H y Hy) as [_ [_ [_ H3]]].
Qed.

(** The stages before the links on a line with one span: the escapes. *)
Lemma early_span_stages (a label url c : jsstring) :
  forallb mild a = true -> forallb mild label = true ->
  forallb mild url = true -> forallb mild c = true ->
  a = [] \/ starts_open a = true ->
  fold_left (run_stage (fun c => c) (fun c => c)) (firstn 15 stages)
            (a ++ span label url ++ c)
  = escape_html a ++ span (escape_html label) (escape_html url)
    ++ escape_html c.
Proof.
  intros Ha Hl Hu Hc Hopen.
  change (firstn 15 stages)
    with (firstn 3 stages ++ firstn 3 (skipn 3 stages)
          ++ skipn 6 (firstn 15 stages)).
  rewrite !fold_left_app, escape_stages, escape_span.
  set (T := escape_html a ++ span (escape_html label) (escape_html url)
            ++ escape_html c).
  assert (forallb bland T = true) as Hb.
  { unfold T, span. rewrite !forallb_app.
    rewrite (@mild_bland _ (@escape_mild a Ha)).
    rewrite (@mild_bland _ (@escape_mild label Hl)).
    rewrite (@mild_bland _ (@escape_mild url Hu)).
    rewrite (@mild_bland _ (@escape_mild c Hc)). reflexivity. }
  assert (Forall (fun y => N.eqb y (chr "<") = false) T) as Hclean.
  { unfold T, span.
    repeat (apply Forall_app; split);
      try apply escape_clean; repeat constructor. }
  assert (exists x X, T = x :: X /\ (opener x = true \/ x = chr "["))
    as [x [X [ET Hx]]].
  { unfold T. destruct Hopen as [-> | Ho].
    - eexists _, _. split; [reflexivity | now right].
    - apply escape_starts_open in Ho.
      destruct (escape_html a) as [|y Y]; [discriminate|].
      eexists _, _. split; [reflexivity | now left]. }
  rewrite ET in *.
  assert (Forall (fun y => is_line_terminator y = false) (x :: X)) as Hlt.
  { apply Forall_forall. intros y Hy. rewrite forallb_forall in Hb.
    now destruct (bland_facts y (Hb y Hy)). }
  rewrite headings_same; [now apply middle_stages_same | | exact Hlt].
  destruct Hx as [Hx | ->]; [|reflexivity].
  now destruct (opener_facts x Hx) as [_ [_ [_ [H _]]]].
Qed.

Lemma late_stages_text (T : jsstring) :
  T <> [] ->
  Forall (fun y => is_line_terminator y = false) T ->
  matches flags_gm block_starts
          {| pos := 0; before := None; input := T; caps := [] |} = [] ->
  single_spaced (T ++ js "</p>") = true ->
  trim (fold_left (run_stage (fun c => c) (fun c => c)) (skipn 16 stages) T)
  = js "<p>" ++ T ++ js "</p>".
Proof.
  destruct T as [|x X]; [congruence|]. intros _. apply late_stages_line.
Qed.

(** The lookahead of the paragraphs does not match a line that starts
    with running text. *)
Lemma lookahead_text (A rest : jsstring) :
  starts_open A = true ->
  Forall (fun y => N.eqb y (chr "<") = false) A ->
  matches flags_gm block_starts
          {| pos := 0; before := None; input := A ++ rest; caps := [] |} = [].
Proof.
  destruct A as [|y Y]; [discriminate|]. intros _ Hclean.
  inversion Hclean as [|? ? Hy _]; subst.
  apply matches_cannot_start. unfold can_start. cbn in Hy. cbn.
  now rewrite Hy.
Qed.

(** C9, as amended.  A line of running text with one span [[label](url)]:
    the text before the span is empty or starts with none of white space,
    a digit, [#] and [-]; the text around the span, the label and the URL
    hold no line terminator, star, backtick or opening bracket; the white
    space of the text and of the label is single spaces; the label holds no
    closing bracket; the URL holds no white space, closing parenthesis or
    double quote.  [format]
    turns the span into an anchor exactly when the label is not empty and
    the URL is [http://] or [https://] followed by at least one character;
    the anchor has the escaped URL as [href], [target=_blank] and
    [rel=noopener noreferrer], and the escaped label as its text.  Any
    other such span stays as it was written.  In both cases the line
    becomes one paragraph, and the escaped URL holds no double quote: the
    [href] ends where the template closes it. *)
Theorem link_span_in_text (a label url c : jsstring) :
  forallb mild a = true -> forallb label_char label = true ->
  forallb url_char url = true -> forallb mild c = true ->
  a = [] \/ starts_open a = true ->
  collapsed a = true -> collapsed label = true -> collapsed c = true ->
  ((label <> [] /\ web_url url) ->
   format (a ++ span label url ++ c)
   = js "<p>" ++ escape_html a
     ++ js "<a href=" ++ dq ++ escape_html url ++ dq ++ js " target=" ++ dq
     ++ js "_blank" ++ dq ++ js " rel=" ++ dq ++ js "noopener noreferrer" ++ dq
     ++ js ">" ++ escape_html label ++ js "</a>"
     ++ escape_html c ++ js "</p>")
  /\ (~ (label <> [] /\ web_url url) ->
      format (a ++ span label url ++ c)
      = js "<p>" ++ escape_html a
        ++ js "[" ++ escape_html label ++ js "](" ++ escape_html url ++ js ")"
        ++ escape_html c ++ js "</p>")
  /\ ~ In 34%N (escape_html url)
  /\ ~ In (chr "<") (escape_html label).
Proof.
  intros Ha Hl Hu Hc Hopen Hsa Hsl Hsc.
  destruct (label_facts label Hl) as [HmL HL].
  destruct (url_facts url Hu) as [HmU [HU [HUs Hq]]].
  pose proof (escape_mild a Ha) as HmA'.
  pose proof (escape_mild label HmL) as HmL'.
  pose proof (escape_mild url HmU) as HmU'.
  pose proof (escape_mild c Hc) as HmC'.
  pose proof (escape_collapsed a Hsa) as HsA.
  pose proof (escape_collapsed label Hsl) as HsL.
  pose proof (escape_collapsed c Hsc) as HsC.
  assert (format (a ++ span label url ++ c)
          = trim (fold_left (run_stage (fun c => c) (fun c => c))
                    (skipn 16 stages)
                    (replace flags_g re_link tpl_link
                       (escape_html a
                        ++ span (escape_html label) (escape_html url)
                        ++ escape_html c)))) as Hformat.
  { assert (exists x0 X0, a ++ span label url ++ c = x0 :: X0)
      as [x0 [X0 ET0]] by (destruct a; eexists _, _; reflexivity).
    rewrite ET0, format_nonempty, <- ET0.
    change stages
      with (firstn 15 stages ++ firstn 1 (skipn 15 stages) ++ skipn 16 stages).
    rewrite !fold_left_app.
    rewrite (@early_span_stages a label url c Ha HmL HmU Hc Hopen).
    reflexivity. }
  assert (forall rest,
             matches flags_gm block_starts
                     {| pos := 0; before := None;
                        input := escape_html a ++ chr "<" :: js "a href="
                                 ++ rest;
                        caps := [] |} = []
             /\ matches flags_gm block_starts
                        {| pos := 0; before := None;
                           input := escape_html a ++ chr "[" :: rest;
                           caps := [] |} = []) as Hlook.
  { intros rest. destruct Hopen as [-> | Ho].
    - split; vm_compute; reflexivity.
    - split; (apply lookahead_text;
              [now apply escape_starts_open | apply escape_clean]). }
  rewrite Hformat. clear Hformat.
  split; [|split; [|split; [exact Hq|]]].
  - intros [Hne Hweb].
    assert (replace flags_g re_link tpl_link
              (escape_html a ++ span (escape_html label) (escape_html url)
                 ++ escape_html c)
            = escape_html a
              ++ anchor (escape_html label) (escape_html url)
              ++ escape_html c) as ->.
    { apply escape_web_url in Hweb.
      destruct (web_url_scheme Hweb) as [secure [v [V EU]]].
      rewrite EU in *.
      destruct (escape_html label) as [|l0 L] eqn:EL;
        [apply (proj1 (escape_nil label)) in EL; contradiction|].
      apply link_stage_text_anchor;
        [ now apply mild_no_bracket | now apply mild_no_bracket | exact HL | ].
      apply Forall_app in HU. now destruct HU. }
    set (A := escape_html a) in *. set (L := escape_html label) in *.
    set (U := escape_html url) in *. set (C := escape_html c) in *.
    assert (A ++ anchor L U ++ C
            = A ++ (chr "<" :: js "a href=" ++ dq) ++ U
              ++ (dq ++ js " target=" ++ dq ++ js "_blank" ++ dq ++ js " rel="
                    ++ dq ++ js "noopener noreferrer" ++ dq ++ js ">")
              ++ L ++ js "</a>" ++ C) as ET.
    { unfold anchor. now rewrite <- !app_assoc. }
    rewrite ET. rewrite late_stages_text.
    + rewrite <- !app_assoc. reflexivity.
    + destruct A; discriminate.
    + repeat (apply Forall_app; split);
        try (now apply mild_no_terminator); repeat constructor.
    + exact (proj1 (Hlook _)).
    + rewrite <- !app_assoc.
      rewrite (collapsed_then A _ HsA) by reflexivity.
      rewrite (@single_spaced_app (chr "<" :: js "a href=" ++ dq) _)
        by reflexivity.
      rewrite (@single_spaced_app U _)
        by (now apply single_spaced_no_space).
      repeat (rewrite single_spaced_app by reflexivity).
      rewrite (collapsed_then L _ HsL) by reflexivity.
      rewrite (@single_spaced_app (js "</a>") _) by reflexivity.
      rewrite (collapsed_then C _ HsC) by reflexivity.
      reflexivity.
  - intros Hbad.
    assert (~ (escape_html label <> [] /\ web_url (escape_html url)))
      as Hbad'.
    { intros [H1 H2]. apply Hbad. split.
      - intros ->. now apply H1.
      - now apply escape_web_url. }
    rewrite link_stage_text_same;
      try (now apply mild_no_bracket); try (now apply Forall_eqb_not_In);
      try exact Hbad'.
    2:{ apply Forall_eqb_not_In. eapply Forall_impl; [|exact HU].
        now intros y [_ Hy]. }
    set (A := escape_html a) in *. set (L := escape_html label) in *.
    set (U := escape_html url) in *. set (C := escape_html c) in *.
    assert (A ++ span L U ++ C
            = A ++ (chr "[" :: L) ++ js "](" ++ U ++ js ")" ++ C) as ET.
    { unfold span. now rewrite <- !app_assoc. }
    rewrite ET. rewrite late_stages_text.
    + rewrite <- !app_assoc. reflexivity.
    + destruct A; discriminate.
    + change (chr "[" :: L) with (js "[" ++ L).
      repeat (apply Forall_app; split);
        try (now apply mild_no_terminator); repeat constructor.
    + exact (proj2 (Hlook _)).
    + rewrite <- !app_assoc.
      rewrite (collapsed_then A _ HsA) by reflexivity.
      change ((chr "[" :: L) ++ ?r) with (js "[" ++ L ++ r).
      rewrite (@single_spaced_app (js "[") _) by reflexivity.
      rewrite (collapsed_then L _ HsL) by reflexivity.
      rewrite (@single_spaced_app (js "](") _) by reflexivity.
      rewrite (@single_spaced_app U _)
        by (now apply single_spaced_no_space).
      rewrite (@single_spaced_app (js ")") _) by reflexivity.
      rewrite (collapsed_then C _ HsC) by reflexivity.
      reflexivity.
  - apply Forall_eqb_not_In. apply escape_clean.
Qed.

Lemma link_span_in_text_witness :
  forallb mild (js "see ") = true
  /\ forallb label_char (js "click here") = true
  /\ forallb url_char (js "https://example.com/a?b=1&c=2") = true
  /\ format (js "see [click here](https://example.com/a?b=1&c=2) now")
     = js "<p>see <a href=" ++ dq ++ js "https://example.com/a?b=1&amp;c=2"
       ++ dq ++ js " target=" ++ dq ++ js "_blank" ++ dq ++ js " rel=" ++ dq
       ++ js "noopener noreferrer" ++ dq ++ js ">click here</a> now</p>".
Proof.
  split; [vm_compute; reflexivity|]. split; [vm_compute; reflexivity|].
  split; [vm_compute; reflexivity|].
  apply (proj1 (@link_span_in_text (js "see ") (js "click here")
                  (js "https://example.com/a?b=1&c=2") (js " now")
                  eq_refl eq_refl eq_refl eq_refl
                  (or_intror eq_refl) eq_refl eq_refl eq_refl)).
  split; [discriminate|].
  exists (js "example.com/a?b=1&c=2"). split; [discriminate|].
  right. reflexivity.
Defined.


End SpanFacts.
